(** * js-query-pagination: the query-string encoder, the decoder and validation

    A shallow embedding of [src/utils.ts] (the encoder, the validation,
    [parseSortString] and [mergeParams]), of the entry points of
    [src/index.ts] and of the setters and build methods of
    [src/builder.ts], with the properties the specification states about
    them and further properties of the code.

    Conventions of the embedding.
    - A JavaScript string is a [string]: the bytes of its UTF-8 encoding,
      a lone surrogate standing in its three-byte form.
      [encodeURIComponent] works on exactly these bytes and throws on a lone
      surrogate; [URLSearchParams] works on exactly these bytes as long as
      the query string holds no lone surrogate and no malformed
      percent-encoded UTF-8, which the host would replace by U+FFFD: such
      query strings are outside the embedding.
    - A value is [undefined], [null], a boolean, a number, a string, an
      array or a plain object.  An object is the list of its own enumerable
      entries in the order [Object.entries] yields them; keys are unique.
    - A thrown exception is a value of [outcome]; the modules are strict
      code, so a write to a property of a primitive throws. *)

From Stdlib Require Import ZArith NArith List String Ascii Bool Lia.
From Stdlib Require Import DecimalString Decimal DecimalPos.
Import ListNotations.

#[local] Set Warnings "-register-all".
#[local] Open Scope string_scope.
#[local] Open Scope Z_scope.

(** ** Characters and strings *)

Definition code (c : ascii) : N := N_of_ascii c.

Definition in_range (lo hi : N) (c : ascii) : bool :=
  ((lo <=? code c) && (code c <=? hi))%N.

Definition is_digit (c : ascii) : bool := in_range 48 57 c.
Definition is_upper (c : ascii) : bool := in_range 65 90 c.
Definition is_lower (c : ascii) : bool := in_range 97 122 c.

Fixpoint includes (c : ascii) (s : string) : bool :=
  match s with
  | EmptyString => false
  | String d r => Ascii.eqb d c || includes c r
  end.

Fixpoint all_chars (p : ascii -> bool) (s : string) : bool :=
  match s with
  | EmptyString => true
  | String d r => p d && all_chars p r
  end.

(** [split_first c s]: the text before and after the first [c] of [s]. *)
Fixpoint split_first (c : ascii) (s : string) : option (string * string) :=
  match s with
  | EmptyString => None
  | String d r =>
      if Ascii.eqb d c then Some (EmptyString, r)
      else match split_first c r with
           | Some (a, b) => Some (String d a, b)
           | None => None
           end
  end.

(** [split_all c s]: [s.split(c)] for a one-character separator. *)
Fixpoint split_all (c : ascii) (s : string) : list string :=
  match s with
  | EmptyString => [EmptyString]
  | String d r =>
      if Ascii.eqb d c then EmptyString :: split_all c r
      else match split_all c r with
           | h :: t => String d h :: t
           | [] => [String d EmptyString]
           end
  end.

Fixpoint replace_char (a b : ascii) (s : string) : string :=
  match s with
  | EmptyString => EmptyString
  | String d r => String (if Ascii.eqb d a then b else d) (replace_char a b r)
  end.

Definition is_empty (s : string) : bool :=
  match s with EmptyString => true | _ => false end.

(** [endsWith s suffix] and [s.slice(0, -n)]. *)
Definition endsWith (s suffix : string) : bool :=
  let ls := String.length s in
  let lx := String.length suffix in
  (lx <=? ls)%nat && String.eqb (substring (ls - lx) lx s) suffix.

Definition drop_last (n : nat) (s : string) : string :=
  substring 0 (String.length s - n) s.

(** ** Outcomes

    [Throw] is a JavaScript exception.  [Unmodelled] marks the places where
    the source goes on with something the embedding does not describe: an
    array that carries named properties, an inherited member of
    [Object.prototype] used as a container, or the decimal rendering of an
    integer beyond [2^53].  Nothing is claimed there. *)

Inductive exn : Type :=
  | Error (message : string)
  | TypeError
  | URIError.

Inductive outcome (A : Type) : Type :=
  | Ok (a : A)
  | Throw (e : exn)
  | Unmodelled.

Arguments Ok {A} a.
Arguments Throw {A} e.
Arguments Unmodelled {A}.

Definition bind {A B : Type} (m : outcome A) (f : A -> outcome B) : outcome B :=
  match m with
  | Ok a => f a
  | Throw e => Throw e
  | Unmodelled => Unmodelled
  end.

Notation "x <- m ;; k" := (bind m (fun x => k))
  (at level 61, m at next level, right associativity).

Fixpoint fold_outcome {A B : Type} (f : A -> B -> outcome A) (l : list B) (a : A)
  : outcome A :=
  match l with
  | [] => Ok a
  | b :: r => a' <- f a b ;; fold_outcome f r a'
  end.

Definition map_outcome {A B : Type} (f : A -> outcome B)
  : list A -> outcome (list B) :=
  fix go (l : list A) : outcome (list B) :=
    match l with
    | [] => Ok []
    | a :: r => b <- f a ;; bs <- go r ;; Ok (b :: bs)
    end.

Fixpoint map_indexed_outcome {A B : Type} (f : A -> nat -> outcome B) (i : nat)
  (l : list A) : outcome (list B) :=
  match l with
  | [] => Ok []
  | a :: r => b <- f a i ;; bs <- map_indexed_outcome f (S i) r ;; Ok (b :: bs)
  end.

Fixpoint flat_map_outcome {A B : Type} (f : A -> outcome (list B)) (l : list A)
  : outcome (list B) :=
  match l with
  | [] => Ok []
  | a :: r => x <- f a ;; xs <- flat_map_outcome f r ;; Ok (x ++ xs)%list
  end.

(** ** Numbers

    A double is observed by this program only through [Number.isInteger],
    the comparison with 1, its truthiness and its decimal rendering.
    [NInt z] is the integral double of value [z]; [NFrac fl txt] is a
    finite double with a fractional part, kept with its floor and its
    rendering.  [Number_toString] is the rendering of [String]: for an
    integer it is exact up to [2^53 - 1], and [ToString] uses it no
    further. *)

Inductive number : Type :=
  | NInt (z : Z)
  | NFrac (floor : Z) (text : string)
  | NNaN
  | NInf (negative : bool).

Definition Number_isInteger (n : number) : bool :=
  match n with NInt _ => true | _ => false end.

(** [n < 1] *)
Definition lt_one (n : number) : bool :=
  match n with
  | NInt z => z <? 1
  | NFrac fl _ => fl <? 1
  | NNaN => false
  | NInf negative => negative
  end.

Definition Number_toString (n : number) : string :=
  match n with
  | NInt z => NilZero.string_of_int (Z.to_int z)
  | NFrac _ txt => txt
  | NNaN => "NaN"
  | NInf false => "Infinity"
  | NInf true => "-Infinity"
  end.

(** ** Values *)

Inductive value : Type :=
  | VUndefined
  | VNull
  | VBool (b : bool)
  | VNumber (n : number)
  | VString (s : string)
  | VArray (elems : list value)
  | VObject (entries : list (string * value)).

Definition object : Type := list (string * value).
Bind Scope list_scope with object.

(** The text [String(v)] returns, when it returns ([ToString] below): an
    array is joined with commas, [null] and [undefined] elements rendering
    as the empty string. *)
Fixpoint text_of (v : value) : string :=
  match v with
  | VUndefined => "undefined"
  | VNull => "null"
  | VBool true => "true"
  | VBool false => "false"
  | VNumber n => Number_toString n
  | VString s => s
  | VArray l =>
      String.concat ","
        (map (fun e => match e with
                       | VUndefined | VNull => EmptyString
                       | _ => text_of e
                       end) l)
  | VObject _ => "[object Object]"
  end.

Definition truthy (v : value) : bool :=
  match v with
  | VUndefined | VNull => false
  | VBool b => b
  | VNumber (NInt z) => negb (z =? 0)
  | VNumber NNaN => false
  | VNumber _ => true
  | VString s => negb (is_empty s)
  | VArray _ | VObject _ => true
  end.

(** ** Objects as entry lists *)

Fixpoint lookup (o : object) (k : string) : option value :=
  match o with
  | [] => None
  | (k', v) :: r => if String.eqb k' k then Some v else lookup r k
  end.

(** [o.k] for a key that [Object.prototype] does not define. *)
Definition get (o : object) (k : string) : value :=
  match lookup o k with Some v => v | None => VUndefined end.

Fixpoint replace_entry (o : object) (k : string) (v : value) : object :=
  match o with
  | [] => []
  | (k', v') :: r =>
      if String.eqb k' k then (k', v) :: r else (k', v') :: replace_entry r k v
  end.

(** Array-index keys (canonical decimal numerals below 2^32 - 1) are listed
    first by [Object.entries], in ascending order; the other keys follow in
    insertion order. *)
Fixpoint digits_value (s : string) (acc : Z) : Z :=
  match s with
  | EmptyString => acc
  | String d r => digits_value r (10 * acc + (Z.of_N (code d) - 48))
  end.

Definition array_index (k : string) : option Z :=
  match k with
  | EmptyString => None
  | String d r =>
      if all_chars is_digit k
         && (is_empty r || negb (Ascii.eqb d "0"))
         && (String.length k <=? 10)%nat
         && (digits_value k 0 <? 4294967295)
      then Some (digits_value k 0) else None
  end.

Fixpoint insert_index (i : Z) (k : string) (v : value) (o : object) : object :=
  match o with
  | [] => [(k, v)]
  | (k', v') :: r =>
      match array_index k' with
      | Some j => if i <? j then (k, v) :: o
                  else (k', v') :: insert_index i k v r
      | None => (k, v) :: o
      end
  end.

(** [o[k] = v] on an own or new property. *)
Definition obj_set (o : object) (k : string) (v : value) : object :=
  match lookup o k with
  | Some _ => replace_entry o k v
  | None =>
      match array_index k with
      | Some i => insert_index i k v o
      | None => (o ++ [(k, v)])%list
      end
  end.

(** ** Conversion to a string

    [String(v)] on an object goes through its [toString] member.  No value
    of the embedding is a function, so an object with an own [toString]
    property has no callable one: the conversion goes on to [valueOf],
    which is not callable or returns the object itself, and throws a
    [TypeError].  Without an own [toString], [Object.prototype.toString]
    gives ["[object Object]"].  An array is joined with commas, its
    elements converted in order, [null] and [undefined] giving the empty
    string. *)

Definition own_toString (o : object) : bool :=
  match lookup o "toString" with Some _ => true | None => false end.

Definition safe_integer (z : Z) : bool := Z.abs z <=? 9007199254740991.

Fixpoint ToString (v : value) : outcome string :=
  match v with
  | VNumber (NInt z) =>
      if safe_integer z then Ok (Number_toString (NInt z)) else Unmodelled
  | VArray l =>
      parts <- map_outcome
                 (fun e => match e with
                           | VUndefined | VNull => Ok EmptyString
                           | _ => ToString e
                           end) l ;;
      Ok (String.concat "," parts)
  | VObject o => if own_toString o then Throw TypeError else Ok "[object Object]"
  | _ => Ok (text_of v)
  end.

(** ** Host functions: percent-encoding *)

(** The characters [encodeURIComponent] leaves as they are:
    letters, digits and [- _ . ! ~ * ' ( )]. *)
Definition is_unreserved (c : ascii) : bool :=
  is_upper c || is_lower c || is_digit c
  || existsb (Ascii.eqb c)
       ["-"; "_"; "."; "!"; "~"; "*"; "'"; "("; ")"]%char.

Definition hex_digit (n : N) : ascii :=
  if (n <? 10)%N then ascii_of_N (48 + n) else ascii_of_N (55 + n).

Definition hex_value (c : ascii) : option N :=
  if is_digit c then Some (code c - 48)%N
  else if in_range 65 70 c then Some (code c - 55)%N
  else if in_range 97 102 c then Some (code c - 87)%N
  else None.

Definition percent_byte (c : ascii) : string :=
  String "%" (String (hex_digit (code c / 16))
                (String (hex_digit (code c mod 16)) EmptyString)).

(** The escaping of [encodeURIComponent], byte by byte. *)
Fixpoint percent_encode (s : string) : string :=
  match s with
  | EmptyString => EmptyString
  | String c r =>
      (if is_unreserved c then String c EmptyString else percent_byte c)
      ++ percent_encode r
  end.

(** A lone surrogate: the byte [ED] followed by one of [A0] to [BF], which
    well-formed UTF-8 never has. *)
Fixpoint lone_surrogate (s : string) : bool :=
  match s with
  | EmptyString => false
  | String c r =>
      match r with
      | String d _ => ((code c =? 237) && (160 <=? code d) && (code d <=? 191))%N
      | EmptyString => false
      end
      || lone_surrogate r
  end.

Definition encodeURIComponent (s : string) : outcome string :=
  if lone_surrogate s then Throw URIError else Ok (percent_encode s).

(** Percent-decoding of the URL standard: a [%] that two hexadecimal digits
    do not follow is kept. *)
Fixpoint percent_decode (s : string) : string :=
  match s with
  | EmptyString => EmptyString
  | String c r =>
      if Ascii.eqb c "%" then
        match r with
        | String h (String l r') =>
            match hex_value h, hex_value l with
            | Some a, Some b =>
                String (ascii_of_N (16 * a + b)) (percent_decode r')
            | _, _ => String c (percent_decode r)
            end
        | _ => String c (percent_decode r)
        end
      else String c (percent_decode r)
  end.

(** [new URLSearchParams(init).entries()]: a leading [?] is dropped, the
    text is cut at every [&], empty pieces are skipped, each piece is cut
    at its first [=], [+] stands for a space, and both sides are
    percent-decoded. *)
Definition form_decode (s : string) : string :=
  percent_decode (replace_char "+" " " s).

Definition parse_pair (piece : string) : string * string :=
  match split_first "=" piece with
  | Some (name, val) => (form_decode name, form_decode val)
  | None => (form_decode piece, EmptyString)
  end.

Definition URLSearchParams (init : string) : list (string * string) :=
  let body := match init with
              | String "?" r => r
              | _ => init
              end in
  map parse_pair (filter (fun piece => negb (is_empty piece)) (split_all "&" body)).

(** ** Host functions: [parseInt(s, 10)] *)

(** White space and line terminators, as UTF-8: the six ASCII ones,
    U+00A0, U+1680, U+2000 to U+200A, U+2028, U+2029, U+202F, U+205F,
    U+3000 and U+FEFF. *)
Fixpoint trim_start (s : string) : string :=
  match s with
  | EmptyString => s
  | String c r =>
      if in_range 9 13 c || (code c =? 32)%N then trim_start r
      else
        match r with
        | String d r2 =>
            if ((code c =? 194) && (code d =? 160))%N then trim_start r2
            else
              match r2 with
              | String e r3 =>
                  let c3 := (code c, code d, code e) in
                  if match c3 with
                     | (225, 154, 128) | (226, 128, 168) | (226, 128, 169)
                     | (226, 128, 175) | (226, 129, 159) | (227, 128, 128)
                     | (239, 187, 191) => true
                     | (226, 128, x) => ((128 <=? x) && (x <=? 138))%N
                     | _ => false
                     end%N
                  then trim_start r3 else s
              | EmptyString => s
              end
        | EmptyString => s
        end
  end.

(** The longest prefix of decimal digits. *)
Fixpoint digit_prefix (s : string) : string :=
  match s with
  | String d r => if is_digit d then String d (digit_prefix r) else EmptyString
  | EmptyString => EmptyString
  end.

(** The double nearest to a natural number [a], ties going to the even
    significand: [a] itself below [2^53], and above it the nearest multiple
    of the power of two that leaves 53 bits. *)
Definition nearest_double (a : Z) : Z :=
  if a <? 2 ^ 53 then a
  else
    let e := Z.log2 a - 52 in
    let q := Z.shiftr a e in
    let r := a - Z.shiftl q e in
    let half := Z.shiftl 1 (e - 1) in
    Z.shiftl (if (half <? r) || (r =? half) && Z.odd q then q + 1 else q) e.

(** The integral double nearest to [z]: infinite from [2^1024 - 2^970] on.
    [parseInt] may replace the digits after the twentieth by zeros; the
    hosts in use round the full numeral, as here. *)
Definition integral_double (z : Z) : number :=
  if Z.abs z <? 2 ^ 1024 - 2 ^ 970
  then NInt (Z.sgn z * nearest_double (Z.abs z))
  else NInf (z <? 0).

Definition parseInt (s : string) : number :=
  let t := trim_start s in
  let (negative, body) :=
    match t with
    | String "-" r => (true, r)
    | String "+" r => (false, r)
    | _ => (false, t)
    end in
  let ds := digit_prefix body in
  if is_empty ds then NNaN
  else integral_double (if negative then - digits_value ds 0 else digits_value ds 0).

(** ** The encoder ([src/utils.ts]) *)

Inductive ArrayFormat : Type := brackets | indices | comma | separator | repeat.

(** [BuilderOptions]: every field is optional. *)
Record BuilderOptions : Type := {
  encodeValues : option bool;
  arrayFormat : option ArrayFormat;
  arraySeparator : option string;
  skipNulls : option bool;
  skipEmptyString : option bool
}.

Definition DEFAULT_OPTIONS : BuilderOptions := {|
  encodeValues := Some true;
  arrayFormat := Some repeat;
  arraySeparator := Some ",";
  skipNulls := Some true;
  skipEmptyString := Some true
|}.

Definition no_options : BuilderOptions := {|
  encodeValues := None;
  arrayFormat := None;
  arraySeparator := None;
  skipNulls := None;
  skipEmptyString := None
|}.

Definition or_else {A : Type} (override base : option A) : option A :=
  match override with Some _ => override | None => base end.

(** [{ ...base, ...override }] *)
Definition merge_options (base override : BuilderOptions) : BuilderOptions := {|
  encodeValues := or_else (encodeValues override) (encodeValues base);
  arrayFormat := or_else (arrayFormat override) (arrayFormat base);
  arraySeparator := or_else (arraySeparator override) (arraySeparator base);
  skipNulls := or_else (skipNulls override) (skipNulls base);
  skipEmptyString := or_else (skipEmptyString override) (skipEmptyString base)
|}.

Definition flag (b : option bool) : bool :=
  match b with Some true => true | _ => false end.

Definition shouldSkipValue (v : value) (options : BuilderOptions) : bool :=
  if flag (skipNulls options)
     && match v with VNull | VUndefined => true | _ => false end
  then true
  else if flag (skipEmptyString options)
          && match v with VString EmptyString => true | _ => false end
  then true
  else false.

Fixpoint map_indexed {A B : Type} (f : A -> nat -> B) (i : nat) (l : list A)
  : list B :=
  match l with
  | [] => []
  | a :: r => f a i :: map_indexed f (S i) r
  end.

Definition nat_to_string (n : nat) : string := NilZero.string_of_uint (Nat.to_uint n).

Definition camelToSnakeCase (str : string) : string :=
  if String.eqb str "searchFields" then "search_fields" else str.

(** [encodeValue(value, encode = true)]: an absent flag takes the default. *)
Definition encodeValue (v : value) (encode : option bool) : outcome string :=
  stringValue <- ToString v ;;
  match encode with
  | Some false => Ok stringValue
  | _ => encodeURIComponent stringValue
  end.

Definition formatArrayValue (key : string) (values : list value)
  (options : BuilderOptions) : outcome (list string) :=
  let enc v := encodeValue v (encodeValues options) in
  match arrayFormat options with
  | Some brackets =>
      map_outcome (fun v => k <- enc (VString key) ;; e <- enc v ;;
                            Ok (k ++ "[]=" ++ e)) values
  | Some indices =>
      map_indexed_outcome
        (fun v index => k <- enc (VString key) ;; e <- enc v ;;
                        Ok (k ++ "[" ++ nat_to_string index ++ "]=" ++ e))
        0%nat values
  | Some comma =>
      joinedValues <- map_outcome enc values ;;
      k <- enc (VString key) ;;
      Ok [k ++ "=" ++ String.concat "," joinedValues]
  | Some separator =>
      let sep := match arraySeparator options with
                 | Some s => s
                 | None => ","
                 end in
      joinedValues <- map_outcome enc values ;;
      k <- enc (VString key) ;;
      Ok [k ++ "=" ++ String.concat sep joinedValues]
  | Some repeat | None =>
      map_outcome (fun v => k <- enc (VString key) ;; e <- enc v ;;
                            Ok (k ++ "=" ++ e)) values
  end.

(** The tokens of one entry of a nested object. *)
Definition nestedParams (queryKey : string) (options : BuilderOptions)
  (entry : string * value) : outcome (list string) :=
  let (nestedKey, nestedValue) := entry in
  if shouldSkipValue nestedValue options then Ok []
  else
    let flatKey := queryKey ++ "[" ++ nestedKey ++ "]" in
    match nestedValue with
    | VArray vs => formatArrayValue flatKey vs options
    | _ =>
        k <- encodeValue (VString flatKey) (encodeValues options) ;;
        e <- encodeValue nestedValue (encodeValues options) ;;
        Ok [k ++ "=" ++ e]
    end.

(** The tokens of one top-level entry. *)
Definition entryParams (options : BuilderOptions) (entry : string * value)
  : outcome (list string) :=
  let (key, v) := entry in
  if shouldSkipValue v options then Ok []
  else
    let queryKey := camelToSnakeCase key in
    match v with
    | VArray vs =>
        match vs with
        | [] => Ok []
        | _ => formatArrayValue queryKey vs options
        end
    | VObject nested => flat_map_outcome (nestedParams queryKey options) nested
    | _ =>
        k <- encodeValue (VString queryKey) (encodeValues options) ;;
        e <- encodeValue v (encodeValues options) ;;
        Ok [k ++ "=" ++ e]
    end.

Definition objectToQueryParams (obj : object) (options : BuilderOptions)
  : outcome (list string) :=
  flat_map_outcome (entryParams options) obj.

Definition buildQueryString (params : object) (options : BuilderOptions)
  : outcome string :=
  queryParams <- objectToQueryParams params options ;;
  Ok match queryParams with
     | [] => EmptyString
     | _ => String.concat "&" queryParams
     end.

(** ** The text of the tokens

    What the encoder returns when every conversion returns:
    [encoded_text] for [encodeValue], [array_tokens] for [formatArrayValue],
    [nested_tokens], [entry_tokens] and [object_tokens] for the loops of
    [objectToQueryParams] and [query_text] for [buildQueryString]. *)

Definition encoded_text (v : value) (encode : option bool) : string :=
  let stringValue := text_of v in
  match encode with
  | Some false => stringValue
  | _ => percent_encode stringValue
  end.

Definition array_tokens (key : string) (values : list value)
  (options : BuilderOptions) : list string :=
  let enc v := encoded_text v (encodeValues options) in
  match arrayFormat options with
  | Some brackets =>
      map (fun v => enc (VString key) ++ "[]=" ++ enc v) values
  | Some indices =>
      map_indexed
        (fun v index => enc (VString key) ++ "[" ++ nat_to_string index ++ "]=" ++ enc v)
        0%nat values
  | Some comma =>
      [enc (VString key) ++ "=" ++ String.concat "," (map enc values)]
  | Some separator =>
      let sep := match arraySeparator options with
                 | Some s => s
                 | None => ","
                 end in
      [enc (VString key) ++ "=" ++ String.concat sep (map enc values)]
  | Some repeat | None =>
      map (fun v => enc (VString key) ++ "=" ++ enc v) values
  end.

Definition nested_tokens (queryKey : string) (options : BuilderOptions)
  (entry : string * value) : list string :=
  let (nestedKey, nestedValue) := entry in
  if shouldSkipValue nestedValue options then []
  else
    let flatKey := queryKey ++ "[" ++ nestedKey ++ "]" in
    match nestedValue with
    | VArray vs => array_tokens flatKey vs options
    | _ => [encoded_text (VString flatKey) (encodeValues options) ++ "="
            ++ encoded_text nestedValue (encodeValues options)]
    end.

Definition entry_tokens (options : BuilderOptions) (entry : string * value)
  : list string :=
  let (key, v) := entry in
  if shouldSkipValue v options then []
  else
    let queryKey := camelToSnakeCase key in
    match v with
    | VArray vs =>
        match vs with
        | [] => []
        | _ => array_tokens queryKey vs options
        end
    | VObject nested => flat_map (nested_tokens queryKey options) nested
    | _ => [encoded_text (VString queryKey) (encodeValues options) ++ "="
            ++ encoded_text v (encodeValues options)]
    end.

Definition object_tokens (obj : object) (options : BuilderOptions)
  : list string :=
  flat_map (entry_tokens options) obj.

Definition query_text (params : object) (options : BuilderOptions)
  : string :=
  let queryParams := object_tokens params options in
  match queryParams with
  | [] => EmptyString
  | _ => String.concat "&" queryParams
  end.

(** ** Inherited members and assignment *)

(** The members every object inherits from [Object.prototype]. *)
Definition Object_prototype_keys : list string :=
  ["constructor"; "__defineGetter__"; "__defineSetter__"; "hasOwnProperty";
   "__lookupGetter__"; "__lookupSetter__"; "isPrototypeOf";
   "propertyIsEnumerable"; "toString"; "valueOf"; "__proto__";
   "toLocaleString"].

Definition inherited (k : string) : bool :=
  existsb (String.eqb k) Object_prototype_keys.

Definition is_primitive (v : value) : bool :=
  match v with VArray _ | VObject _ => false | _ => true end.

(** [o[k] = v]: the [__proto__] setter ignores a primitive and installs a
    prototype otherwise. *)
Definition assign (o : object) (k : string) (v : value) : outcome object :=
  if String.eqb k "__proto__" then
    if is_primitive v && negb match v with VNull => true | _ => false end
    then Ok o else Unmodelled
  else Ok (obj_set o k v).

(** ** The decoder ([fromQueryString] of [src/index.ts]) *)

(** [if (!o[k]) o[k] = []; o[k].push(v)] *)
Definition push_at (o : object) (k : string) (v : string) : outcome object :=
  match lookup o k with
  | Some x =>
      if truthy x then
        match x with
        | VArray l => Ok (obj_set o k (VArray (l ++ [VString v])))
        | _ => Throw TypeError
        end
      else Ok (obj_set o k (VArray [VString v]))
  | None =>
      if inherited k then Throw TypeError
      else Ok (obj_set o k (VArray [VString v]))
  end.

(** [if (!params[baseKey]) params[baseKey] = {}], then [params[baseKey]].
    A property cannot be created on a primitive (the module is strict
    code). *)
Definition nested_object (params : object) (baseKey : string) : outcome object :=
  match lookup params baseKey with
  | Some x =>
      if truthy x then
        match x with
        | VObject o => Ok o
        | VArray _ => Unmodelled
        | _ => Throw TypeError
        end
      else Ok []
  | None => if inherited baseKey then Unmodelled else Ok []
  end.

(** The [nestedObjectMatch] branch: assign, promote to a pair, or append. *)
Definition collapse_at (o : object) (k : string) (v : string) : outcome object :=
  match lookup o k with
  | Some VUndefined => Ok (obj_set o k (VString v))
  | Some (VArray l) => Ok (obj_set o k (VArray (l ++ [VString v])))
  | Some existingValue => Ok (obj_set o k (VArray [existingValue; VString v]))
  | None => if inherited k then Unmodelled else Ok (obj_set o k (VString v))
  end.

(** [/^([^\[]+)\[(\d+)\]$/] *)
Definition indexMatch (key : string) : option string :=
  match split_first "[" key with
  | Some (baseKey, rest) =>
      match split_first "]" rest with
      | Some (idx, tail) =>
          if negb (is_empty baseKey) && negb (is_empty idx)
             && all_chars is_digit idx && is_empty tail
          then Some baseKey else None
      | None => None
      end
  | None => None
  end.

(** The shape [base[field]tail] shared by the two nested patterns. *)
Definition nestedShape (key : string) : option (string * string * string) :=
  match split_first "[" key with
  | Some (baseKey, rest) =>
      match split_first "]" rest with
      | Some (nestedKey, tail) =>
          if negb (is_empty baseKey) && negb (is_empty nestedKey)
          then Some (baseKey, nestedKey, tail) else None
      | None => None
      end
  | None => None
  end.

(** [/^([^\[]+)\[([^\]]+)\]\[\]$/] *)
Definition nestedArrayMatch (key : string) : option (string * string) :=
  match nestedShape key with
  | Some (baseKey, nestedKey, tail) =>
      if String.eqb tail "[]" then Some (baseKey, nestedKey) else None
  | None => None
  end.

(** [/^([^\[]+)\[([^\]]+)\]$/] *)
Definition nestedObjectMatch (key : string) : option (string * string) :=
  match nestedShape key with
  | Some (baseKey, nestedKey, tail) =>
      if is_empty tail then Some (baseKey, nestedKey) else None
  | None => None
  end.

(** The body of the loop over [urlParams.entries()]. *)
Definition decode_pair (params : object) (pair : string * string)
  : outcome object :=
  let (key, v) := pair in
  if includes "[" key && includes "]" key then
    match indexMatch key with
    | Some baseKey => push_at params baseKey v
    | None =>
        match nestedArrayMatch key, nestedObjectMatch key with
        | Some (baseKey, nestedKey), _ =>
            o <- nested_object params baseKey ;;
            o' <- push_at o nestedKey v ;;
            Ok (obj_set params baseKey (VObject o'))
        | None, Some (baseKey, nestedKey) =>
            o <- nested_object params baseKey ;;
            o' <- collapse_at o nestedKey v ;;
            Ok (obj_set params baseKey (VObject o'))
        | None, None =>
            if endsWith key "[]" then push_at params (drop_last 2 key) v
            else Ok params
        end
    end
  else if String.eqb key "page" || String.eqb key "limit" then
    assign params key (VNumber (parseInt v))
  else if String.eqb key "vacuum" then
    assign params key (VBool (String.eqb v "true"))
  else if String.eqb key "sort" || String.eqb key "searchFields" then
    push_at params key v
  else assign params key (VString v).

Definition decode_pairs (pairs : list (string * string)) : outcome object :=
  fold_outcome decode_pair pairs [].

(** ** The fluent builder ([src/builder.ts]): the filter methods *)

Record PaginateBuilder : Type := {
  params : object;
  options : BuilderOptions;
  baseUrl : string
}.

Definition with_params (b : PaginateBuilder) (p : object) : PaginateBuilder :=
  {| params := p; options := options b; baseUrl := baseUrl b |}.

(** The [FilterOperator] type of [src/types.ts]. *)
Definition FilterOperator : list string :=
  ["like"; "likeor"; "likeand"; "eq"; "eqor"; "eqand"; "gte"; "gt"; "lte";
   "lt"; "in"; "notin"; "between"; "isnull"; "isnotnull"].

(** [if (!this.params.op) this.params.op = {}; this.params.op[field] = value] *)
Definition set_single (op field : string) (v : value) (b : PaginateBuilder)
  : outcome PaginateBuilder :=
  o <- nested_object (params b) op ;;
  o' <- assign o field v ;;
  Ok (with_params b (obj_set (params b) op (VObject o'))).

(** [[...(existing || []), ...values]]: spreading a string goes by code
    points, which the byte view does not give. *)
Definition spread_append (existing : option value) (values : list value)
  : outcome value :=
  match existing with
  | None => Ok (VArray values)
  | Some x =>
      if truthy x then
        match x with
        | VArray l => Ok (VArray (l ++ values))
        | VString _ => Unmodelled
        | _ => Throw TypeError
        end
      else Ok (VArray values)
  end.

(** [this.params.op[field] = [...(this.params.op[field] || []), ...values]] *)
Definition set_multi (op field : string) (values : list value)
  (b : PaginateBuilder) : outcome PaginateBuilder :=
  o <- nested_object (params b) op ;;
  arr <- (if inherited field
             && match lookup o field with None => true | _ => false end
          then Throw TypeError
          else spread_append (lookup o field) values) ;;
  o' <- assign o field arr ;;
  Ok (with_params b (obj_set (params b) op (VObject o'))).

(** [this.params.key = [...(this.params.key || []), ...fields]] *)
Definition set_list (key : string) (fields : list string) (b : PaginateBuilder)
  : outcome PaginateBuilder :=
  arr <- spread_append (lookup (params b) key) (map VString fields) ;;
  Ok (with_params b (obj_set (params b) key arr)).

Definition like := set_single "like".
Definition equals := set_single "eq".
Definition greaterThanOrEqual := set_single "gte".
Definition greaterThan := set_single "gt".
Definition lessThanOrEqual := set_single "lte".
Definition lessThan := set_single "lt".
Definition whereIn := set_multi "in".
Definition whereNotIn := set_multi "notin".
Definition isNull := set_list "isnull".
Definition isNotNull := set_list "isnotnull".

(** [Array.isArray(value) ? value : [value]] *)
Definition as_list (v : value) : list value :=
  match v with VArray l => l | _ => [v] end.

Definition filter (field operator : string) (v : value) (b : PaginateBuilder)
  : outcome PaginateBuilder :=
  if String.eqb operator "like" then like field v b
  else if String.eqb operator "eq" then equals field v b
  else if String.eqb operator "gte" then greaterThanOrEqual field v b
  else if String.eqb operator "gt" then greaterThan field v b
  else if String.eqb operator "lte" then lessThanOrEqual field v b
  else if String.eqb operator "lt" then lessThan field v b
  else if String.eqb operator "in" then whereIn field (as_list v) b
  else if String.eqb operator "notin" then whereNotIn field (as_list v) b
  else if String.eqb operator "isnull" then isNull [field] b
  else if String.eqb operator "isnotnull" then isNotNull [field] b
  else Throw (Error ("Unsupported filter operator: " ++ operator)).

(** ** Validation and the entry points

    [Number(v)] on a string follows the numeric-literal grammar of the
    language and rounds to a double; it is a parameter here, and every
    statement below holds whatever it returns. *)

Section EntryPoints.

Variable StringToNumber : string -> number.

(** [Number(v)].  An array is converted to a string first, which throws
    when [String] throws on an element.  An object is converted through
    [valueOf], which is not callable or returns the object itself, and then
    through [toString] as in [ToString]: an own [toString] property is not
    callable and the conversion throws a [TypeError]; without one the text
    is ["[object Object]"], which is not a number. *)
Definition ToNumber (v : value) : outcome number :=
  match v with
  | VUndefined => Ok NNaN
  | VNull => Ok (NInt 0)
  | VBool true => Ok (NInt 1)
  | VBool false => Ok (NInt 0)
  | VNumber n => Ok n
  | VString s => Ok (StringToNumber s)
  | VArray _ => s <- ToString v ;; Ok (StringToNumber s)
  | VObject o => if own_toString o then Throw TypeError else Ok NNaN
  end.

(** One of the two blocks of [validatePaginationParams]. *)
Definition check_positive (v : value) (message : string) : outcome unit :=
  match v with
  | VUndefined => Ok tt
  | _ =>
      n <- ToNumber v ;;
      if negb (Number_isInteger n) || lt_one n
      then Throw (Error message) else Ok tt
  end.

Definition validatePaginationParams (p : object) : outcome unit :=
  _ <- check_positive (get p "page") "Page must be a positive integer" ;;
  check_positive (get p "limit") "Limit must be a positive integer".

Definition toQueryString (p : object) (opts : BuilderOptions) : outcome string :=
  let mergedOptions := merge_options DEFAULT_OPTIONS opts in
  _ <- validatePaginationParams p ;;
  buildQueryString p mergedOptions.

Definition toUrl (base : string) (p : object) (opts : BuilderOptions)
  : outcome string :=
  queryString <- toQueryString p opts ;;
  if is_empty queryString then Ok base
  else Ok (base ++ (if includes "?" base then "&" else "?") ++ queryString).

(** The loop of [fromQueryString] followed by its validation. *)
Definition fromPairs (pairs : list (string * string)) : outcome object :=
  p <- decode_pairs pairs ;;
  _ <- validatePaginationParams p ;;
  Ok p.

Definition fromQueryString (queryString : string) : outcome object :=
  fromPairs (URLSearchParams queryString).

End EntryPoints.

(** A stand-in for [Number] on strings, exact on the empty string and on
    plain decimal numerals; the closed examples below pass it where a
    function is needed, and none of them depends on it. *)
Definition decimal_StringToNumber (s : string) : number :=
  if all_chars is_digit s then integral_double (digits_value s 0) else NNaN.

(** The pairs the loop of the decoder passes over without a change: a key
    with both brackets that none of the four patterns matches. *)
Definition no_pattern (key : string) : bool :=
  includes "[" key && includes "]" key
  && match indexMatch key, nestedArrayMatch key, nestedObjectMatch key with
     | None, None, None => negb (endsWith key "[]")
     | _, _, _ => false
     end.

(** A key without the two brackets takes the second branch of the loop. *)
Definition plain_key (key : string) : bool :=
  negb (includes "[" key && includes "]" key).

(** While only such keys are met, [sort] and [searchFields] hold lists. *)
Definition list_or_absent (v : option value) : bool :=
  match v with
  | None | Some (VArray _) => true
  | _ => false
  end.

Definition lists_ok (p : object) : bool :=
  list_or_absent (lookup p "sort") && list_or_absent (lookup p "searchFields").

(** The token the encoder emits for a key and a string, and the query
    string of a list of such pairs. *)
Definition token (pair : string * string) : string :=
  percent_encode (fst pair) ++ "=" ++ percent_encode (snd pair).

Definition join_tokens (tokens : list string) : string :=
  match tokens with
  | [] => EmptyString
  | _ => String.concat "&" tokens
  end.

(** The characters of an encoded component. *)
Definition encoded_char (c : ascii) : bool := is_unreserved c || Ascii.eqb c "%".

(** The models that the decoder gives back from their default encoding:
    - [page] and [limit]: a safe integer of at least 1;
    - [search]: a non-empty string; [vacuum]: a boolean;
    - [sort]: a non-empty sequence of strings;
    - a multi-valued operator map: a non-empty mapping from field names
      (non-empty, without a closing bracket, not a run of digits, not a
      member of [Object.prototype]) to sequences of at least two strings;
    all keys and, in a map, all field names being distinct. *)
Definition is_string (v : value) : bool :=
  match v with VString _ => true | _ => false end.

Definition field_ok (f : string) : bool :=
  negb (is_empty f) && negb (includes "]" f)
  && negb (all_chars is_digit f) && negb (inherited f).

Definition field_entry_ok (e : string * value) : bool :=
  field_ok (fst e)
  && match snd e with
     | VArray (a :: b :: r) => forallb is_string (a :: b :: r)
     | _ => false
     end.

Fixpoint distinct (l : list string) : bool :=
  match l with
  | [] => true
  | k :: r => negb (existsb (String.eqb k) r) && distinct r
  end.

Definition multi_valued_operators : list string :=
  ["likeor"; "likeand"; "eqor"; "eqand"; "in"; "notin"; "between"].

Definition safe_positive (z : Z) : bool :=
  (1 <=? z) && (z <=? 9007199254740991).

Definition entry_ok (e : string * value) : bool :=
  let (k, v) := e in
  if String.eqb k "page" || String.eqb k "limit" then
    match v with VNumber (NInt z) => safe_positive z | _ => false end
  else if String.eqb k "search" then
    match v with VString s => negb (is_empty s) | _ => false end
  else if String.eqb k "vacuum" then
    match v with VBool _ => true | _ => false end
  else if String.eqb k "sort" then
    match v with VArray (a :: r) => forallb is_string (a :: r) | _ => false end
  else if existsb (String.eqb k) multi_valued_operators then
    match v with
    | VObject (e :: r) =>
        forallb field_entry_ok (e :: r) && distinct (map fst (e :: r))
    | _ => false
    end
  else false.

Definition roundtrip_model (m : object) : bool :=
  forallb entry_ok m && distinct (map fst m).

(** The key [base[field]] and the pairs (decoded key, decoded value) that
    the tokens of an entry stand for. *)
Definition nested_key (base field : string) : string :=
  base ++ "[" ++ field ++ "]".

Definition field_pairs (k : string) (e : string * value)
  : list (string * string) :=
  match snd e with
  | VArray vs => map (fun x => (nested_key k (fst e), text_of x)) vs
  | _ => []
  end.

Definition entry_pairs (e : string * value) : list (string * string) :=
  match snd e with
  | VArray vs => map (fun x => (fst e, text_of x)) vs
  | VObject nested => flat_map (field_pairs (fst e)) nested
  | v => [(fst e, text_of v)]
  end.

(** The state of the loop while the fields of the operator map [k] are
    read: [acc] holds the entries decoded before, [o] the fields of the map
    rebuilt so far. *)
Definition reading (acc : object) (k : string) (o : object) (state : object)
  : Prop :=
  (o = [] /\ state = acc) \/ state = (acc ++ [(k, VObject o)])%list.

(** The key [base[idx]]. *)
Definition indexed_key (base idx : string) : string :=
  base ++ "[" ++ idx ++ "]".

Definition is_undefined (v : value) : bool :=
  match v with VUndefined => true | _ => false end.

(** What the specification calls a positive integer, for a field that may
    be absent. *)
Definition absent_or_positive (v : value) : bool :=
  match v with
  | VUndefined => true
  | VNumber (NInt z) => 1 <=? z
  | _ => false
  end.

(** [Number(v)] is not an integer, or is below 1. *)
Definition out_of_range (n : number) : bool :=
  negb (Number_isInteger n) || lt_one n.

(** ** What the encoder puts on the wire

    A [wire] is a token before percent-encoding: the key the encoder
    encodes, the brackets it writes after it as they are, and the values it
    encodes and joins with the separator.  [model_wires] follows
    [objectToQueryParams] entry by entry. *)

Record wire : Type := {
  wire_key : string;
  wire_suffix : string;
  wire_values : list string
}.

Definition separator_text (opts : BuilderOptions) : string :=
  match arrayFormat opts, arraySeparator opts with
  | Some separator, Some s => s
  | _, _ => ","
  end.

Definition array_wires (key : string) (values : list value)
  (opts : BuilderOptions) : list wire :=
  match arrayFormat opts with
  | Some brackets =>
      map (fun v => {| wire_key := key; wire_suffix := "[]";
                       wire_values := [text_of v] |}) values
  | Some indices =>
      map_indexed
        (fun v index => {| wire_key := key;
                           wire_suffix := "[" ++ nat_to_string index ++ "]";
                           wire_values := [text_of v] |})
        0%nat values
  | Some comma | Some separator =>
      [{| wire_key := key; wire_suffix := EmptyString;
          wire_values := map text_of values |}]
  | Some repeat | None =>
      map (fun v => {| wire_key := key; wire_suffix := EmptyString;
                       wire_values := [text_of v] |}) values
  end.

Definition scalar_wire (key : string) (v : value) : wire :=
  {| wire_key := key; wire_suffix := EmptyString; wire_values := [text_of v] |}.

Definition nested_wires (queryKey : string) (opts : BuilderOptions)
  (entry : string * value) : list wire :=
  let (nestedKey, nestedValue) := entry in
  if shouldSkipValue nestedValue opts then []
  else
    let flatKey := queryKey ++ "[" ++ nestedKey ++ "]" in
    match nestedValue with
    | VArray vs => array_wires flatKey vs opts
    | _ => [scalar_wire flatKey nestedValue]
    end.

Definition entry_wires (opts : BuilderOptions) (entry : string * value)
  : list wire :=
  let (key, v) := entry in
  if shouldSkipValue v opts then []
  else
    let queryKey := camelToSnakeCase key in
    match v with
    | VArray vs =>
        match vs with
        | [] => []
        | _ => array_wires queryKey vs opts
        end
    | VObject nested => flat_map (nested_wires queryKey opts) nested
    | _ => [scalar_wire queryKey v]
    end.

Definition model_wires (m : object) (opts : BuilderOptions) : list wire :=
  flat_map (entry_wires opts) m.

(** The token of a wire when values are percent-encoded, and the pair a
    form-decoding reader gets from it. *)
Definition wire_token (sep : string) (w : wire) : string :=
  percent_encode (wire_key w) ++ wire_suffix w ++ "="
  ++ String.concat sep (map percent_encode (wire_values w)).

Definition wire_pair (sep : string) (w : wire) : string * string :=
  (wire_key w ++ wire_suffix w, String.concat sep (wire_values w)).

(** Text without the characters the form parser gives a meaning to. *)
Definition clean (s : string) : bool :=
  negb (includes "%" s || includes "&" s || includes "=" s
        || includes "+" s || includes "?" s).

(** The options under which a reader can take the tokens apart again:
    values are percent-encoded and a custom separator is clean. *)
Definition readable_options (opts : BuilderOptions) : bool :=
  match encodeValues opts with Some false => false | _ => true end
  && clean (separator_text opts).

(** The characters of a query string built with encoding and without a
    custom separator. *)
Definition query_char (c : ascii) : bool :=
  encoded_char c || existsb (Ascii.eqb c) ["="; "&"; "["; "]"; ","]%char.

(** The brackets the encoder writes after a key. *)
Definition bracket_suffix (lit : string) : Prop :=
  clean lit = true /\ all_chars query_char lit = true.

Fixpoint count_char (c : ascii) (s : string) : nat :=
  match s with
  | EmptyString => 0%nat
  | String d r => ((if Ascii.eqb d c then 1 else 0) + count_char c r)%nat
  end.

(** ** The models the [brackets] format gives back

    As [roundtrip_model], but a flat sequence may stand under [sort],
    [isnull] or [isnotnull], and a nested sequence may have one element. *)

Definition list_keys : list string := ["sort"; "isnull"; "isnotnull"].

Definition brackets_field_ok (e : string * value) : bool :=
  field_ok (fst e)
  && match snd e with
     | VArray (a :: r) => forallb is_string (a :: r)
     | _ => false
     end.

Definition brackets_entry_ok (e : string * value) : bool :=
  let (k, v) := e in
  if String.eqb k "page" || String.eqb k "limit" then
    match v with VNumber (NInt z) => safe_positive z | _ => false end
  else if String.eqb k "search" then
    match v with VString s => negb (is_empty s) | _ => false end
  else if String.eqb k "vacuum" then
    match v with VBool _ => true | _ => false end
  else if existsb (String.eqb k) list_keys then
    match v with VArray (a :: r) => forallb is_string (a :: r) | _ => false end
  else if existsb (String.eqb k) multi_valued_operators then
    match v with
    | VObject (e :: r) =>
        forallb brackets_field_ok (e :: r) && distinct (map fst (e :: r))
    | _ => false
    end
  else false.

Definition brackets_model (m : object) : bool :=
  forallb brackets_entry_ok m && distinct (map fst m).

(** The pairs a reader gets from the tokens of such a model. *)
Definition brackets_field_pairs (k : string) (e : string * value)
  : list (string * string) :=
  match snd e with
  | VArray vs => map (fun x => (nested_key k (fst e) ++ "[]", text_of x)) vs
  | _ => []
  end.

Definition brackets_entry_pairs (e : string * value) : list (string * string) :=
  match snd e with
  | VArray vs => map (fun x => (fst e ++ "[]", text_of x)) vs
  | VObject nested => flat_map (brackets_field_pairs (fst e)) nested
  | v => [(fst e, text_of v)]
  end.

(** An operator map all of whose fields hold sequences, under names the
    encoder can bracket. *)
Definition is_array (v : value) : bool :=
  match v with VArray _ => true | _ => false end.

Definition sequence_field (e : string * value) : bool :=
  negb (is_empty (fst e)) && negb (includes "]" (fst e)) && is_array (snd e).

(** ** [parseSortString] and [mergeParams] ([src/utils.ts]) *)

Inductive SortDirection : Type := asc | desc.

Record SortConfig : Type := {
  field : string;
  direction : SortDirection
}.

(** [toLowerCase] on the ASCII letters.  The source only compares the result
    with ['desc'], and no character outside ASCII has one of these four
    letters as its lower case, so the comparison is exact on all text. *)
Definition lower_char (c : ascii) : ascii :=
  if is_upper c then ascii_of_N (code c + 32) else c.

Fixpoint toLowerCase (s : string) : string :=
  match s with
  | EmptyString => EmptyString
  | String c r => String (lower_char c) (toLowerCase r)
  end.

Definition startsWith_char (c : ascii) (s : string) : bool :=
  match s with String d _ => Ascii.eqb d c | EmptyString => false end.

(** [const [field, direction] = sortStr.split(':')]: with a single piece
    [direction] is [undefined] and [direction.toLowerCase()] is a
    [TypeError]. *)
Definition parseSortString (sortStr : string) : outcome SortConfig :=
  if startsWith_char "-" sortStr then
    Ok {| field := substring 1 (String.length sortStr - 1) sortStr;
          direction := desc |}
  else if includes ":" sortStr then
    match split_all ":" sortStr with
    | f :: d :: _ =>
        Ok {| field := f;
              direction := if String.eqb (toLowerCase d) "desc" then desc else asc |}
    | _ => Throw TypeError
    end
  else Ok {| field := sortStr; direction := asc |}.

Definition nullish (v : value) : bool :=
  match v with VUndefined | VNull => true | _ => false end.

(** [typeof v === 'object'] *)
Definition typeof_object (v : value) : bool :=
  match v with VNull | VArray _ | VObject _ => true | _ => false end.

Definition define_all (entries : list (string * value)) (into : object) : object :=
  fold_left (fun acc e => obj_set acc (fst e) (snd e)) entries into.

(** [{...into, ...v}]: the own enumerable properties of [v] are defined on
    the copy, a sequence giving its elements under their indices.  A string
    spreads by code units, which the byte view does not give. *)
Definition spread (into : object) (v : value) : outcome object :=
  match v with
  | VObject o => Ok (define_all o into)
  | VArray l =>
      Ok (define_all (map_indexed (fun x i => (nat_to_string i, x)) 0 l) into)
  | VString s => if is_empty s then Ok into else Unmodelled
  | _ => Ok into
  end.

(** The body of the inner loop of [mergeParams].  When [result] has no own
    [key], [result[key]] is [undefined] or an inherited function, and for
    [__proto__] the prototype itself: every branch then ends in the plain
    assignment, which [assign] describes.  [result] is built from [{}] by
    assignments, so it never has an own [__proto__]. *)
Definition merge_entry (result : object) (entry : string * value)
  : outcome object :=
  let (key, v) := entry in
  if nullish v then Ok result
  else
    match lookup result key with
    | Some existing =>
        if String.eqb key "__proto__" then Unmodelled
        else
          match v, existing with
          | VArray ys, VArray xs => assign result key (VArray (xs ++ ys))
          | VObject _, _ =>
              if typeof_object existing then
                copy <- spread [] existing ;;
                merged <- spread copy v ;;
                assign result key (VObject merged)
              else assign result key v
          | _, _ => assign result key v
          end
    | None => assign result key v
    end.

Definition mergeParams (paramObjects : list object) : outcome object :=
  fold_outcome (fun result p => fold_outcome merge_entry p result)
    paramObjects [].

(** What [mergeParams] leaves under a key that already held [existing]. *)
Definition merged_with (existing : option value) (v : value) : value :=
  match existing, v with
  | Some (VArray xs), VArray ys => VArray (xs ++ ys)
  | Some (VObject o), VObject o' => VObject (define_all o' (define_all o []))
  | Some (VArray xs), VObject o' =>
      VObject (define_all o'
                 (define_all (map_indexed (fun x i => (nat_to_string i, x)) 0 xs) []))
  | Some VNull, VObject o' => VObject (define_all o' [])
  | _, _ => v
  end.

Definition present (v : option value) : option value :=
  match v with
  | Some x => if nullish x then None else Some x
  | None => None
  end.

(** ** The fluent builder ([src/builder.ts]): the other setters *)

Definition createPaginate (opts : BuilderOptions) : PaginateBuilder :=
  {| params := []; options := merge_options DEFAULT_OPTIONS opts;
     baseUrl := EmptyString |}.

Definition setBaseUrl (url : string) (b : PaginateBuilder) : PaginateBuilder :=
  {| params := params b; options := options b; baseUrl := url |}.

Definition createPaginateWithUrl (url : string) (opts : BuilderOptions)
  : PaginateBuilder :=
  setBaseUrl url (createPaginate opts).

Definition page (n : number) (b : PaginateBuilder) : PaginateBuilder :=
  with_params b (obj_set (params b) "page" (VNumber n)).

Definition limit (n : number) (b : PaginateBuilder) : PaginateBuilder :=
  with_params b (obj_set (params b) "limit" (VNumber n)).

Definition search (term : string) (fields : list string) (b : PaginateBuilder)
  : PaginateBuilder :=
  let p := obj_set (params b) "search" (VString term) in
  with_params b
    (match fields with
     | [] => p
     | _ => obj_set p "searchFields" (VArray (map VString fields))
     end).

Definition searchFields := set_list "searchFields".
Definition sort := set_list "sort".
Definition sortAsc (f : string) := sort [f].
Definition sortDesc (f : string) := sort ["-" ++ f].

(** [vacuum(enabled = true)] *)
Definition vacuum (enabled : option bool) (b : PaginateBuilder)
  : PaginateBuilder :=
  with_params b
    (obj_set (params b) "vacuum"
       (VBool match enabled with Some e => e | None => true end)).

Definition likeOr := set_multi "likeor".
Definition likeAnd := set_multi "likeand".
Definition equalsOr := set_multi "eqor".
Definition equalsAnd := set_multi "eqand".

Definition between (f : string) (min max : value) :=
  set_single "between" f (VArray [min; max]).

Definition merge (p : object) (b : PaginateBuilder) : outcome PaginateBuilder :=
  merged <- mergeParams [params b; p] ;;
  Ok (with_params b merged).

Definition reset (b : PaginateBuilder) : PaginateBuilder := with_params b [].

(** A call of one of the chaining methods of the builder that set
    parameters, and a chain of such calls on a builder. *)
Inductive call : Type :=
  | call_page (n : number)
  | call_limit (n : number)
  | call_search (term : string) (fields : list string)
  | call_searchFields (fields : list string)
  | call_sort (sorts : list string)
  | call_sortAsc (f : string)
  | call_sortDesc (f : string)
  | call_vacuum (enabled : option bool)
  | call_like (f : string) (v : value)
  | call_likeOr (f : string) (values : list value)
  | call_likeAnd (f : string) (values : list value)
  | call_equals (f : string) (v : value)
  | call_equalsOr (f : string) (values : list value)
  | call_equalsAnd (f : string) (values : list value)
  | call_greaterThanOrEqual (f : string) (v : value)
  | call_greaterThan (f : string) (v : value)
  | call_lessThanOrEqual (f : string) (v : value)
  | call_lessThan (f : string) (v : value)
  | call_whereIn (f : string) (values : list value)
  | call_whereNotIn (f : string) (values : list value)
  | call_between (f : string) (min max : value)
  | call_isNull (fields : list string)
  | call_isNotNull (fields : list string)
  | call_filter (f operator : string) (v : value)
  | call_merge (p : object)
  | call_reset.

Definition perform (b : PaginateBuilder) (c : call) : outcome PaginateBuilder :=
  match c with
  | call_page n => Ok (page n b)
  | call_limit n => Ok (limit n b)
  | call_search term fields => Ok (search term fields b)
  | call_searchFields fields => searchFields fields b
  | call_sort sorts => sort sorts b
  | call_sortAsc f => sortAsc f b
  | call_sortDesc f => sortDesc f b
  | call_vacuum enabled => Ok (vacuum enabled b)
  | call_like f v => like f v b
  | call_likeOr f values => likeOr f values b
  | call_likeAnd f values => likeAnd f values b
  | call_equals f v => equals f v b
  | call_equalsOr f values => equalsOr f values b
  | call_equalsAnd f values => equalsAnd f values b
  | call_greaterThanOrEqual f v => greaterThanOrEqual f v b
  | call_greaterThan f v => greaterThan f v b
  | call_lessThanOrEqual f v => lessThanOrEqual f v b
  | call_lessThan f v => lessThan f v b
  | call_whereIn f values => whereIn f values b
  | call_whereNotIn f values => whereNotIn f values b
  | call_between f min max => between f min max b
  | call_isNull fields => isNull fields b
  | call_isNotNull fields => isNotNull fields b
  | call_filter f operator v => filter f operator v b
  | call_merge p => merge p b
  | call_reset => Ok (reset b)
  end.

Definition chain (calls : list call) (b : PaginateBuilder)
  : outcome PaginateBuilder :=
  fold_outcome perform calls b.

(** ** The other entry points ([src/index.ts]) and the build methods of the
    builder ([src/builder.ts]) *)

Section MoreEntryPoints.

Variable StringToNumber : string -> number.

(** [validatePaginationParams(v)] on any value: reading a property of
    [null] or [undefined] is a [TypeError]; a number, a string, a boolean
    and a sequence have no [page] and no [limit]. *)
Definition validate_value (v : value) : outcome unit :=
  match v with
  | VUndefined | VNull => Throw TypeError
  | VObject o => validatePaginationParams StringToNumber o
  | _ => Ok tt
  end.

Definition is_null (v : value) : bool :=
  match v with VNull => true | _ => false end.

Definition fromObject (obj : value) : outcome value :=
  if negb (typeof_object obj) || is_null obj then
    Throw (Error "Invalid object for pagination parameters")
  else
    _ <- validate_value obj ;;
    Ok obj.

(** [{...config, params: {...config.params, ...params}}] *)
Definition request_config (p config : object) : outcome object :=
  copy <- spread [] (VObject config) ;;
  inner <- spread [] (get config "params") ;;
  inner' <- spread inner (VObject p) ;;
  Ok (obj_set copy "params" (VObject inner')).

Definition toAxiosConfig (p config : object) : outcome object :=
  _ <- validatePaginationParams StringToNumber p ;;
  request_config p config.

(** [{method: 'GET', ...config}] *)
Definition fetch_config (config : object) : outcome object :=
  spread [("method", VString "GET")] (VObject config).

Definition toFetchConfig (base : string) (p config : object)
  (opts : BuilderOptions) : outcome (string * object) :=
  url <- toUrl StringToNumber base p opts ;;
  c <- fetch_config config ;;
  Ok (url, c).

(** [String(error)] for an error with the given name. *)
Definition error_text (name message : string) : string :=
  if is_empty message then name else name ++ ": " ++ message.

(** [JSON.parse] returns a value or throws a [SyntaxError] whose message is
    the host's, as is the message of the [TypeError] that validation ends
    in on the parsed value (reading a property of [null], converting an
    object to a number); they are parameters, and the statements hold
    whatever they are. *)
Variable JSON_parse : string -> value + string.
Variable host_message : value -> string.

Definition invalid_json (detail : string) : exn :=
  Error ("Invalid JSON for pagination parameters: " ++ detail).

Definition fromJSON (jsonString : string) : outcome value :=
  match JSON_parse jsonString with
  | inr message => Throw (invalid_json (error_text "SyntaxError" message))
  | inl parsed =>
      match validate_value parsed with
      | Ok _ => Ok parsed
      | Throw (Error message) => Throw (invalid_json (error_text "Error" message))
      | Throw TypeError =>
          Throw (invalid_json (error_text "TypeError" (host_message parsed)))
      | Throw URIError =>
          Throw (invalid_json (error_text "URIError" (host_message parsed)))
      | Unmodelled => Unmodelled
      end
  end.

End MoreEntryPoints.

Module Builder.

Section Build.

Variable StringToNumber : string -> number.

Definition buildQueryString (b : PaginateBuilder) : outcome string :=
  _ <- validatePaginationParams StringToNumber (params b) ;;
  buildQueryString (params b) (options b).

(** [baseUrl || this.baseUrl]: an absent or empty argument gives the URL of
    the builder. *)
Definition buildUrl (url_argument : option string) (b : PaginateBuilder)
  : outcome string :=
  let url := match url_argument with
             | Some u => if is_empty u then baseUrl b else u
             | None => baseUrl b
             end in
  queryString <- buildQueryString b ;;
  if is_empty queryString then Ok url
  else Ok (url ++ (if includes "?" url then "&" else "?") ++ queryString).

Definition buildAxiosConfig (config : object) (b : PaginateBuilder)
  : outcome object :=
  _ <- validatePaginationParams StringToNumber (params b) ;;
  request_config (params b) config.

Definition buildFetchConfig (url_argument : option string) (config : object)
  (b : PaginateBuilder) : outcome (string * object) :=
  url <- buildUrl url_argument b ;;
  c <- fetch_config config ;;
  Ok (url, c).

End Build.

End Builder.

(** ** When the conversions of the encoder return

    [convertible v]: [String(v)] returns, and the embedding has its text.
    [encodes encode v]: [encodeValue(v, encode)] returns.  [encodable m]
    asks it of the keys, field names and values that the encoder converts
    when it skips nothing, which is enough for [buildQueryString] to
    return. *)

Fixpoint convertible (v : value) : bool :=
  match v with
  | VNumber (NInt z) => safe_integer z
  | VArray l =>
      forallb (fun e => match e with
                        | VUndefined | VNull => true
                        | _ => convertible e
                        end) l
  | VObject o => negb (own_toString o)
  | _ => true
  end.

Definition encodes (encode : option bool) (v : value) : bool :=
  convertible v
  && match encode with
     | Some false => true
     | _ => negb (lone_surrogate (text_of v))
     end.

Definition encodable_field (opts : BuilderOptions) (queryKey : string)
  (e : string * value) : bool :=
  encodes (encodeValues opts) (VString (queryKey ++ "[" ++ fst e ++ "]"))
  && match snd e with
     | VArray vs => forallb (encodes (encodeValues opts)) vs
     | x => encodes (encodeValues opts) x
     end.

Definition encodable_entry (opts : BuilderOptions) (e : string * value) : bool :=
  match snd e with
  | VArray vs =>
      encodes (encodeValues opts) (VString (camelToSnakeCase (fst e)))
      && forallb (encodes (encodeValues opts)) vs
  | VObject nested =>
      forallb (encodable_field opts (camelToSnakeCase (fst e))) nested
  | x =>
      encodes (encodeValues opts) (VString (camelToSnakeCase (fst e)))
      && encodes (encodeValues opts) x
  end.

Definition encodable (opts : BuilderOptions) (m : object) : bool :=
  forallb (encodable_entry opts) m.

(** The errors of the conversions: [String] on an object without a callable
    [toString], [encodeURIComponent] on a lone surrogate. *)
Definition conversion_error (e : exn) : Prop := e = TypeError \/ e = URIError.

(** A model of which the encoder skips nothing and converts every key, and
    whose values [String] converts: what is left to fail is
    [encodeURIComponent]. *)
Definition is_nil {A : Type} (l : list A) : bool :=
  match l with [] => true | _ => false end.

Definition regular_values (vs : list value) : bool :=
  negb (is_nil vs) && forallb convertible vs.

Definition regular_field (opts : BuilderOptions) (e : string * value) : bool :=
  negb (shouldSkipValue (snd e) opts)
  && match snd e with
     | VArray vs => regular_values vs
     | x => convertible x
     end.

Definition regular_entry (opts : BuilderOptions) (e : string * value) : bool :=
  negb (shouldSkipValue (snd e) opts)
  && match snd e with
     | VArray vs => regular_values vs
     | VObject nested => forallb (regular_field opts) nested
     | x => convertible x
     end.

Definition regular (opts : BuilderOptions) (m : object) : bool :=
  forallb (regular_entry opts) m.

(** * Properties *)

(** ** Strings *)

Lemma prefix_append (a b : string) : prefix a (a ++ b) = true.
Proof.
  induction a as [|c a IH]; simpl.
  - now destruct b.
  - destruct (ascii_dec c c) as [_|N]; [exact IH | now elim N].
Qed.


Lemma append_assoc (a b c : string) : (a ++ b) ++ c = a ++ (b ++ c).
Proof. induction a as [|x a IH]; simpl; [reflexivity | now rewrite IH]. Qed.

Lemma append_empty_r (a : string) : a ++ "" = a.
Proof. induction a as [|x a IH]; simpl; [reflexivity | now rewrite IH]. Qed.



(** ** The encoder *)



(** ** Validation *)

Lemma check_positive_spec (stn : string -> number) (v : value) (msg : string) :
  check_positive stn v msg
  = if is_undefined v then Ok tt
    else n <- ToNumber stn v ;;
         if out_of_range n then Throw (Error msg) else Ok tt.
Proof. destruct v; reflexivity. Qed.

(** ** Entry lists *)

Lemma lookup_replace_entry (o : object) (k k' : string) (v : value) :
  lookup (replace_entry o k v) k'
  = if String.eqb k k' then
      match lookup o k with Some _ => Some v | None => None end
    else lookup o k'.
Proof.
  induction o as [|[a x] o IH]; simpl.
  - now destruct (String.eqb k k').
  - destruct (String.eqb_spec a k) as [->|Hak]; simpl.
    + now destruct (String.eqb_spec k k').
    + rewrite IH. destruct (String.eqb_spec a k') as [->|Hak'].
      * destruct (String.eqb_spec k k'); [congruence | reflexivity].
      * reflexivity.
Qed.

Lemma lookup_insert_index (i : Z) (o : object) (k k' : string) (v : value) :
  lookup o k = None ->
  lookup (insert_index i k v o) k'
  = if String.eqb k k' then Some v else lookup o k'.
Proof.
  induction o as [|[a x] o IH]; simpl; intros Hk.
  - reflexivity.
  - destruct (String.eqb_spec a k) as [->|Hak]; [discriminate|].
    destruct (array_index a) as [j|]; [destruct (i <? j)|]; simpl;
      try reflexivity.
    rewrite (IH Hk). destruct (String.eqb_spec a k') as [->|Ha]; [|reflexivity].
    destruct (String.eqb_spec k k'); [congruence | reflexivity].
Qed.

Lemma lookup_app (o1 o2 : object) (k : string) :
  lookup (o1 ++ o2) k
  = match lookup o1 k with Some v => Some v | None => lookup o2 k end.
Proof.
  induction o1 as [|[a x] o1 IH]; simpl; [reflexivity|].
  now destruct (String.eqb a k).
Qed.

Lemma lookup_obj_set (o : object) (k k' : string) (v : value) :
  lookup (obj_set o k v) k' = if String.eqb k k' then Some v else lookup o k'.
Proof.
  unfold obj_set. destruct (lookup o k) eqn:Hk.
  - rewrite lookup_replace_entry, Hk. reflexivity.
  - destruct (array_index k).
    + now apply lookup_insert_index.
    + rewrite lookup_app. simpl.
      destruct (String.eqb_spec k k') as [<-|Hkk].
      * now rewrite Hk.
      * now destruct (lookup o k').
Qed.

(** ** The loop of the decoder *)

Lemma fold_outcome_app {A B : Type} (f : A -> B -> outcome A)
  (l1 l2 : list B) (a : A) :
  fold_outcome f (l1 ++ l2) a
  = (a' <- fold_outcome f l1 a ;; fold_outcome f l2 a').
Proof.
  revert a; induction l1 as [|b l1 IH]; intros a; simpl; [reflexivity|].
  destruct (f a b); simpl; auto.
Qed.

(** ** Key shapes *)

Lemma includes_append (c : ascii) (a b : string) :
  includes c (a ++ b) = includes c a || includes c b.
Proof.
  induction a as [|d a IH]; simpl; [reflexivity|].
  now rewrite IH, orb_assoc.
Qed.

Lemma split_first_append (c : ascii) (a b : string) :
  includes c a = false ->
  split_first c (a ++ String c b) = Some (a, b).
Proof.
  induction a as [|d a IH]; simpl.
  - now rewrite Ascii.eqb_refl.
  - intros H. apply orb_false_iff in H as [Hd Ha].
    now rewrite Hd, (IH Ha).
Qed.

Lemma digits_exclude (c : ascii) (s : string) :
  is_digit c = false -> all_chars is_digit s = true -> includes c s = false.
Proof.
  intros Hc. induction s as [|d s IH]; simpl; [reflexivity|].
  intros H. apply andb_true_iff in H as [Hd Hs].
  rewrite (IH Hs), orb_false_r.
  destruct (Ascii.eqb_spec d c); [congruence | reflexivity].
Qed.

Lemma indexMatch_indexed_key (base idx : string) :
  is_empty base = false -> includes "[" base = false ->
  is_empty idx = false -> all_chars is_digit idx = true ->
  indexMatch (indexed_key base idx) = Some base.
Proof.
  intros Hb Hb' Hi Hd. unfold indexMatch, indexed_key. simpl.
  rewrite (split_first_append "[" base _ Hb').
  rewrite (split_first_append "]" idx "").
  - now rewrite Hb, Hi, Hd.
  - now apply digits_exclude.
Qed.

Lemma decode_pair_indexed (p : object) (base idx v : string) :
  is_empty base = false -> includes "[" base = false ->
  is_empty idx = false -> all_chars is_digit idx = true ->
  decode_pair p (indexed_key base idx, v) = push_at p base v.
Proof.
  intros Hb Hb' Hi Hd. unfold decode_pair.
  rewrite (indexMatch_indexed_key _ _ Hb Hb' Hi Hd).
  unfold indexed_key. rewrite !includes_append. simpl.
  now rewrite !orb_true_r.
Qed.

Lemma obj_set_single (k : string) (x v : value) :
  obj_set [(k, x)] k v = [(k, v)].
Proof. unfold obj_set. simpl. now rewrite String.eqb_refl. Qed.

Lemma obj_set_nil (k : string) (v : value) : obj_set [] k v = [(k, v)].
Proof. unfold obj_set. simpl. now destruct (array_index k). Qed.

Lemma push_at_single (k : string) (l : list value) (v : string) :
  push_at [(k, VArray l)] k v = Ok [(k, VArray (l ++ [VString v]))].
Proof.
  unfold push_at. simpl. rewrite String.eqb_refl. simpl.
  now rewrite obj_set_single.
Qed.

Lemma indexed_pairs_append (base : string) (entries : list (string * string))
  (l : list value) :
  is_empty base = false -> includes "[" base = false ->
  Forall (fun e => is_empty (fst e) = false
                   /\ all_chars is_digit (fst e) = true) entries ->
  fold_outcome decode_pair
    (map (fun e => (indexed_key base (fst e), snd e)) entries)
    [(base, VArray l)]
  = Ok [(base, VArray (l ++ map (fun e => VString (snd e)) entries))].
Proof.
  intros Hb Hb' H. revert l.
  induction H as [|[idx v] entries [Hi Hd] _ IH]; intros l;
    cbn [map fold_outcome fst snd].
  - now rewrite app_nil_r.
  - cbn [fst] in Hi, Hd.
    rewrite (decode_pair_indexed _ _ _ _ Hb Hb' Hi Hd), push_at_single.
    cbn [bind]. rewrite IH, <- app_assoc. reflexivity.
Qed.

(** ** Pairs with plain keys *)

Lemma eqb_neq (a b : string) : a <> b -> String.eqb a b = false.
Proof. intros H. now destruct (String.eqb_spec a b). Qed.

Lemma push_at_list (p : object) (k v : string) :
  inherited k = false -> list_or_absent (lookup p k) = true ->
  exists l, push_at p k v = Ok (obj_set p k (VArray l)).
Proof.
  intros Hk H. unfold push_at.
  destruct (lookup p k) as [[| | | | |l|]|]; try discriminate.
  - now exists (l ++ [VString v])%list.
  - rewrite Hk. now exists [VString v].
Qed.

Lemma decode_pair_plain (p : object) (k v : string) :
  plain_key k = true -> lists_ok p = true ->
  exists p',
    decode_pair p (k, v) = Ok p'
    /\ lists_ok p' = true
    /\ (forall k', k' <> k -> lookup p' k' = lookup p k')
    /\ (k = "page" \/ k = "limit" ->
        lookup p' k = Some (VNumber (parseInt v))).
Proof.
  intros Hplain Hok. unfold plain_key in Hplain. unfold decode_pair.
  apply negb_true_iff in Hplain. rewrite Hplain.
  unfold lists_ok in *. apply andb_true_iff in Hok as [Hs Hf].
  assert (Hset : forall x, (k = "sort" \/ k = "searchFields" -> exists l, x = VArray l) ->
            list_or_absent (lookup (obj_set p k x) "sort")
            && list_or_absent (lookup (obj_set p k x) "searchFields") = true
            /\ (forall k', k' <> k -> lookup (obj_set p k x) k' = lookup p k')
            /\ lookup (obj_set p k x) k = Some x).
  { intros x Hx. rewrite !lookup_obj_set. repeat split.
    - destruct (String.eqb_spec k "sort") as [E|_];
        destruct (String.eqb_spec k "searchFields") as [E'|_];
        try (destruct Hx as [l ->]; [tauto|]); simpl;
        rewrite ?Hs, ?Hf; reflexivity.
    - intros k' Hk'. rewrite lookup_obj_set, eqb_neq; congruence.
    - rewrite String.eqb_refl. reflexivity. }
  destruct (String.eqb_spec k "page") as [->|Hpage];
    [|destruct (String.eqb_spec k "limit") as [->|Hlimit]];
    cbn [orb].
  1,2: eexists; split; [reflexivity|];
    edestruct Hset as (H1 & H2 & H3);
      [ intros [E|E]; discriminate E
      | split; [exact H1 | split; [exact H2 | intros _; exact H3]] ].
  destruct (String.eqb_spec k "vacuum") as [->|Hvac].
  { eexists; split; [reflexivity|].
    edestruct Hset as (H1 & H2 & H3);
      [ intros [E|E]; discriminate E
      | split; [exact H1 | split; [exact H2 | intros [E|E]; discriminate E]] ]. }
  destruct (String.eqb_spec k "sort") as [->|Hsort];
    [|destruct (String.eqb_spec k "searchFields") as [->|Hsf]];
    cbn [orb].
  1: destruct (push_at_list p "sort" v eq_refl Hs) as [l ->].
  2: destruct (push_at_list p "searchFields" v eq_refl Hf) as [l ->].
  1,2: eexists; split; [reflexivity|];
    edestruct Hset as (H1 & H2 & H3);
      [ intros _; eexists; reflexivity
      | split; [exact H1 | split; [exact H2 | intros [E|E]; discriminate E]] ].
  unfold assign. destruct (String.eqb_spec k "__proto__") as [->|Hproto].
  - exists p. cbn. rewrite Hs, Hf. repeat split; try reflexivity.
    intros [E|E]; discriminate E.
  - eexists; split; [reflexivity|].
    edestruct Hset as (H1 & H2 & H3);
      [ intros [E|E]; contradiction
      | split; [exact H1 | split; [exact H2 | intros [E|E]; contradiction]] ].
Qed.

Lemma decode_plain_pairs (l : list (string * string)) (p : object) :
  forallb (fun e => plain_key (fst e)) l = true -> lists_ok p = true ->
  exists p',
    fold_outcome decode_pair l p = Ok p'
    /\ lists_ok p' = true
    /\ (forall k, forallb (fun e => negb (String.eqb (fst e) k)) l = true ->
        lookup p' k = lookup p k).
Proof.
  revert p; induction l as [|[k v] l IH]; intros p Hl Hp; cbn [fold_outcome].
  - exists p. auto.
  - cbn [forallb fst] in Hl. apply andb_true_iff in Hl as [Hk Hl].
    destruct (decode_pair_plain p k v Hk Hp) as (p1 & -> & Hp1 & Hother & _).
    cbn [bind].
    destruct (IH p1 Hl Hp1) as (p2 & -> & Hp2 & Hkeep).
    exists p2. repeat split; auto.
    intros k' Hk'. cbn [forallb fst] in Hk'.
    apply andb_true_iff in Hk' as [Hne Hrest].
    rewrite (Hkeep k' Hrest). apply Hother.
    apply negb_true_iff in Hne.
    destruct (String.eqb_spec k k'); [discriminate | congruence].
Qed.

(** ** Percent-encoding and the query-string parser *)

Lemma all_chars_append (p : ascii -> bool) (a b : string) :
  all_chars p (a ++ b) = all_chars p a && all_chars p b.
Proof.
  induction a as [|c a IH]; simpl; [reflexivity|].
  now rewrite IH, andb_assoc.
Qed.

Lemma all_chars_excludes (p : ascii -> bool) (c : ascii) (s : string) :
  p c = false -> all_chars p s = true -> includes c s = false.
Proof.
  intros Hc. induction s as [|d s IH]; simpl; [reflexivity|].
  intros H. apply andb_true_iff in H as [Hd Hs].
  rewrite (IH Hs), orb_false_r.
  destruct (Ascii.eqb_spec d c); [congruence | reflexivity].
Qed.

Lemma percent_byte_chars (c : ascii) :
  all_chars encoded_char (percent_byte c) = true.
Proof. destruct c as [[] [] [] [] [] [] [] []]; reflexivity. Qed.

Lemma percent_encode_chars (s : string) :
  all_chars encoded_char (percent_encode s) = true.
Proof.
  induction s as [|c s IH]; simpl; [reflexivity|].
  rewrite all_chars_append, IH, andb_true_r.
  destruct (is_unreserved c) eqn:Hc.
  - simpl. unfold encoded_char. now rewrite Hc.
  - apply percent_byte_chars.
Qed.

Lemma percent_encode_excludes (c : ascii) (s : string) :
  encoded_char c = false -> includes c (percent_encode s) = false.
Proof.
  intros Hc. eapply all_chars_excludes; [exact Hc|].
  apply percent_encode_chars.
Qed.

Lemma percent_decode_byte (c : ascii) (t : string) :
  percent_decode (percent_byte c ++ t) = String c (percent_decode t).
Proof. destruct c as [[] [] [] [] [] [] [] []]; reflexivity. Qed.

Lemma percent_decode_encode (s : string) :
  percent_decode (percent_encode s) = s.
Proof.
  induction s as [|c s IH]; simpl; [reflexivity|].
  destruct (is_unreserved c) eqn:Hc.
  - simpl. destruct (Ascii.eqb_spec c "%") as [->|_]; [discriminate|].
    now rewrite IH.
  - now rewrite percent_decode_byte, IH.
Qed.

Lemma replace_char_absent (a b : ascii) (s : string) :
  includes a s = false -> replace_char a b s = s.
Proof.
  induction s as [|d s IH]; simpl; [reflexivity|].
  intros H. apply orb_false_iff in H as [Hd Hs].
  now rewrite Hd, (IH Hs).
Qed.

Lemma form_decode_encode (s : string) :
  form_decode (percent_encode s) = s.
Proof.
  unfold form_decode.
  rewrite replace_char_absent by (now apply percent_encode_excludes).
  apply percent_decode_encode.
Qed.

Lemma parse_pair_token (pair : string * string) :
  parse_pair (token pair) = pair.
Proof.
  destruct pair as [k v]. unfold parse_pair, token. simpl.
  rewrite split_first_append by (now apply percent_encode_excludes).
  now rewrite !form_decode_encode.
Qed.

Lemma token_excludes (c : ascii) (pair : string * string) :
  encoded_char c = false -> Ascii.eqb "=" c = false ->
  includes c (token pair) = false.
Proof.
  intros Hc He. unfold token. rewrite !includes_append. cbn [includes].
  rewrite !percent_encode_excludes by assumption.
  now rewrite He.
Qed.

Lemma token_not_empty (pair : string * string) : is_empty (token pair) = false.
Proof.
  unfold token. destruct (percent_encode (fst pair)); reflexivity.
Qed.

Lemma split_all_absent (c : ascii) (a : string) :
  includes c a = false -> split_all c a = [a].
Proof.
  induction a as [|d a IH]; simpl; [reflexivity|].
  intros H. apply orb_false_iff in H as [Hd Ha].
  now rewrite Hd, (IH Ha).
Qed.

Lemma split_all_append (c : ascii) (a b : string) :
  includes c a = false -> split_all c (a ++ String c b) = a :: split_all c b.
Proof.
  induction a as [|d a IH]; simpl.
  - now rewrite Ascii.eqb_refl.
  - intros H. apply orb_false_iff in H as [Hd Ha].
    now rewrite Hd, (IH Ha).
Qed.

Lemma split_all_concat (c : ascii) (tokens : list string) :
  tokens <> [] ->
  Forall (fun t => includes c t = false) tokens ->
  split_all c (String.concat (String c "") tokens) = tokens.
Proof.
  intros Hne H. induction H as [|t ts Ht Hts IH]; [contradiction|].
  destruct ts as [|u ts].
  - simpl. now apply split_all_absent.
  - change (String.concat (String c "") (t :: u :: ts))
      with (t ++ String c (String.concat (String c "") (u :: ts))).
    rewrite (split_all_append c t _ Ht), IH; [reflexivity | discriminate].
Qed.

Lemma leading_question_mark (s : string) :
  includes "?" s = false ->
  match s with String "?" r => r | _ => s end = s.
Proof.
  destruct s as [|c r]; [reflexivity|]. simpl.
  intros H. apply orb_false_iff in H as [Hc _].
  destruct c as [[] [] [] [] [] [] [] []]; try reflexivity; discriminate.
Qed.

Lemma URLSearchParams_tokens (pairs : list (string * string)) :
  URLSearchParams (join_tokens (map token pairs)) = pairs.
Proof.
  unfold URLSearchParams.
  destruct pairs as [|pr pairs]; [reflexivity|].
  replace (join_tokens (map token (pr :: pairs)))
    with (String.concat "&" (map token (pr :: pairs))) by reflexivity.
  set (tokens := map token (pr :: pairs)).
  assert (Hamp : Forall (fun t => includes "&" t = false) tokens).
  { apply Forall_forall. intros t Ht. apply in_map_iff in Ht as (q & <- & _).
    now apply token_excludes. }
  assert (Hq : includes "?" (String.concat "&" tokens) = false).
  { clear Hamp. subst tokens. generalize (pr :: pairs) as l.
    induction l as [|q [|q' l] IH]; [reflexivity| |].
    - simpl. now apply token_excludes.
    - change (includes "?" (token q ++ "&" ++ String.concat "&" (map token (q' :: l))) = false).
      rewrite !includes_append, IH, token_excludes; reflexivity. }
  rewrite (leading_question_mark _ Hq).
  rewrite split_all_concat; [|discriminate | exact Hamp].
  subst tokens. generalize (pr :: pairs) as l.
  induction l as [|q l IH]; [reflexivity|].
  simpl. rewrite token_not_empty. simpl. now rewrite parse_pair_token, IH.
Qed.

(** ** Decimal numerals and [parseInt] *)

Lemma digits_value_acc (u : uint) (acc : positive) :
  digits_value (NilEmpty.string_of_uint u) (Z.pos acc)
  = Z.pos (Pos.of_uint_acc u acc).
Proof.
  revert acc; induction u; intros acc;
    cbn [NilEmpty.string_of_uint digits_value Pos.of_uint_acc];
    [reflexivity | rewrite <- IHu; f_equal ..];
    match goal with
    | |- context [Z.of_N ?n] =>
        let d := eval vm_compute in (Z.of_N n) in change (Z.of_N n) with d
    end; lia.
Qed.

Lemma digits_value_uint (u : uint) :
  digits_value (NilEmpty.string_of_uint u) 0 = Z.of_N (Pos.of_uint u).
Proof.
  induction u; cbn [NilEmpty.string_of_uint digits_value Pos.of_uint Z.of_N];
    [reflexivity | exact IHu | rewrite <- digits_value_acc; reflexivity ..].
Qed.

Lemma uint_digits (u : uint) :
  all_chars is_digit (NilEmpty.string_of_uint u) = true.
Proof. induction u; simpl; auto. Qed.

Lemma digit_prefix_all (s : string) :
  all_chars is_digit s = true -> digit_prefix s = s.
Proof.
  induction s as [|c s IH]; simpl; [reflexivity|].
  intros H. apply andb_true_iff in H as [Hc Hs].
  now rewrite Hc, (IH Hs).
Qed.

Lemma parseInt_digits (c : ascii) (r : string) :
  is_digit c = true -> all_chars is_digit r = true ->
  parseInt (String c r) = integral_double (digits_value (String c r) 0).
Proof.
  intros Hc Hr.
  assert (Hall : all_chars is_digit (String c r) = true)
    by (simpl; now rewrite Hc, Hr).
  assert (Htrim : trim_start (String c r) = String c r).
  { destruct c as [[] [] [] [] [] [] [] []]; try discriminate Hc;
      destruct r as [|d [|e r3]]; reflexivity. }
  unfold parseInt. rewrite Htrim.
  assert (Hsign : (match String c r with
                   | String "-" t => (true, t)
                   | String "+" t => (false, t)
                   | _ => (false, String c r)
                   end) = (false, String c r)).
  { destruct c as [[] [] [] [] [] [] [] []]; try discriminate Hc; reflexivity. }
  rewrite Hsign, (digit_prefix_all _ Hall). reflexivity.
Qed.

Lemma parseInt_numeral (u : uint) :
  u <> Nil ->
  parseInt (NilZero.string_of_uint u) = integral_double (Z.of_N (Pos.of_uint u)).
Proof.
  intros Hu. rewrite <- digits_value_uint.
  destruct u; [contradiction | ..];
    cbn [NilZero.string_of_uint NilEmpty.string_of_uint];
    (rewrite parseInt_digits; [reflexivity | reflexivity | apply uint_digits]).
Qed.

Lemma parseInt_toString (z : Z) :
  1 <= z <= 9007199254740991 ->
  parseInt (Number_toString (NInt z)) = NInt z.
Proof.
  intros Hz. destruct z as [|p|p]; try lia.
  unfold Number_toString. cbn [Z.to_int NilZero.string_of_int].
  rewrite parseInt_numeral by apply DecimalPos.Unsigned.to_uint_nonnil.
  rewrite DecimalPos.Unsigned.of_to. cbn [Z.of_N].
  unfold integral_double, nearest_double. cbn [Z.abs Z.sgn].
  replace (Z.pos p <? 2 ^ 1024 - 2 ^ 970) with true.
  - replace (Z.pos p <? 2 ^ 53) with true; [f_equal; lia|].
    symmetry; apply Z.ltb_lt.
    apply Z.le_lt_trans with 9007199254740991; [lia | reflexivity].
  - symmetry; apply Z.ltb_lt.
    apply Z.le_lt_trans with 9007199254740991; [lia | reflexivity].
Qed.

(** ** The encoder on the models of the round trip *)

Lemma operator_key_facts (k : string) :
  existsb (String.eqb k) multi_valued_operators = true ->
  is_empty k = false /\ includes "[" k = false /\ inherited k = false
  /\ array_index k = None /\ camelToSnakeCase k = k /\ plain_key k = true
  /\ k <> "page" /\ k <> "limit".
Proof.
  unfold multi_valued_operators. cbn [existsb]. intros H.
  repeat match type of H with
         | context [String.eqb k ?x] =>
             destruct (String.eqb_spec k x) as [E|_];
             [subst k; repeat split; (reflexivity || discriminate)
             | cbn [orb] in H]
         end.
  discriminate H.
Qed.

Lemma skip_array (vs : list value) (opts : BuilderOptions) :
  shouldSkipValue (VArray vs) opts = false.
Proof. unfold shouldSkipValue. now rewrite !andb_false_r. Qed.

Lemma array_tokens_default (k : string) (vs : list value) :
  array_tokens k vs DEFAULT_OPTIONS
  = map token (map (fun x => (k, text_of x)) vs).
Proof. unfold array_tokens. cbn. now rewrite map_map. Qed.

Lemma nested_tokens_default (k : string) (nested : object) :
  forallb field_entry_ok nested = true ->
  flat_map (nested_tokens k DEFAULT_OPTIONS) nested
  = map token (flat_map (field_pairs k) nested).
Proof.
  induction nested as [|[f v] nested IH]; [reflexivity|].
  cbn [forallb flat_map]. intros H. apply andb_true_iff in H as [He Hn].
  rewrite map_app, (IH Hn). f_equal.
  unfold field_entry_ok in He. apply andb_true_iff in He as [_ Hv].
  cbn [snd] in Hv. destruct v as [| | | | |vs|]; try discriminate.
  unfold nested_tokens, field_pairs. cbn [fst snd].
  rewrite skip_array. apply array_tokens_default.
Qed.

Lemma entry_tokens_default (e : string * value) :
  entry_ok e = true ->
  entry_tokens DEFAULT_OPTIONS e = map token (entry_pairs e).
Proof.
  destruct e as [k v]. unfold entry_ok.
  destruct (String.eqb_spec k "page") as [->|_];
    [|destruct (String.eqb_spec k "limit") as [->|_]]; cbn [orb].
  1,2: destruct v as [| | |[z| | |]| | |]; try discriminate; reflexivity.
  destruct (String.eqb_spec k "search") as [->|_].
  { destruct v as [| | | |[|c s]| |]; try discriminate; reflexivity. }
  destruct (String.eqb_spec k "vacuum") as [->|_].
  { destruct v as [| |b| | | |]; try discriminate; reflexivity. }
  destruct (String.eqb_spec k "sort") as [->|_].
  { destruct v as [| | | | |[|a r]|]; try discriminate. intros _.
    unfold entry_tokens, entry_pairs. cbn [fst snd].
    rewrite skip_array. apply array_tokens_default. }
  destruct (existsb (String.eqb k) multi_valued_operators) eqn:Hk;
    [|discriminate].
  destruct (operator_key_facts k Hk) as (_ & _ & _ & _ & Hc & _).
  destruct v as [| | | | | |[|e r]]; try discriminate.
  intros H. apply andb_true_iff in H as [H _].
  unfold entry_tokens, entry_pairs. cbn [fst snd]. rewrite Hc.
  unfold shouldSkipValue. cbn [flag skipNulls skipEmptyString DEFAULT_OPTIONS andb].
  now apply nested_tokens_default.
Qed.

Lemma object_tokens_default (m : object) :
  forallb entry_ok m = true ->
  object_tokens m DEFAULT_OPTIONS = map token (flat_map entry_pairs m).
Proof.
  unfold object_tokens.
  induction m as [|e m IH]; [reflexivity|].
  cbn [forallb flat_map]. intros H. apply andb_true_iff in H as [He Hm].
  now rewrite map_app, (IH Hm), (entry_tokens_default e He).
Qed.

(** ** The decoder on the pairs of such a model *)

#[local] Open Scope list_scope.

Lemma replace_entry_last (acc : object) (k : string) (x v : value) :
  lookup acc k = None ->
  replace_entry (acc ++ [(k, x)]) k v = acc ++ [(k, v)].
Proof.
  induction acc as [|[a y] acc IH]; simpl.
  - now rewrite String.eqb_refl.
  - destruct (String.eqb a k); [discriminate|].
    intros H. now rewrite (IH H).
Qed.

Lemma lookup_last (acc : object) (k : string) (x : value) :
  lookup acc k = None -> lookup (acc ++ [(k, x)]) k = Some x.
Proof.
  intros H. rewrite lookup_app, H. simpl. now rewrite String.eqb_refl.
Qed.

Lemma obj_set_last (acc : object) (k : string) (x v : value) :
  lookup acc k = None ->
  obj_set (acc ++ [(k, x)]) k v = acc ++ [(k, v)].
Proof.
  intros H. unfold obj_set. rewrite (lookup_last _ _ _ H).
  now apply replace_entry_last.
Qed.

Lemma obj_set_new (acc : object) (k : string) (v : value) :
  lookup acc k = None -> array_index k = None ->
  obj_set acc k v = acc ++ [(k, v)].
Proof. intros H Hi. unfold obj_set. now rewrite H, Hi. Qed.

Lemma array_index_digits (k : string) :
  all_chars is_digit k = false -> array_index k = None.
Proof.
  intros H. unfold array_index. destruct k as [|c k]; [reflexivity|].
  now rewrite H.
Qed.

Lemma strings_back (vs : list value) :
  forallb is_string vs = true -> map VString (map text_of vs) = vs.
Proof.
  induction vs as [|v vs IH]; [reflexivity|].
  cbn [forallb map]. intros H. apply andb_true_iff in H as [Hv Hvs].
  rewrite (IH Hvs). now destruct v.
Qed.

(** The pairs of a flat list, on a key of the [sort] branch. *)
Lemma push_at_last (acc : object) (k : string) (l : list value) (v : string) :
  lookup acc k = None ->
  push_at (acc ++ [(k, VArray l)]) k v
  = Ok (acc ++ [(k, VArray (l ++ [VString v]))]).
Proof.
  intros H. unfold push_at. rewrite (lookup_last _ _ _ H). cbn [truthy].
  now rewrite (obj_set_last _ _ _ _ H).
Qed.

Lemma decode_sort_pairs (acc : object) (l : list value) (strs : list string) :
  lookup acc "sort" = None ->
  fold_outcome decode_pair (map (fun s => ("sort", s)) strs)
    (acc ++ [("sort", VArray l)])
  = Ok (acc ++ [("sort", VArray (l ++ map VString strs))]).
Proof.
  intros H. revert l. induction strs as [|s strs IH]; intros l;
    cbn [map fold_outcome].
  - now rewrite app_nil_r.
  - change (decode_pair (acc ++ [("sort", VArray l)]) ("sort", s))
      with (push_at (acc ++ [("sort", VArray l)]) "sort" s).
    rewrite (push_at_last _ _ _ _ H). cbn [bind].
    rewrite IH, <- app_assoc. reflexivity.
Qed.

(** The shape of a key [base[field]]. *)
Lemma decode_pair_nested (p : object) (k f v : string) :
  is_empty k = false -> includes "[" k = false -> field_ok f = true ->
  decode_pair p (nested_key k f, v)
  = (o <- nested_object p k ;;
     o' <- collapse_at o f v ;;
     Ok (obj_set p k (VObject o'))).
Proof.
  intros Hk Hk' Hf. unfold field_ok in Hf.
  apply andb_true_iff in Hf as [Hf _].
  apply andb_true_iff in Hf as [Hf Hdig].
  apply andb_true_iff in Hf as [Hne Hbr].
  apply negb_true_iff in Hne, Hbr, Hdig.
  assert (Hshape : nestedShape (nested_key k f) = Some (k, f, "")).
  { unfold nestedShape, nested_key. cbn [append].
    rewrite (split_first_append "[" k _ Hk'), (split_first_append "]" f "" Hbr).
    now rewrite Hk, Hne. }
  assert (Hidx : indexMatch (nested_key k f) = None).
  { unfold indexMatch, nested_key. cbn [append].
    rewrite (split_first_append "[" k _ Hk'), (split_first_append "]" f "" Hbr).
    now rewrite Hk, Hne, Hdig. }
  unfold decode_pair, nestedArrayMatch, nestedObjectMatch.
  rewrite Hidx, Hshape. unfold nested_key. rewrite !includes_append.
  cbn [includes String.eqb is_empty Ascii.eqb Bool.eqb andb].
  now rewrite !orb_true_r.
Qed.

Lemma reading_nested_object (acc : object) (k : string) (o state : object) :
  lookup acc k = None -> inherited k = false -> reading acc k o state ->
  nested_object state k = Ok o.
Proof.
  intros H Hi [[-> ->]| ->]; unfold nested_object.
  - now rewrite H, Hi.
  - now rewrite (lookup_last _ _ _ H).
Qed.

Lemma reading_obj_set (acc : object) (k : string) (o state : object) (x : value) :
  lookup acc k = None -> array_index k = None -> reading acc k o state ->
  obj_set state k x = acc ++ [(k, x)].
Proof.
  intros H Hi [[-> ->]| ->].
  - now apply obj_set_new.
  - now apply obj_set_last.
Qed.

Section OperatorMap.

Variables (acc : object) (k : string).
Hypothesis Hfresh : lookup acc k = None.
Hypothesis Hk : existsb (String.eqb k) multi_valued_operators = true.

Lemma decode_field_pair (o state : object) (f v : string) :
  reading acc k o state -> field_ok f = true ->
  decode_pair state (nested_key k f, v)
  = (o' <- collapse_at o f v ;; Ok (acc ++ [(k, VObject o')])).
Proof.
  intros Hr Hf.
  destruct (operator_key_facts k Hk) as (Hne & Hbr & Hinh & Hidx & _).
  rewrite (decode_pair_nested _ _ _ _ Hne Hbr Hf).
  rewrite (reading_nested_object _ _ _ _ Hfresh Hinh Hr). cbn [bind].
  destruct (collapse_at o f v); cbn [bind]; try reflexivity.
  now rewrite (reading_obj_set _ _ _ _ _ Hfresh Hidx Hr).
Qed.

Lemma decode_field_rest (o : object) (f : string) (l : list value)
  (strs : list string) :
  lookup o f = None -> field_ok f = true ->
  fold_outcome decode_pair (map (fun s => (nested_key k f, s)) strs)
    (acc ++ [(k, VObject (o ++ [(f, VArray l)]))])
  = Ok (acc ++ [(k, VObject (o ++ [(f, VArray (l ++ map VString strs))]))]).
Proof.
  intros Ho Hf. revert l. induction strs as [|s strs IH]; intros l;
    cbn [map fold_outcome].
  - now rewrite app_nil_r.
  - rewrite (decode_field_pair (o ++ [(f, VArray l)]) _ f s
               (or_intror eq_refl) Hf).
    unfold collapse_at. rewrite (lookup_last _ _ _ Ho).
    rewrite (obj_set_last _ _ _ _ Ho). cbn [bind].
    rewrite IH, <- app_assoc. reflexivity.
Qed.

Lemma decode_field (o state : object) (e : string * value) :
  reading acc k o state -> lookup o (fst e) = None ->
  field_entry_ok e = true ->
  fold_outcome decode_pair (field_pairs k e) state
  = Ok (acc ++ [(k, VObject (o ++ [e]))]).
Proof.
  destruct e as [f v]. cbn [fst]. intros Hr Ho He.
  unfold field_entry_ok in He. cbn [fst snd] in He.
  apply andb_true_iff in He as [Hf Hv].
  destruct v as [| | | | |[|a [|b r]]|]; try discriminate.
  cbn [forallb] in Hv.
  apply andb_true_iff in Hv as [Ha Hv]. apply andb_true_iff in Hv as [Hb Hr'].
  destruct a as [| | | |sa| |]; try discriminate.
  destruct b as [| | | |sb| |]; try discriminate.
  unfold field_pairs. cbn [fst snd map fold_outcome text_of].
  assert (Hf' := Hf). unfold field_ok in Hf'.
  apply andb_true_iff in Hf' as [Hf' Hinh].
  apply andb_true_iff in Hf' as [_ Hdig].
  apply negb_true_iff in Hinh, Hdig.
  rewrite (decode_field_pair o state f sa Hr Hf).
  unfold collapse_at at 1. rewrite Ho, Hinh.
  rewrite (obj_set_new _ _ _ Ho (array_index_digits _ Hdig)). cbn [bind].
  rewrite (decode_field_pair (o ++ [(f, VString sa)]) _ f sb
             (or_intror eq_refl) Hf).
  unfold collapse_at at 1. rewrite (lookup_last _ _ _ Ho).
  rewrite (obj_set_last _ _ _ _ Ho). cbn [bind].
  rewrite <- (map_map text_of (fun s => (nested_key k f, s))).
  rewrite (decode_field_rest o f _ _ Ho Hf).
  cbn [app]. now rewrite (strings_back r Hr').
Qed.

End OperatorMap.

Lemma distinct_cons (k : string) (r : list string) :
  distinct (k :: r) = true ->
  Forall (fun k' => String.eqb k k' = false) r /\ distinct r = true.
Proof.
  cbn [distinct]. intros H. apply andb_true_iff in H as [Hk Hr].
  split; [|exact Hr]. apply negb_true_iff in Hk.
  apply Forall_forall. intros k' Hin.
  destruct (String.eqb k k') eqn:E; [|reflexivity].
  rewrite <- Hk. symmetry. apply existsb_exists. now exists k'.
Qed.

Lemma decode_fields (acc : object) (k : string) (n o state : object) :
  lookup acc k = None ->
  existsb (String.eqb k) multi_valued_operators = true ->
  reading acc k o state ->
  forallb field_entry_ok n = true -> distinct (map fst n) = true ->
  Forall (fun e => lookup o (fst e) = None) n ->
  fold_outcome decode_pair (flat_map (field_pairs k) n) state
  = Ok (match n with [] => state | _ => acc ++ [(k, VObject (o ++ n))] end).
Proof.
  intros Hfresh Hk. revert o state.
  induction n as [|e n IH]; intros o state Hr Hok Hd Ho; [reflexivity|].
  cbn [flat_map forallb map] in *.
  apply andb_true_iff in Hok as [He Hn].
  apply distinct_cons in Hd as [Hne Hd].
  inversion Ho as [|? ? Hoe Hon]; subst.
  rewrite fold_outcome_app.
  rewrite (decode_field acc k Hfresh Hk o state e Hr Hoe He). cbn [bind].
  rewrite (IH (o ++ [e]) _ (or_intror eq_refl) Hn Hd).
  - destruct n; [reflexivity|]. now rewrite <- app_assoc.
  - rewrite Forall_forall in Hon, Hne |- *. intros e' Hin.
    rewrite lookup_app, (Hon e' Hin). destruct e as [f v]. cbn [lookup fst] in *.
    rewrite (Hne (fst e')); [reflexivity|]. now apply in_map.
Qed.

Lemma decode_entry (acc : object) (e : string * value) :
  entry_ok e = true -> lookup acc (fst e) = None ->
  fold_outcome decode_pair (entry_pairs e) acc = Ok (acc ++ [e]).
Proof.
  destruct e as [k v]. unfold entry_ok. cbn [fst].
  destruct (String.eqb_spec k "page") as [->|_];
    [|destruct (String.eqb_spec k "limit") as [->|_]]; cbn [orb].
  1,2: destruct v as [| | |[z| | |]| | |]; try discriminate;
    intros Hz Hacc; unfold safe_positive in Hz;
    apply andb_true_iff in Hz as [Hlo Hhi];
    apply Z.leb_le in Hlo, Hhi;
    unfold entry_pairs; cbn [fst snd fold_outcome text_of];
    match goal with
    | |- context [decode_pair ?a (?key, ?s)] =>
        change (decode_pair a (key, s))
          with (assign a key (VNumber (parseInt s)))
    end;
    rewrite parseInt_toString by lia; unfold assign; cbn [String.eqb Ascii.eqb Bool.eqb];
    rewrite (obj_set_new _ _ _ Hacc eq_refl); reflexivity.
  destruct (String.eqb_spec k "search") as [->|_].
  { destruct v as [| | | |s| |]; try discriminate. intros _ Hacc.
    unfold entry_pairs. cbn [fst snd fold_outcome text_of].
    change (decode_pair acc ("search", s)) with (assign acc "search" (VString s)).
    unfold assign. cbn [String.eqb Ascii.eqb Bool.eqb].
    now rewrite (obj_set_new _ _ _ Hacc eq_refl). }
  destruct (String.eqb_spec k "vacuum") as [->|_].
  { destruct v as [| |b| | | |]; try discriminate. intros _ Hacc.
    unfold entry_pairs. cbn [fst snd fold_outcome].
    change (decode_pair acc ("vacuum", text_of (VBool b)))
      with (assign acc "vacuum" (VBool (String.eqb (text_of (VBool b)) "true"))).
    unfold assign. cbn [String.eqb Ascii.eqb Bool.eqb].
    rewrite (obj_set_new _ _ _ Hacc eq_refl). now destruct b. }
  destruct (String.eqb_spec k "sort") as [->|_].
  { destruct v as [| | | | |[|a r]|]; try discriminate.
    cbn [forallb]. intros H Hacc. apply andb_true_iff in H as [Ha Hr].
    destruct a as [| | | |sa| |]; try discriminate.
    unfold entry_pairs. cbn [fst snd map fold_outcome text_of].
    change (decode_pair acc ("sort", sa)) with (push_at acc "sort" sa).
    unfold push_at. rewrite Hacc. cbn [inherited existsb Object_prototype_keys
      String.eqb Ascii.eqb Bool.eqb orb].
    rewrite (obj_set_new _ _ _ Hacc eq_refl). cbn [bind].
    rewrite <- (map_map text_of (fun s => ("sort", s))).
    rewrite (decode_sort_pairs _ _ _ Hacc). cbn [app].
    now rewrite (strings_back r Hr). }
  destruct (existsb (String.eqb k) multi_valued_operators) eqn:Hk;
    [|discriminate].
  destruct v as [| | | | | |[|e r]]; try discriminate.
  intros H Hacc. apply andb_true_iff in H as [Hok Hd].
  unfold entry_pairs. cbn [fst snd].
  rewrite (decode_fields acc k (e :: r) [] acc Hacc Hk
             (or_introl (conj eq_refl eq_refl)) Hok Hd).
  - reflexivity.
  - apply Forall_forall. reflexivity.
Qed.

Lemma decode_entries (m acc : object) :
  forallb entry_ok m = true -> distinct (map fst m) = true ->
  Forall (fun e => lookup acc (fst e) = None) m ->
  fold_outcome decode_pair (flat_map entry_pairs m) acc = Ok (acc ++ m).
Proof.
  revert acc. induction m as [|e m IH]; intros acc Hok Hd Hacc.
  - cbn. now rewrite app_nil_r.
  - cbn [flat_map forallb map] in *.
    apply andb_true_iff in Hok as [He Hm].
    apply distinct_cons in Hd as [Hne Hd].
    inversion Hacc as [|? ? Hae Ham]; subst.
    rewrite fold_outcome_app, (decode_entry acc e He Hae). cbn [bind].
    rewrite (IH (acc ++ [e]) Hm Hd).
    + now rewrite <- app_assoc.
    + rewrite Forall_forall in Ham, Hne |- *. intros e' Hin.
      rewrite lookup_app, (Ham e' Hin). destruct e as [k v]. cbn [lookup fst] in *.
      rewrite (Hne (fst e')); [reflexivity|]. now apply in_map.
Qed.

Lemma validation_accepts (stn : string -> number) (p : object) :
  absent_or_positive (get p "page") = true ->
  absent_or_positive (get p "limit") = true ->
  validatePaginationParams stn p = Ok tt.
Proof.
  intros Hp Hl. unfold validatePaginationParams, check_positive.
  destruct (get p "page") as [| | | [z| | |] | | |]; try discriminate;
    destruct (get p "limit") as [| | | [y| | |] | | |]; try discriminate;
    simpl in *;
    repeat match goal with
           | H : (1 <=? ?z) = true |- _ =>
               apply Z.leb_le in H;
               replace (z <? 1) with false by (symmetry; apply Z.ltb_ge; lia)
           end; reflexivity.
Qed.

Lemma roundtrip_model_range (m : object) (k : string) :
  k = "page" \/ k = "limit" ->
  forallb entry_ok m = true -> absent_or_positive (get m k) = true.
Proof.
  intros Hk. unfold get. induction m as [|[a v] m IH]; [reflexivity|].
  cbn [forallb lookup]. intros H. apply andb_true_iff in H as [He Hm].
  destruct (String.eqb_spec a k) as [->|_]; [|exact (IH Hm)].
  unfold entry_ok in He.
  destruct Hk as [-> | ->]; simpl in He;
    destruct v as [| | |[z| | |]| | |]; try discriminate;
    unfold safe_positive in He; apply andb_true_iff in He as [Hlo _];
    exact Hlo.
Qed.

Lemma decode_encoded_model (m : object) :
  roundtrip_model m = true ->
  decode_pairs (URLSearchParams (query_text m DEFAULT_OPTIONS)) = Ok m.
Proof.
  unfold roundtrip_model. intros H. apply andb_true_iff in H as [Hok Hd].
  unfold query_text. rewrite (object_tokens_default m Hok).
  change (match map token (flat_map entry_pairs m) with
          | [] => EmptyString
          | _ :: _ => String.concat "&" (map token (flat_map entry_pairs m))
          end) with (join_tokens (map token (flat_map entry_pairs m))).
  rewrite URLSearchParams_tokens. unfold decode_pairs.
  rewrite (decode_entries m [] Hok Hd); [reflexivity|].
  apply Forall_forall. reflexivity.
Qed.

(** ** The encoder and the text of its tokens *)

#[local] Open Scope string_scope.

Lemma map_outcome_text {A B : Type} (f : A -> outcome B) (g : A -> B)
  (l : list A) (bs : list B) :
  (forall a b, In a l -> f a = Ok b -> b = g a) ->
  map_outcome f l = Ok bs -> bs = map g l.
Proof.
  revert bs. induction l as [|a l IH]; intros bs H; cbn [map_outcome map].
  - now intros [= <-].
  - destruct (f a) as [b| |] eqn:Ea; cbn [bind]; try discriminate.
    destruct (map_outcome f l) as [bs'| |] eqn:El; cbn [bind]; try discriminate.
    intros [= <-]. f_equal.
    + apply H; [now left | exact Ea].
    + apply IH; [|reflexivity]. intros a' b' Hin. apply H. now right.
Qed.

Lemma map_outcome_returns {A B : Type} (f : A -> outcome B) (g : A -> B)
  (l : list A) :
  (forall a, In a l -> f a = Ok (g a)) -> map_outcome f l = Ok (map g l).
Proof.
  induction l as [|a l IH]; intros H; cbn [map_outcome map]; [reflexivity|].
  rewrite (H a (or_introl eq_refl)). cbn [bind].
  rewrite IH by (intros a' Hin; apply H; now right). reflexivity.
Qed.

Lemma map_indexed_outcome_text {A B : Type} (f : A -> nat -> outcome B)
  (g : A -> nat -> B) (l : list A) (i : nat) (bs : list B) :
  (forall a j b, In a l -> f a j = Ok b -> b = g a j) ->
  map_indexed_outcome f i l = Ok bs -> bs = map_indexed g i l.
Proof.
  revert i bs. induction l as [|a l IH]; intros i bs H;
    cbn [map_indexed_outcome map_indexed].
  - now intros [= <-].
  - destruct (f a i) as [b| |] eqn:Ea; cbn [bind]; try discriminate.
    destruct (map_indexed_outcome f (S i) l) as [bs'| |] eqn:El; cbn [bind];
      try discriminate.
    intros [= <-]. f_equal.
    + apply H; [now left | exact Ea].
    + apply (IH (S i)); [|exact El]. intros a' j b' Hin. apply H. now right.
Qed.

Lemma map_indexed_outcome_returns {A B : Type} (f : A -> nat -> outcome B)
  (g : A -> nat -> B) (l : list A) (i : nat) :
  (forall a j, In a l -> f a j = Ok (g a j)) ->
  map_indexed_outcome f i l = Ok (map_indexed g i l).
Proof.
  revert i. induction l as [|a l IH]; intros i H;
    cbn [map_indexed_outcome map_indexed]; [reflexivity|].
  rewrite (H a i (or_introl eq_refl)). cbn [bind].
  rewrite IH by (intros a' j Hin; apply H; now right). reflexivity.
Qed.

Lemma flat_map_outcome_text {A B : Type} (f : A -> outcome (list B))
  (g : A -> list B) (l : list A) (bs : list B) :
  (forall a b, In a l -> f a = Ok b -> b = g a) ->
  flat_map_outcome f l = Ok bs -> bs = flat_map g l.
Proof.
  revert bs. induction l as [|a l IH]; intros bs H;
    cbn [flat_map_outcome flat_map].
  - now intros [= <-].
  - destruct (f a) as [b| |] eqn:Ea; cbn [bind]; try discriminate.
    destruct (flat_map_outcome f l) as [bs'| |] eqn:El; cbn [bind];
      try discriminate.
    intros [= <-]. f_equal.
    + apply H; [now left | exact Ea].
    + apply IH; [|reflexivity]. intros a' b' Hin. apply H. now right.
Qed.

Lemma flat_map_outcome_returns {A B : Type} (f : A -> outcome (list B))
  (g : A -> list B) (l : list A) :
  (forall a, In a l -> f a = Ok (g a)) ->
  flat_map_outcome f l = Ok (flat_map g l).
Proof.
  induction l as [|a l IH]; intros H; cbn [flat_map_outcome flat_map];
    [reflexivity|].
  rewrite (H a (or_introl eq_refl)). cbn [bind].
  rewrite IH by (intros a' Hin; apply H; now right). reflexivity.
Qed.

Lemma flat_map_outcome_app {A B : Type} (f : A -> outcome (list B))
  (l1 l2 : list A) :
  flat_map_outcome f (l1 ++ l2)
  = (x <- flat_map_outcome f l1 ;; y <- flat_map_outcome f l2 ;;
     Ok (x ++ y)%list).
Proof.
  induction l1 as [|a l1 IH]; simpl.
  - now destruct (flat_map_outcome f l2).
  - destruct (f a) as [b| |]; simpl; try reflexivity.
    rewrite IH. destruct (flat_map_outcome f l1) as [x| |]; simpl;
      try reflexivity.
    destruct (flat_map_outcome f l2) as [y| |]; simpl; try reflexivity.
    now rewrite app_assoc.
Qed.

Lemma value_induction (P : value -> Prop) :
  P VUndefined -> P VNull -> (forall b, P (VBool b)) ->
  (forall n, P (VNumber n)) -> (forall s, P (VString s)) ->
  (forall l, Forall P l -> P (VArray l)) ->
  (forall o, Forall (fun e => P (snd e)) o -> P (VObject o)) ->
  forall v, P v.
Proof.
  intros Hu Hn Hb Hnum Hs Ha Ho.
  refine (fix IH (v : value) : P v :=
            match v with
            | VUndefined => Hu
            | VNull => Hn
            | VBool b => Hb b
            | VNumber n => Hnum n
            | VString s => Hs s
            | VArray l =>
                Ha l ((fix go (l : list value) : Forall P l :=
                         match l with
                         | [] => Forall_nil P
                         | e :: r => Forall_cons e (IH e) (go r)
                         end) l)
            | VObject o =>
                Ho o ((fix go (o : list (string * value))
                         : Forall (fun e => P (snd e)) o :=
                         match o with
                         | [] => Forall_nil _
                         | (k, x) :: r => Forall_cons (k, x) (IH x) (go r)
                         end) o)
            end).
Qed.

Lemma ToString_text (v : value) (s : string) :
  ToString v = Ok s -> s = text_of v.
Proof.
  revert s. induction v as [| |[|]|[z|fl t| |neg]|str|l IH|o _]
    using value_induction; intros s; cbn [ToString text_of];
    try (now intros [= <-]).
  - destruct (safe_integer z); [now intros [= <-] | discriminate].
  - destruct (map_outcome _ l) as [parts| |] eqn:E; cbn [bind];
      try discriminate.
    intros [= <-]. f_equal. revert E. apply map_outcome_text.
    intros e t Hin He. rewrite Forall_forall in IH.
    destruct e; try (now injection He as <-); now apply IH.
  - destruct (own_toString o); [discriminate | now intros [= <-]].
Qed.

Lemma ToString_convertible (v : value) :
  convertible v = true -> ToString v = Ok (text_of v).
Proof.
  induction v as [| |[|]|[z|fl t| |neg]|str|l IH|o _] using value_induction;
    cbn [ToString text_of convertible]; try reflexivity.
  - now intros ->.
  - intros H. rewrite forallb_forall in H. rewrite Forall_forall in IH.
    rewrite (map_outcome_returns _
               (fun e => match e with
                         | VUndefined | VNull => EmptyString
                         | _ => text_of e
                         end)); [reflexivity|].
    intros e Hin. specialize (H e Hin). specialize (IH e Hin).
    destruct e; try reflexivity; now apply IH.
  - intros H. apply negb_true_iff in H. now rewrite H.
Qed.

Lemma map_outcome_each {A B : Type} (f : A -> outcome B) (l : list A)
  (bs : list B) :
  map_outcome f l = Ok bs -> forall a, In a l -> exists b, f a = Ok b.
Proof.
  revert bs. induction l as [|a l IH]; intros bs; cbn [map_outcome];
    [intros _ a []|].
  destruct (f a) as [b| |] eqn:Ea; cbn [bind]; try discriminate.
  destruct (map_outcome f l) as [bs'| |] eqn:El; cbn [bind]; try discriminate.
  intros _ a' [<-|Hin]; [eauto | exact (IH bs' eq_refl a' Hin)].
Qed.

Lemma ToString_returns_convertible (v : value) (s : string) :
  ToString v = Ok s -> convertible v = true.
Proof.
  revert s. induction v as [| |[|]|[z|fl t| |neg]|str|l IH|o _]
    using value_induction; intros s; cbn [ToString convertible];
    try reflexivity.
  - now destruct (safe_integer z).
  - destruct (map_outcome _ l) as [parts| |] eqn:E; cbn [bind];
      try discriminate.
    intros _. apply forallb_forall. intros e Hin.
    destruct (map_outcome_each _ _ _ E e Hin) as [t He].
    rewrite Forall_forall in IH.
    destruct e; try reflexivity; exact (IH _ Hin _ He).
  - now destruct (own_toString o).
Qed.

Lemma map_outcome_thrown {A B : Type} (f : A -> outcome B) (l : list A)
  (e : exn) :
  map_outcome f l = Throw e -> exists a, In a l /\ f a = Throw e.
Proof.
  induction l as [|a l IH]; cbn [map_outcome]; [discriminate|].
  destruct (f a) as [b| |] eqn:Ea; cbn [bind]; try discriminate.
  - destruct (map_outcome f l) as [bs| |]; cbn [bind]; try discriminate.
    intros [= <-]. destruct (IH eq_refl) as (a' & Hin & E).
    exists a'. split; [now right | exact E].
  - intros [= <-]. exists a. split; [now left | exact Ea].
Qed.

Lemma ToString_throws (v : value) (e : exn) :
  ToString v = Throw e -> e = TypeError.
Proof.
  revert e. induction v as [| |[|]|[z|fl t| |neg]|str|l IH|o _]
    using value_induction; intros x; cbn [ToString]; try discriminate.
  - destruct (safe_integer z); discriminate.
  - destruct (map_outcome _ l) as [parts| |] eqn:E; cbn [bind];
      try discriminate.
    intros [= <-]. destruct (map_outcome_thrown _ _ _ E) as (a & Hin & Ea).
    rewrite Forall_forall in IH.
    destruct a; try discriminate; exact (IH _ Hin _ Ea).
  - destruct (own_toString o); [now intros [= <-] | discriminate].
Qed.

Lemma ToNumber_thrown (stn : string -> number) (v : value) (e : exn) :
  ToNumber stn v = Throw e -> e = TypeError.
Proof.
  destruct v as [| |[|]| | |l|o]; cbn [ToNumber]; try discriminate.
  - destruct (ToString (VArray l)) as [t|x|] eqn:E; cbn [bind];
      try discriminate.
    intros [= <-]. exact (ToString_throws _ _ E).
  - destruct (own_toString o); [now intros [= <-] | discriminate].
Qed.

Section Throws.

Variable P : exn -> Prop.

Lemma map_outcome_throws {A B : Type} (f : A -> outcome B) (l : list A)
  (e : exn) :
  (forall a x, f a = Throw x -> P x) -> map_outcome f l = Throw e -> P e.
Proof.
  intros H. induction l as [|a l IH]; cbn [map_outcome]; [discriminate|].
  destruct (f a) as [b| |] eqn:Ea; cbn [bind]; try discriminate.
  - destruct (map_outcome f l) as [bs| |]; cbn [bind]; try discriminate.
    intros [= <-]. now apply IH.
  - intros [= <-]. exact (H _ _ Ea).
Qed.

Lemma map_indexed_outcome_throws {A B : Type} (f : A -> nat -> outcome B)
  (l : list A) (i : nat) (e : exn) :
  (forall a j x, f a j = Throw x -> P x) ->
  map_indexed_outcome f i l = Throw e -> P e.
Proof.
  intros H. revert i. induction l as [|a l IH]; intros i;
    cbn [map_indexed_outcome]; [discriminate|].
  destruct (f a i) as [b| |] eqn:Ea; cbn [bind]; try discriminate.
  - destruct (map_indexed_outcome f (S i) l) as [bs| |] eqn:El; cbn [bind];
      try discriminate.
    intros [= <-]. exact (IH _ El).
  - intros [= <-]. exact (H _ _ _ Ea).
Qed.

Lemma flat_map_outcome_throws {A B : Type} (f : A -> outcome (list B))
  (l : list A) (e : exn) :
  (forall a x, f a = Throw x -> P x) -> flat_map_outcome f l = Throw e -> P e.
Proof.
  intros H. induction l as [|a l IH]; cbn [flat_map_outcome]; [discriminate|].
  destruct (f a) as [b| |] eqn:Ea; cbn [bind]; try discriminate.
  - destruct (flat_map_outcome f l) as [bs| |]; cbn [bind]; try discriminate.
    intros [= <-]. now apply IH.
  - intros [= <-]. exact (H _ _ Ea).
Qed.

End Throws.

Lemma encodeURIComponent_text (s t : string) :
  encodeURIComponent s = Ok t -> t = percent_encode s.
Proof.
  unfold encodeURIComponent. destruct (lone_surrogate s); [discriminate|].
  now intros [= <-].
Qed.

Lemma encodeValue_text (v : value) (encode : option bool) (s : string) :
  encodeValue v encode = Ok s -> s = encoded_text v encode.
Proof.
  unfold encodeValue, encoded_text.
  destruct (ToString v) as [t| |] eqn:E; cbn [bind]; try discriminate.
  apply ToString_text in E. subst t.
  destruct encode as [[|]|]; try apply encodeURIComponent_text.
  now intros [= <-].
Qed.

Lemma encodeValue_returns (v : value) (encode : option bool) :
  encodes encode v = true ->
  encodeValue v encode = Ok (encoded_text v encode).
Proof.
  unfold encodes, encodeValue, encoded_text, encodeURIComponent.
  intros H. apply andb_true_iff in H as [Hc Hs].
  rewrite (ToString_convertible v Hc). cbn [bind].
  destruct encode as [[|]|]; try reflexivity;
    apply negb_true_iff in Hs; now rewrite Hs.
Qed.

Lemma encodeValue_encodes (v : value) (encode : option bool) (s : string) :
  encodeValue v encode = Ok s -> encodes encode v = true.
Proof.
  unfold encodes, encodeValue, encodeURIComponent.
  destruct (ToString v) as [t| |] eqn:E; cbn [bind]; try discriminate.
  rewrite (ToString_returns_convertible v t E).
  apply ToString_text in E. subst t.
  destruct encode as [[|]|]; try reflexivity;
    now destruct (lone_surrogate (text_of v)).
Qed.

Lemma encodeValue_throws (v : value) (encode : option bool) (e : exn) :
  encodeValue v encode = Throw e -> conversion_error e.
Proof.
  unfold encodeValue, encodeURIComponent, conversion_error.
  destruct (ToString v) as [t| |] eqn:E; cbn [bind]; try discriminate.
  - destruct encode as [[|]|]; try discriminate;
      (destruct (lone_surrogate t); [intros [= <-]; now right | discriminate]).
  - intros [= <-]. left. exact (ToString_throws v _ E).
Qed.

Lemma formatArrayValue_text (key : string) (values : list value)
  (opts : BuilderOptions) (ts : list string) :
  formatArrayValue key values opts = Ok ts -> ts = array_tokens key values opts.
Proof.
  unfold formatArrayValue, array_tokens.
  assert (Htoken : forall (lit : string) v (t : string),
             (k <- encodeValue (VString key) (encodeValues opts) ;;
              e <- encodeValue v (encodeValues opts) ;; Ok (k ++ lit ++ e)) = Ok t ->
             t = encoded_text (VString key) (encodeValues opts) ++ lit
                 ++ encoded_text v (encodeValues opts)).
  { intros lit v t.
    destruct (encodeValue (VString key) _) as [k| |] eqn:Ek; cbn [bind];
      try discriminate.
    destruct (encodeValue v _) as [e| |] eqn:Ee; cbn [bind]; try discriminate.
    intros [= <-].
    now rewrite (encodeValue_text _ _ _ Ek), (encodeValue_text _ _ _ Ee). }
  assert (Hjoined : forall sep,
             (joinedValues <- map_outcome
                                (fun v => encodeValue v (encodeValues opts)) values ;;
              k <- encodeValue (VString key) (encodeValues opts) ;;
              Ok [k ++ "=" ++ String.concat sep joinedValues]) = Ok ts ->
             ts = [encoded_text (VString key) (encodeValues opts) ++ "="
                   ++ String.concat sep
                        (map (fun v => encoded_text v (encodeValues opts)) values)]).
  { intros sep.
    destruct (map_outcome _ values) as [joined| |] eqn:Ej; cbn [bind];
      try discriminate.
    destruct (encodeValue (VString key) _) as [k| |] eqn:Ek; cbn [bind];
      try discriminate.
    intros [= <-]. rewrite (encodeValue_text _ _ _ Ek).
    assert (joined = map (fun v => encoded_text v (encodeValues opts)) values)
      as -> by (revert Ej; apply map_outcome_text; intros a b _;
                apply encodeValue_text).
    reflexivity. }
  destruct (arrayFormat opts) as [[| | | |]|];
    try apply Hjoined;
    try (apply map_outcome_text; intros a b _; apply Htoken).
  apply map_indexed_outcome_text. intros a j b _.
  destruct (encodeValue (VString key) _) as [k| |] eqn:Ek; cbn [bind];
    try discriminate.
  destruct (encodeValue a _) as [e| |] eqn:Ee; cbn [bind]; try discriminate.
  intros [= <-].
  now rewrite (encodeValue_text _ _ _ Ek), (encodeValue_text _ _ _ Ee).
Qed.

Lemma formatArrayValue_returns (key : string) (values : list value)
  (opts : BuilderOptions) :
  encodes (encodeValues opts) (VString key) = true ->
  forallb (encodes (encodeValues opts)) values = true ->
  formatArrayValue key values opts = Ok (array_tokens key values opts).
Proof.
  intros Hk Hv. rewrite forallb_forall in Hv.
  unfold formatArrayValue, array_tokens.
  pose proof (encodeValue_returns _ _ Hk) as Ek.
  assert (Htoken : forall (lit : string) v, In v values ->
             (k <- encodeValue (VString key) (encodeValues opts) ;;
              e <- encodeValue v (encodeValues opts) ;; Ok (k ++ lit ++ e))
             = Ok (encoded_text (VString key) (encodeValues opts) ++ lit
                   ++ encoded_text v (encodeValues opts))).
  { intros lit v Hin. rewrite Ek. cbn [bind].
    now rewrite (encodeValue_returns _ _ (Hv v Hin)). }
  assert (Hjoined :
            map_outcome (fun v => encodeValue v (encodeValues opts)) values
            = Ok (map (fun v => encoded_text v (encodeValues opts)) values)).
  { apply map_outcome_returns. intros v Hin.
    exact (encodeValue_returns _ _ (Hv v Hin)). }
  destruct (arrayFormat opts) as [[| | | |]|];
    try (rewrite Hjoined; cbn [bind]; rewrite Ek; reflexivity);
    try (apply map_outcome_returns; intros v Hin; now apply Htoken).
  apply map_indexed_outcome_returns. intros v j Hin. rewrite Ek. cbn [bind].
  now rewrite (encodeValue_returns _ _ (Hv v Hin)).
Qed.

Lemma formatArrayValue_throws (key : string) (values : list value)
  (opts : BuilderOptions) (e : exn) :
  formatArrayValue key values opts = Throw e -> conversion_error e.
Proof.
  unfold formatArrayValue.
  assert (Htoken : forall (lit : string) v x,
             (k <- encodeValue (VString key) (encodeValues opts) ;;
              e <- encodeValue v (encodeValues opts) ;; Ok (k ++ lit ++ e))
             = Throw x -> conversion_error x).
  { intros lit v x.
    destruct (encodeValue (VString key) _) as [k| |] eqn:Ek; cbn [bind];
      try discriminate.
    - destruct (encodeValue v _) as [t| |] eqn:Ee; cbn [bind];
        try discriminate.
      intros [= <-]. exact (encodeValue_throws _ _ _ Ee).
    - intros [= <-]. exact (encodeValue_throws _ _ _ Ek). }
  assert (Hjoined : forall sep,
             (joinedValues <- map_outcome
                                (fun v => encodeValue v (encodeValues opts)) values ;;
              k <- encodeValue (VString key) (encodeValues opts) ;;
              Ok [k ++ "=" ++ String.concat sep joinedValues]) = Throw e ->
             conversion_error e).
  { intros sep.
    destruct (map_outcome _ values) as [joined| |] eqn:Ej; cbn [bind];
      try discriminate.
    - destruct (encodeValue (VString key) _) as [k| |] eqn:Ek; cbn [bind];
        try discriminate.
      intros [= <-]. exact (encodeValue_throws _ _ _ Ek).
    - intros [= <-]. revert Ej. apply map_outcome_throws.
      intros a x. apply encodeValue_throws. }
  destruct (arrayFormat opts) as [[| | | |]|];
    try apply Hjoined;
    try (apply map_outcome_throws; intros a x; apply Htoken).
  apply map_indexed_outcome_throws. intros a j x.
  destruct (encodeValue (VString key) _) as [k| |] eqn:Ek; cbn [bind];
    try discriminate.
  - destruct (encodeValue a _) as [t| |] eqn:Ee; cbn [bind]; try discriminate.
    intros [= <-]. exact (encodeValue_throws _ _ _ Ee).
  - intros [= <-]. exact (encodeValue_throws _ _ _ Ek).
Qed.

Lemma scalar_token_text (key : string) (v : value) (encode : option bool)
  (ts : list string) :
  (k <- encodeValue (VString key) encode ;;
   e <- encodeValue v encode ;; Ok [k ++ "=" ++ e]) = Ok ts ->
  ts = [encoded_text (VString key) encode ++ "=" ++ encoded_text v encode].
Proof.
  destruct (encodeValue (VString key) _) as [k| |] eqn:Ek; cbn [bind];
    try discriminate.
  destruct (encodeValue v _) as [e| |] eqn:Ee; cbn [bind]; try discriminate.
  intros [= <-].
  now rewrite (encodeValue_text _ _ _ Ek), (encodeValue_text _ _ _ Ee).
Qed.

Lemma scalar_token_returns (key : string) (v : value) (encode : option bool) :
  encodes encode (VString key) = true -> encodes encode v = true ->
  (k <- encodeValue (VString key) encode ;;
   e <- encodeValue v encode ;; Ok [k ++ "=" ++ e])
  = Ok [encoded_text (VString key) encode ++ "=" ++ encoded_text v encode].
Proof.
  intros Hk Hv.
  now rewrite (encodeValue_returns _ _ Hk), (encodeValue_returns _ _ Hv).
Qed.

Lemma scalar_token_throws (key : string) (v : value) (encode : option bool)
  (x : exn) :
  (k <- encodeValue (VString key) encode ;;
   e <- encodeValue v encode ;; Ok [k ++ "=" ++ e]) = Throw x ->
  conversion_error x.
Proof.
  destruct (encodeValue (VString key) _) as [k| |] eqn:Ek; cbn [bind];
    try discriminate.
  - destruct (encodeValue v _) as [t| |] eqn:Ee; cbn [bind]; try discriminate.
    intros [= <-]. exact (encodeValue_throws _ _ _ Ee).
  - intros [= <-]. exact (encodeValue_throws _ _ _ Ek).
Qed.

Lemma nestedParams_text (queryKey : string) (opts : BuilderOptions)
  (entry : string * value) (ts : list string) :
  nestedParams queryKey opts entry = Ok ts ->
  ts = nested_tokens queryKey opts entry.
Proof.
  destruct entry as [f x]. unfold nestedParams, nested_tokens.
  destruct (shouldSkipValue x opts); [now intros [= <-]|].
  destruct x; try apply scalar_token_text. apply formatArrayValue_text.
Qed.

Lemma nestedParams_returns (queryKey : string) (opts : BuilderOptions)
  (entry : string * value) :
  encodable_field opts queryKey entry = true ->
  nestedParams queryKey opts entry = Ok (nested_tokens queryKey opts entry).
Proof.
  destruct entry as [f x]. unfold encodable_field, nestedParams, nested_tokens.
  cbn [fst snd]. intros H. apply andb_true_iff in H as [Hk Hx].
  destruct (shouldSkipValue x opts); [reflexivity|].
  destruct x; try (now apply scalar_token_returns).
  now apply formatArrayValue_returns.
Qed.

Lemma nestedParams_throws (queryKey : string) (opts : BuilderOptions)
  (entry : string * value) (e : exn) :
  nestedParams queryKey opts entry = Throw e -> conversion_error e.
Proof.
  destruct entry as [f x]. unfold nestedParams.
  destruct (shouldSkipValue x opts); [discriminate|].
  destruct x; try apply scalar_token_throws. apply formatArrayValue_throws.
Qed.

Lemma entryParams_text (opts : BuilderOptions) (entry : string * value)
  (ts : list string) :
  entryParams opts entry = Ok ts -> ts = entry_tokens opts entry.
Proof.
  destruct entry as [k v]. unfold entryParams, entry_tokens.
  destruct (shouldSkipValue v opts); [now intros [= <-]|].
  destruct v as [| | | | |[|a vs]|nested]; try apply scalar_token_text.
  - now intros [= <-].
  - apply formatArrayValue_text.
  - apply flat_map_outcome_text. intros a b _. apply nestedParams_text.
Qed.

Lemma entryParams_returns (opts : BuilderOptions) (entry : string * value) :
  encodable_entry opts entry = true ->
  entryParams opts entry = Ok (entry_tokens opts entry).
Proof.
  destruct entry as [k v]. unfold encodable_entry, entryParams, entry_tokens.
  cbn [fst snd]. intros H.
  destruct (shouldSkipValue v opts); [reflexivity|].
  destruct v as [| | | | |[|a vs]|nested];
    try (apply andb_true_iff in H as [Hk Hv]; now apply scalar_token_returns).
  - reflexivity.
  - apply andb_true_iff in H as [Hk Hv]. now apply formatArrayValue_returns.
  - apply flat_map_outcome_returns. intros e Hin.
    apply nestedParams_returns. rewrite forallb_forall in H. now apply H.
Qed.

Lemma entryParams_throws (opts : BuilderOptions) (entry : string * value)
  (e : exn) :
  entryParams opts entry = Throw e -> conversion_error e.
Proof.
  destruct entry as [k v]. unfold entryParams.
  destruct (shouldSkipValue v opts); [discriminate|].
  destruct v as [| | | | |[|a vs]|nested]; try apply scalar_token_throws.
  - discriminate.
  - apply formatArrayValue_throws.
  - apply flat_map_outcome_throws. intros a x. apply nestedParams_throws.
Qed.

Lemma objectToQueryParams_text (m : object) (opts : BuilderOptions)
  (ts : list string) :
  objectToQueryParams m opts = Ok ts -> ts = object_tokens m opts.
Proof.
  apply flat_map_outcome_text. intros a b _. apply entryParams_text.
Qed.

Lemma buildQueryString_text (m : object) (opts : BuilderOptions)
  (queryString : string) :
  buildQueryString m opts = Ok queryString -> queryString = query_text m opts.
Proof.
  unfold buildQueryString, query_text.
  destruct (objectToQueryParams m opts) as [ts| |] eqn:E; cbn [bind];
    try discriminate.
  intros [= <-]. now rewrite (objectToQueryParams_text m opts ts E).
Qed.

Lemma buildQueryString_returns (m : object) (opts : BuilderOptions) :
  encodable opts m = true ->
  buildQueryString m opts = Ok (query_text m opts).
Proof.
  intros H. unfold buildQueryString, query_text, objectToQueryParams.
  rewrite (flat_map_outcome_returns _ (entry_tokens opts)); [reflexivity|].
  intros e Hin. apply entryParams_returns.
  unfold encodable in H. rewrite forallb_forall in H. now apply H.
Qed.

Lemma buildQueryString_throws (m : object) (opts : BuilderOptions) (e : exn) :
  buildQueryString m opts = Throw e -> conversion_error e.
Proof.
  unfold buildQueryString, objectToQueryParams.
  destruct (flat_map_outcome (entryParams opts) m) as [ts| |] eqn:E;
    cbn [bind]; try discriminate.
  intros [= <-]. revert E. apply flat_map_outcome_throws.
  intros a x. apply entryParams_throws.
Qed.

(** ** The encoder on the models it skips nothing of *)

Lemma encodeValue_regular (v : value) (encode : option bool) :
  convertible v = true ->
  encodeValue v encode
  = if encodes encode v then Ok (encoded_text v encode) else Throw URIError.
Proof.
  intros H. unfold encodeValue, encodes, encoded_text, encodeURIComponent.
  rewrite (ToString_convertible v H), H. cbn [bind andb].
  destruct encode as [[|]|]; try reflexivity;
    now destruct (lone_surrogate (text_of v)).
Qed.

Lemma pair_regular {A : Type} (h : string -> string -> A) (key : string)
  (v : value) (encode : option bool) :
  convertible v = true ->
  (k <- encodeValue (VString key) encode ;;
   e <- encodeValue v encode ;; Ok (h k e))
  = if encodes encode (VString key) && encodes encode v
    then Ok (h (encoded_text (VString key) encode) (encoded_text v encode))
    else Throw URIError.
Proof.
  intros H. rewrite (encodeValue_regular (VString key) encode eq_refl).
  rewrite (encodeValue_regular v encode H).
  destruct (encodes encode (VString key)); cbn [bind andb]; [|reflexivity].
  now destruct (encodes encode v).
Qed.

Lemma map_outcome_regular {A B : Type} (f : A -> outcome B) (c : A -> bool)
  (g : A -> B) (l : list A) :
  (forall a, In a l -> f a = if c a then Ok (g a) else Throw URIError) ->
  map_outcome f l = if forallb c l then Ok (map g l) else Throw URIError.
Proof.
  induction l as [|a l IH]; intros H; cbn [map_outcome forallb map];
    [reflexivity|].
  rewrite (H a (or_introl eq_refl)).
  destruct (c a); cbn [bind andb]; [|reflexivity].
  rewrite IH by (intros a' Hin; apply H; now right).
  now destruct (forallb c l).
Qed.

Lemma map_indexed_outcome_regular {A B : Type} (f : A -> nat -> outcome B)
  (c : A -> bool) (g : A -> nat -> B) (l : list A) (i : nat) :
  (forall a j, In a l -> f a j = if c a then Ok (g a j) else Throw URIError) ->
  map_indexed_outcome f i l
  = if forallb c l then Ok (map_indexed g i l) else Throw URIError.
Proof.
  revert i. induction l as [|a l IH]; intros i H;
    cbn [map_indexed_outcome forallb map_indexed]; [reflexivity|].
  rewrite (H a i (or_introl eq_refl)).
  destruct (c a); cbn [bind andb]; [|reflexivity].
  rewrite IH by (intros a' j Hin; apply H; now right).
  now destruct (forallb c l).
Qed.

Lemma flat_map_outcome_regular {A B : Type} (f : A -> outcome (list B))
  (c : A -> bool) (g : A -> list B) (l : list A) :
  (forall a, In a l -> f a = if c a then Ok (g a) else Throw URIError) ->
  flat_map_outcome f l
  = if forallb c l then Ok (flat_map g l) else Throw URIError.
Proof.
  induction l as [|a l IH]; intros H; cbn [flat_map_outcome forallb flat_map];
    [reflexivity|].
  rewrite (H a (or_introl eq_refl)).
  destruct (c a); cbn [bind andb]; [|reflexivity].
  rewrite IH by (intros a' Hin; apply H; now right).
  now destruct (forallb c l).
Qed.

Lemma forallb_with {A : Type} (b : bool) (c : A -> bool) (l : list A) :
  l <> [] -> forallb (fun a => b && c a) l = b && forallb c l.
Proof.
  intros Hl. destruct b; cbn [andb].
  - induction l as [|a l IH]; [reflexivity|]. cbn [forallb andb].
    destruct l as [|a' l]; [reflexivity|]. now rewrite IH.
  - destruct l as [|a l]; [contradiction | reflexivity].
Qed.

Lemma regular_values_facts (vs : list value) :
  regular_values vs = true ->
  vs <> [] /\ forall v, In v vs -> convertible v = true.
Proof.
  unfold regular_values. intros H. apply andb_true_iff in H as [Hn Hc].
  split; [now destruct vs | now apply forallb_forall].
Qed.

Lemma formatArrayValue_regular (key : string) (vs : list value)
  (opts : BuilderOptions) :
  regular_values vs = true ->
  formatArrayValue key vs opts
  = if encodes (encodeValues opts) (VString key)
       && forallb (encodes (encodeValues opts)) vs
    then Ok (array_tokens key vs opts) else Throw URIError.
Proof.
  intros H. destruct (regular_values_facts vs H) as [Hne Hc].
  unfold formatArrayValue, array_tokens.
  rewrite <- (forallb_with _ _ vs Hne).
  assert (Hjoined :
            map_outcome (fun v => encodeValue v (encodeValues opts)) vs
            = if forallb (encodes (encodeValues opts)) vs
              then Ok (map (fun v => encoded_text v (encodeValues opts)) vs)
              else Throw URIError).
  { apply map_outcome_regular. intros v Hin.
    apply encodeValue_regular. now apply Hc. }
  assert (Hsep : forall sep : string,
             (joinedValues <- map_outcome
                                (fun v => encodeValue v (encodeValues opts)) vs ;;
              k <- encodeValue (VString key) (encodeValues opts) ;;
              Ok [k ++ "=" ++ String.concat sep joinedValues])
             = if forallb (fun v => encodes (encodeValues opts) (VString key)
                                    && encodes (encodeValues opts) v) vs
               then Ok [encoded_text (VString key) (encodeValues opts) ++ "="
                        ++ String.concat sep
                             (map (fun v => encoded_text v (encodeValues opts)) vs)]
               else Throw URIError).
  { intros sep. rewrite Hjoined, (forallb_with _ _ vs Hne).
    rewrite (encodeValue_regular (VString key) _ eq_refl).
    destruct (forallb (encodes (encodeValues opts)) vs); cbn [bind];
      now destruct (encodes (encodeValues opts) (VString key)). }
  destruct (arrayFormat opts) as [[| | | |]|];
    try apply Hsep;
    try (apply map_outcome_regular; intros v Hin;
         apply (pair_regular (fun k e => k ++ _ ++ e)); now apply Hc).
  apply map_indexed_outcome_regular. intros v j Hin.
  apply (pair_regular (fun k e => k ++ "[" ++ nat_to_string j ++ "]=" ++ e)).
  now apply Hc.
Qed.

Lemma nestedParams_regular (queryKey : string) (opts : BuilderOptions)
  (entry : string * value) :
  regular_field opts entry = true ->
  nestedParams queryKey opts entry
  = if encodable_field opts queryKey entry
    then Ok (nested_tokens queryKey opts entry) else Throw URIError.
Proof.
  destruct entry as [f x].
  unfold regular_field, nestedParams, nested_tokens, encodable_field.
  cbn [fst snd]. intros H. apply andb_true_iff in H as [Hs Hx].
  apply negb_true_iff in Hs. rewrite Hs.
  destruct x; try (apply (pair_regular (fun k e => [k ++ "=" ++ e])); exact Hx).
  now apply formatArrayValue_regular.
Qed.

Lemma entryParams_regular (opts : BuilderOptions) (entry : string * value) :
  regular_entry opts entry = true ->
  entryParams opts entry
  = if encodable_entry opts entry
    then Ok (entry_tokens opts entry) else Throw URIError.
Proof.
  destruct entry as [k v].
  unfold regular_entry, entryParams, entry_tokens, encodable_entry.
  cbn [fst snd]. intros H. apply andb_true_iff in H as [Hs Hv].
  apply negb_true_iff in Hs. rewrite Hs.
  destruct v as [| | | | |vs|nested];
    try (apply (pair_regular (fun k e => [k ++ "=" ++ e])); exact Hv).
  - destruct vs as [|a vs]; [discriminate Hv|].
    exact (formatArrayValue_regular _ (a :: vs) opts Hv).
  - apply flat_map_outcome_regular. intros e Hin.
    apply nestedParams_regular. rewrite forallb_forall in Hv. now apply Hv.
Qed.

Lemma buildQueryString_regular (m : object) (opts : BuilderOptions) :
  regular opts m = true ->
  buildQueryString m opts
  = if encodable opts m then Ok (query_text m opts) else Throw URIError.
Proof.
  intros H. unfold buildQueryString, query_text, objectToQueryParams, encodable.
  rewrite (flat_map_outcome_regular _ (encodable_entry opts) (entry_tokens opts)).
  - now destruct (forallb (encodable_entry opts) m).
  - intros e Hin. apply entryParams_regular.
    unfold regular in H. rewrite forallb_forall in H. now apply H.
Qed.

(** ** Indexed pairs on any model *)

Lemma replace_entry_twice (o : object) (k : string) (v v' : value) :
  replace_entry (replace_entry o k v) k v' = replace_entry o k v'.
Proof.
  induction o as [|[a x] o IH]; [reflexivity|]. cbn [replace_entry].
  destruct (String.eqb a k) eqn:E; cbn [replace_entry]; rewrite E;
    [reflexivity | now rewrite IH].
Qed.

Lemma replace_entry_insert_index (i : Z) (o : object) (k : string)
  (v v' : value) :
  lookup o k = None ->
  replace_entry (insert_index i k v o) k v' = insert_index i k v' o.
Proof.
  induction o as [|[a x] o IH]; cbn [lookup insert_index].
  - intros _. cbn [replace_entry]. now rewrite String.eqb_refl.
  - destruct (String.eqb a k) eqn:E; [discriminate|]. intros Hk.
    destruct (array_index a) as [j|]; [destruct (i <? j)%Z|];
      cbn [replace_entry]; rewrite ?String.eqb_refl, ?E; try reflexivity.
    now rewrite (IH Hk).
Qed.

Lemma obj_set_twice (o : object) (k : string) (v v' : value) :
  obj_set (obj_set o k v) k v' = obj_set o k v'.
Proof.
  unfold obj_set at 1. rewrite lookup_obj_set, String.eqb_refl.
  unfold obj_set. destruct (lookup o k) eqn:Hk.
  - apply replace_entry_twice.
  - destruct (array_index k).
    + now apply replace_entry_insert_index.
    + now apply replace_entry_last.
Qed.

Lemma indexed_pairs_after (base : string) (entries : list (string * string))
  (q : object) (l : list value) :
  is_empty base = false -> includes "[" base = false ->
  Forall (fun e => is_empty (fst e) = false
                   /\ all_chars is_digit (fst e) = true) entries ->
  fold_outcome decode_pair
    (map (fun e => (indexed_key base (fst e), snd e)) entries)
    (obj_set q base (VArray l))
  = Ok (obj_set q base (VArray (l ++ map (fun e => VString (snd e)) entries))).
Proof.
  intros Hb Hb' H. revert l.
  induction H as [|[idx v] entries [Hi Hd] _ IH]; intros l;
    cbn [map fold_outcome fst snd].
  - now rewrite app_nil_r.
  - cbn [fst] in Hi, Hd.
    rewrite (decode_pair_indexed _ _ _ _ Hb Hb' Hi Hd). unfold push_at.
    rewrite lookup_obj_set, String.eqb_refl. cbn [truthy bind].
    rewrite obj_set_twice, IH, <- app_assoc. reflexivity.
Qed.

Lemma indexed_pairs_from (base : string) (entries : list (string * string))
  (p : object) (l : list value) :
  is_empty base = false -> includes "[" base = false ->
  Forall (fun e => is_empty (fst e) = false
                   /\ all_chars is_digit (fst e) = true) entries ->
  entries <> [] ->
  lookup p base = Some (VArray l)
  \/ (l = [] /\ lookup p base = None /\ inherited base = false) ->
  fold_outcome decode_pair
    (map (fun e => (indexed_key base (fst e), snd e)) entries) p
  = Ok (obj_set p base (VArray (l ++ map (fun e => VString (snd e)) entries))).
Proof.
  intros Hb Hb' H Hne Hp. destruct entries as [|[idx v] entries];
    [contradiction|].
  inversion H as [|? ? [Hi Hd] Hrest]; subst. cbn [fst] in Hi, Hd.
  cbn [map fold_outcome fst snd].
  rewrite (decode_pair_indexed _ _ _ _ Hb Hb' Hi Hd).
  assert (E : push_at p base v = Ok (obj_set p base (VArray (l ++ [VString v])))).
  { unfold push_at. destruct Hp as [Hl | (-> & Hl & Hinh)]; rewrite Hl.
    - reflexivity.
    - now rewrite Hinh. }
  rewrite E. cbn [bind].
  rewrite (indexed_pairs_after base entries p _ Hb Hb' Hrest), <- app_assoc.
  reflexivity.
Qed.

(** ** Pairs with plain keys keep [page] and [limit] numbers *)

Lemma plain_pairs_number (l : list (string * string)) (k : string) :
  k = "page" \/ k = "limit" ->
  forall p p',
    forallb (fun e => plain_key (fst e)) l = true -> lists_ok p = true ->
    lookup p k = None \/ (exists n, lookup p k = Some (VNumber n)) ->
    fold_outcome decode_pair l p = Ok p' ->
    lookup p' k = None \/ (exists n, lookup p' k = Some (VNumber n)).
Proof.
  intros Hk. induction l as [|[a v] l IH]; intros p p' Hl Hp Hn;
    cbn [fold_outcome].
  - now intros [= <-].
  - cbn [forallb fst] in Hl. apply andb_true_iff in Hl as [Ha Hl].
    destruct (decode_pair_plain p a v Ha Hp) as (p1 & -> & Hp1 & Hother & Hnum).
    cbn [bind]. apply (IH p1 p' Hl Hp1).
    destruct (String.eqb_spec a k) as [->|Hne].
    + right. eexists. exact (Hnum Hk).
    + rewrite (Hother k) by congruence. exact Hn.
Qed.

(** ** The models of the round trips are regular *)

Lemma strings_convertible (vs : list value) :
  forallb is_string vs = true -> forallb convertible vs = true.
Proof.
  induction vs as [|v vs IH]; [reflexivity|]. cbn [forallb].
  intros H. apply andb_true_iff in H as [Hv Hvs]. rewrite (IH Hvs).
  now destruct v.
Qed.

Lemma skip_object (o : object) (opts : BuilderOptions) :
  shouldSkipValue (VObject o) opts = false.
Proof. unfold shouldSkipValue. now rewrite !andb_false_r. Qed.

Lemma safe_positive_integer (z : Z) :
  safe_positive z = true -> safe_integer z = true.
Proof.
  unfold safe_positive, safe_integer. intros H.
  apply andb_true_iff in H as [Hlo Hhi].
  apply Z.leb_le in Hlo, Hhi. apply Z.leb_le. lia.
Qed.

Lemma scalar_regular (opts : BuilderOptions) (k : string) (v : value) :
  match v with
  | VNumber (NInt z) => safe_positive z
  | VString s => negb (is_empty s)
  | VBool _ => true
  | _ => false
  end = true ->
  regular_entry opts (k, v) = true.
Proof.
  unfold regular_entry, shouldSkipValue. cbn [fst snd].
  destruct v as [| | |[z| | |]|[|c s]| |]; try discriminate;
    rewrite ?andb_false_r; cbn [negb andb convertible]; try reflexivity.
  apply safe_positive_integer.
Qed.

Lemma sequence_regular (vs : list value) :
  vs <> [] -> forallb is_string vs = true -> regular_values vs = true.
Proof.
  intros Hne Hs. unfold regular_values. rewrite (strings_convertible vs Hs).
  now destruct vs.
Qed.

Lemma roundtrip_model_regular (m : object) (opts : BuilderOptions) :
  forallb entry_ok m = true -> regular opts m = true.
Proof.
  unfold regular. induction m as [|[k v] m IH]; [reflexivity|].
  cbn [forallb]. intros H. apply andb_true_iff in H as [He Hm].
  rewrite (IH Hm), andb_true_r. clear IH Hm. unfold entry_ok in He.
  destruct (String.eqb k "page" || String.eqb k "limit");
    [apply scalar_regular; now destruct v as [| | |[]| | |]|].
  destruct (String.eqb k "search");
    [apply scalar_regular; now destruct v|].
  destruct (String.eqb k "vacuum");
    [apply scalar_regular; now destruct v|].
  unfold regular_entry. cbn [fst snd].
  destruct (String.eqb k "sort").
  - destruct v as [| | | | |[|a r]|]; try discriminate.
    rewrite skip_array. now rewrite sequence_regular.
  - destruct (existsb (String.eqb k) multi_valued_operators); [|discriminate].
    destruct v as [| | | | | |[|e r]]; try discriminate.
    rewrite skip_object. cbn [negb andb].
    apply andb_true_iff in He as [He _].
    apply forallb_forall. intros fe Hin.
    rewrite forallb_forall in He. specialize (He fe Hin).
    unfold field_entry_ok in He. apply andb_true_iff in He as [_ He].
    unfold regular_field. destruct (snd fe) as [| | | | |[|a [|b l]]|];
      try discriminate.
    rewrite skip_array. now rewrite sequence_regular.
Qed.

(** * The claims of the specification *)

#[local] Open Scope string_scope.

(** C1 (as amended): a model made of [page] and [limit] (safe integers of
    at least 1), [search] (a non-empty string), [vacuum] (a boolean),
    [sort] (a non-empty sequence of strings) and multi-valued operator maps
    ([likeor], [likeand], [eqor], [eqand], [in], [notin], [between]; each a
    non-empty mapping from field names to sequences of at least two
    strings), is encoded under the default options to a query string that
    decodes to the same model; when a field name or a string of the model
    holds a lone surrogate, which [encodeURIComponent] refuses, the encoder
    throws its [URIError] instead. *)
Theorem C1_roundtrip_default (stn : string -> number) (m : object) :
  roundtrip_model m = true ->
  if encodable DEFAULT_OPTIONS m then
    exists queryString,
      toQueryString stn m no_options = Ok queryString
      /\ fromQueryString stn queryString = Ok m
  else toQueryString stn m no_options = Throw URIError.
Proof.
  intros H.
  assert (Hok : forallb entry_ok m = true)
    by (unfold roundtrip_model in H; now apply andb_true_iff in H as [Hok _]).
  assert (Hv : validatePaginationParams stn m = Ok tt)
    by (apply validation_accepts; apply roundtrip_model_range; auto).
  unfold toQueryString. rewrite Hv. cbn [bind].
  change (merge_options DEFAULT_OPTIONS no_options) with DEFAULT_OPTIONS.
  rewrite (buildQueryString_regular m DEFAULT_OPTIONS
             (roundtrip_model_regular m DEFAULT_OPTIONS Hok)).
  destruct (encodable DEFAULT_OPTIONS m); [|reflexivity].
  exists (query_text m DEFAULT_OPTIONS). split; [reflexivity|].
  unfold fromQueryString, fromPairs.
  fold (decode_pairs (URLSearchParams (query_text m DEFAULT_OPTIONS))).
  rewrite (decode_encoded_model m H). cbn [bind]. now rewrite Hv.
Qed.

Lemma C1_witness :
  exists queryString,
    toQueryString decimal_StringToNumber
      [("page", VNumber (NInt 2)); ("limit", VNumber (NInt 25));
       ("search", VString "john smith");
       ("sort", VArray [VString "name"; VString "-created_at"]);
       ("likeor", VObject [("status", VArray [VString "active"; VString "pending"]);
                           ("type", VArray [VString "user"; VString "admin"])]);
       ("vacuum", VBool true)] no_options = Ok queryString
    /\ fromQueryString decimal_StringToNumber queryString
       = Ok [("page", VNumber (NInt 2)); ("limit", VNumber (NInt 25));
             ("search", VString "john smith");
             ("sort", VArray [VString "name"; VString "-created_at"]);
             ("likeor", VObject [("status", VArray [VString "active"; VString "pending"]);
                                 ("type", VArray [VString "user"; VString "admin"])]);
             ("vacuum", VBool true)].
Proof.
  exact (C1_roundtrip_default decimal_StringToNumber
           [("page", VNumber (NInt 2)); ("limit", VNumber (NInt 25));
            ("search", VString "john smith");
            ("sort", VArray [VString "name"; VString "-created_at"]);
            ("likeor", VObject [("status", VArray [VString "active"; VString "pending"]);
                                ("type", VArray [VString "user"; VString "admin"])]);
            ("vacuum", VBool true)] eq_refl).
Defined.

(** C1 (as stated) fails inside the shapes it names: a nested sequence of
    one element comes back as a scalar, and a flat sequence under a key
    other than [sort] comes back as its last element. *)
Lemma C1_counterexample :
  toQueryString decimal_StringToNumber
    [("likeor", VObject [("status", VArray [VString "active"])])] no_options
  = Ok "likeor%5Bstatus%5D=active"
  /\ fromQueryString decimal_StringToNumber "likeor%5Bstatus%5D=active"
     = Ok [("likeor", VObject [("status", VString "active")])]
  /\ fromQueryString decimal_StringToNumber "likeor%5Bstatus%5D=active"
     <> Ok [("likeor", VObject [("status", VArray [VString "active"])])]
  /\ toQueryString decimal_StringToNumber
       [("isnull", VArray [VString "a"; VString "b"])] no_options
     = Ok "isnull=a&isnull=b"
  /\ fromQueryString decimal_StringToNumber "isnull=a&isnull=b"
     = Ok [("isnull", VString "b")].
Proof.
  split; [reflexivity|]. split; [reflexivity|]. split; [discriminate|].
  split; reflexivity.
Qed.

(** The rename of [searchFields] is not undone by the decoder, which
    looks for the key [searchFields]: the sequence comes back as the last
    element under [search_fields]. *)
Example searchFields_not_restored :
  toQueryString decimal_StringToNumber
    [("searchFields", VArray [VString "name"; VString "email"])] no_options
  = Ok "search_fields=name&search_fields=email"
  /\ fromQueryString decimal_StringToNumber "search_fields=name&search_fields=email"
     = Ok [("search_fields", VString "email")].
Proof. split; reflexivity. Qed.

(** C2 (as amended): a pair [base[idx]=value] never places its value at
    [idx].  It appends the value to the sequence [model[base]], creates
    that sequence when the model has nothing (or something falsy) under
    [base], and throws a [TypeError] when the model holds anything else
    there.  For whatever pairs come first, a run of such pairs for one base
    leaves the values in the order they arrive behind the ones the model
    already had; a query string made of such pairs decodes to the values in
    arrival order, as [sort[0]=name&sort[1]=-created_at] does. *)
Theorem C2_indexed_pairs_in_arrival_order (stn : string -> number)
  (queryString base : string) (before entries : list (string * string)) :
  is_empty base = false -> includes "[" base = false ->
  (forall p idx v,
      is_empty idx = false -> all_chars is_digit idx = true ->
      (forall l, lookup p base = Some (VArray l) ->
         decode_pair p (indexed_key base idx, v)
         = Ok (obj_set p base (VArray (l ++ [VString v]))))
      /\ (lookup p base = None -> inherited base = false ->
          decode_pair p (indexed_key base idx, v)
          = Ok (obj_set p base (VArray [VString v])))
      /\ (forall x, lookup p base = Some x -> truthy x = false ->
          decode_pair p (indexed_key base idx, v)
          = Ok (obj_set p base (VArray [VString v])))
      /\ (forall x, lookup p base = Some x -> truthy x = true ->
          (forall l, x <> VArray l) ->
          decode_pair p (indexed_key base idx, v) = Throw TypeError))
  /\ (forall p0 l,
        entries <> [] ->
        Forall (fun e => is_empty (fst e) = false
                         /\ all_chars is_digit (fst e) = true) entries ->
        URLSearchParams queryString
        = (before ++ map (fun e => (indexed_key base (fst e), snd e)) entries)%list ->
        decode_pairs before = Ok p0 ->
        lookup p0 base = Some (VArray l)
        \/ (l = [] /\ lookup p0 base = None /\ inherited base = false) ->
        fromQueryString stn queryString
        = (let p := obj_set p0 base
                      (VArray (l ++ map (fun e => VString (snd e)) entries)) in
           _ <- validatePaginationParams stn p ;; Ok p))
  /\ (inherited base = false -> base <> "page" -> base <> "limit" ->
      entries <> [] ->
      Forall (fun e => is_empty (fst e) = false
                       /\ all_chars is_digit (fst e) = true) entries ->
      URLSearchParams queryString
      = map (fun e => (indexed_key base (fst e), snd e)) entries ->
      fromQueryString stn queryString
      = Ok [(base, VArray (map (fun e => VString (snd e)) entries))])
  /\ fromQueryString stn "sort[0]=name&sort[1]=-created_at"
     = Ok [("sort", VArray [VString "name"; VString "-created_at"])].
Proof.
  intros Hb Hb'. split; [|split; [|split; [|reflexivity]]].
  { intros p idx v Hi Hd.
    rewrite (decode_pair_indexed _ _ _ _ Hb Hb' Hi Hd). unfold push_at.
    split; [|split; [|split]].
    - intros l Hl. now rewrite Hl.
    - intros Hl Hinh. now rewrite Hl, Hinh.
    - intros x Hl Hx. now rewrite Hl, Hx.
    - intros x Hl Hx Hna. rewrite Hl, Hx.
      destruct x; try reflexivity. now destruct (Hna elems). }
  { intros p0 l Hne H Hq Hp0 Hl.
    unfold fromQueryString, fromPairs, decode_pairs. rewrite Hq.
    rewrite fold_outcome_app. unfold decode_pairs in Hp0. rewrite Hp0.
    cbn [bind].
    now rewrite (indexed_pairs_from base entries p0 l Hb Hb' H Hne Hl). }
  intros Hinh Hpage Hlimit Hne H Hq.
  unfold fromQueryString, fromPairs, decode_pairs. rewrite Hq.
  rewrite (indexed_pairs_from base entries [] [] Hb Hb' H Hne)
    by (right; auto).
  cbn [bind app]. rewrite obj_set_nil.
  unfold validatePaginationParams, get, lookup.
  destruct (String.eqb_spec base "page"); [contradiction|].
  destruct (String.eqb_spec base "limit"); [contradiction|].
  reflexivity.
Qed.

Lemma C2_witness :
  fromQueryString decimal_StringToNumber "page=1&sort[1]=b&sort[0]=a"
  = Ok [("page", VNumber (NInt 1)); ("sort", VArray [VString "b"; VString "a"])].
Proof.
  apply (proj1 (proj2 (C2_indexed_pairs_in_arrival_order decimal_StringToNumber
                         "page=1&sort[1]=b&sort[0]=a" "sort" [("page", "1")]
                         [("1", "b"); ("0", "a")] eq_refl eq_refl))
           [("page", VNumber (NInt 1))] []);
    try reflexivity; try discriminate.
  - repeat constructor.
  - right. repeat split.
Defined.

(** C2 (as stated) fails: [sort[1]=b&sort[0]=a] decodes to [["b", "a"]],
    the arrival order, not to [["a", "b"]], the index order. *)
Lemma C2_counterexample :
  fromQueryString decimal_StringToNumber "sort[1]=b&sort[0]=a"
  = Ok [("sort", VArray [VString "b"; VString "a"])]
  /\ fromQueryString decimal_StringToNumber "sort[1]=b&sort[0]=a"
     <> Ok [("sort", VArray [VString "a"; VString "b"])].
Proof. split; [reflexivity | discriminate]. Qed.

(** C3 (as amended): validation works on [Number(value)].  A present
    [page] whose number is not an integer or is below 1 raises the error
    "Page must be a positive integer"; a present [limit] in that case
    raises "Limit must be a positive integer" when [page] is absent or
    passes; when [Number] itself throws, on an object with an own
    [toString] property, validation ends in that [TypeError]; a [page] or
    [limit] of number type is accepted only when it is an integer of at
    least 1.  [{page: -1}] raises the first error, [{limit: 0}] the
    second. *)
Theorem C3_validation_errors (stn : string -> number) (p : object) :
  (forall n, get p "page" <> VUndefined ->
     ToNumber stn (get p "page") = Ok n -> out_of_range n = true ->
     validatePaginationParams stn p
     = Throw (Error "Page must be a positive integer"))
  /\ (forall n, get p "limit" <> VUndefined ->
        ToNumber stn (get p "limit") = Ok n -> out_of_range n = true ->
        get p "page" = VUndefined
        \/ (exists n', ToNumber stn (get p "page") = Ok n'
                       /\ out_of_range n' = false) ->
        validatePaginationParams stn p
        = Throw (Error "Limit must be a positive integer"))
  /\ (forall e, get p "page" <> VUndefined ->
        ToNumber stn (get p "page") = Throw e ->
        e = TypeError /\ validatePaginationParams stn p = Throw TypeError)
  /\ (forall e, get p "limit" <> VUndefined ->
        ToNumber stn (get p "limit") = Throw e ->
        get p "page" = VUndefined
        \/ (exists n', ToNumber stn (get p "page") = Ok n'
                       /\ out_of_range n' = false) ->
        e = TypeError /\ validatePaginationParams stn p = Throw TypeError)
  /\ (validatePaginationParams stn p = Ok tt ->
      forall k n, k = "page" \/ k = "limit" -> get p k = VNumber n ->
      exists z, n = NInt z /\ 1 <= z)
  /\ validatePaginationParams stn [("page", VNumber (NInt (-1)))]
     = Throw (Error "Page must be a positive integer")
  /\ validatePaginationParams stn [("limit", VNumber (NInt 0))]
     = Throw (Error "Limit must be a positive integer")
  /\ validatePaginationParams stn
       [("page", VObject [("toString", VNumber (NInt 1))])]
     = Throw TypeError.
Proof.
  pose proof (ToNumber_thrown stn) as Hthrow.
  assert (Hpass : get p "page" = VUndefined
                  \/ (exists n', ToNumber stn (get p "page") = Ok n'
                                 /\ out_of_range n' = false) ->
                  check_positive stn (get p "page")
                    "Page must be a positive integer" = Ok tt).
  { rewrite check_positive_spec. intros [->|(n' & -> & Hn')]; [reflexivity|].
    cbn [bind]. rewrite Hn'. now destruct (is_undefined (get p "page")). }
  unfold validatePaginationParams.
  split; [|split; [|split; [|split; [|split; [|repeat split]]]]].
  - intros n Hp Hn Hr. rewrite check_positive_spec, Hn. cbn [bind].
    rewrite Hr. now destruct (get p "page").
  - intros n Hl Hn Hr Hp. rewrite (Hpass Hp). cbn [bind].
    rewrite check_positive_spec, Hn. cbn [bind].
    rewrite Hr. now destruct (get p "limit").
  - intros e Hp He. pose proof (Hthrow _ _ He) as ->. split; [reflexivity|].
    rewrite check_positive_spec, He. now destruct (get p "page").
  - intros e Hl He Hp. pose proof (Hthrow _ _ He) as ->. split; [reflexivity|].
    rewrite (Hpass Hp). cbn [bind].
    rewrite check_positive_spec, He. now destruct (get p "limit").
  - intros Hv k n Hk Hn.
    assert (Hn' : out_of_range n = false).
    { destruct Hk as [-> | ->].
      - rewrite check_positive_spec, Hn in Hv. cbn [is_undefined ToNumber bind] in Hv.
        destruct (out_of_range n); [discriminate | reflexivity].
      - destruct (check_positive stn (get p "page") _) as [[]| |];
          try discriminate. cbn [bind] in Hv.
        rewrite check_positive_spec, Hn in Hv.
        cbn [is_undefined ToNumber bind] in Hv.
        destruct (out_of_range n); [discriminate | reflexivity]. }
    unfold out_of_range in Hn'.
    destruct n as [z| | |]; simpl in Hn'; try discriminate.
    exists z. split; [reflexivity|].
    destruct (Z.ltb_spec z 1); [discriminate | lia].
Qed.

Lemma C3_witness :
  validatePaginationParams decimal_StringToNumber
    [("page", VNumber (NFrac 1 "1.5")); ("limit", VNumber (NInt 10))]
  = Throw (Error "Page must be a positive integer").
Proof.
  apply (proj1 (C3_validation_errors decimal_StringToNumber
                  [("page", VNumber (NFrac 1 "1.5")); ("limit", VNumber (NInt 10))])
           (NFrac 1 "1.5")).
  - discriminate.
  - reflexivity.
  - reflexivity.
Defined.

(** C3 (as stated) fails: with [page] and [limit] both out of range the
    error names the page only, and a boolean [page] is converted by
    [Number] and accepted. *)
Lemma C3_counterexample :
  validatePaginationParams decimal_StringToNumber
    [("page", VNumber (NInt (-1))); ("limit", VNumber (NInt 0))]
  = Throw (Error "Page must be a positive integer")
  /\ validatePaginationParams decimal_StringToNumber [("page", VBool true)]
     = Ok tt.
Proof. split; reflexivity. Qed.

(** C4 (as amended): a pair keyed [page] or [limit] stores
    [parseInt(value, 10)], and a later pair with the same key replaces it.
    In a query string whose keys have no brackets, when the last such pair
    has a value without a leading integer ([parseInt] gives [NaN]) the
    decoder returns no model: validation raises the ordinary error "Page
    must be a positive integer" (for [limit], that error or "Limit must be
    a positive integer").  A value with a numeric prefix is accepted:
    [12abc] is parsed as 12. *)
Theorem C4_page_and_limit_parsed (stn : string -> number) (queryString : string)
  (before after : list (string * string)) (key v : string) :
  key = "page" \/ key = "limit" ->
  URLSearchParams queryString = (before ++ (key, v) :: after)%list ->
  forallb (fun e => plain_key (fst e)) (before ++ after) = true ->
  forallb (fun e => negb (String.eqb (fst e) key)) after = true ->
  (exists p, decode_pairs (URLSearchParams queryString) = Ok p
             /\ get p key = VNumber (parseInt v))
  /\ (parseInt v = NNaN ->
      fromQueryString stn queryString
      = Throw (Error "Page must be a positive integer")
      \/ key = "limit"
         /\ fromQueryString stn queryString
            = Throw (Error "Limit must be a positive integer"))
  /\ parseInt "abc" = NNaN
  /\ parseInt "12abc" = NInt 12.
Proof.
  intros Hkey Hq Hplain Hlast.
  rewrite forallb_app in Hplain. apply andb_true_iff in Hplain as [Hb Ha].
  assert (Hkplain : plain_key key = true) by (destruct Hkey; subst; reflexivity).
  destruct (decode_plain_pairs before [] Hb eq_refl) as (p1 & E1 & Hp1 & _).
  destruct (decode_pair_plain p1 key v Hkplain Hp1) as (p2 & E2 & Hp2 & _ & Hv).
  destruct (decode_plain_pairs after p2 Ha Hp2) as (p3 & E3 & _ & Hkeep).
  assert (Hloop : decode_pairs (URLSearchParams queryString) = Ok p3).
  { unfold decode_pairs. rewrite Hq, fold_outcome_app, E1.
    cbn [bind fold_outcome]. rewrite E2. cbn [bind]. exact E3. }
  assert (Hget : get p3 key = VNumber (parseInt v)).
  { unfold get. now rewrite (Hkeep key Hlast), (Hv Hkey). }
  split; [exists p3; auto|]. split; [|split; reflexivity].
  intros Hnan. unfold fromQueryString, fromPairs. rewrite Hloop.
  cbn [bind]. unfold validatePaginationParams. rewrite !check_positive_spec.
  destruct Hkey as [->| ->]; rewrite Hget, Hnan in *.
  - left. reflexivity.
  - cbn [is_undefined ToNumber out_of_range Number_isInteger negb orb bind].
    assert (Hpage : lookup p3 "page" = None
                    \/ exists n, lookup p3 "page" = Some (VNumber n)).
    { apply (plain_pairs_number (URLSearchParams queryString) "page"
               (or_introl eq_refl) [] p3); auto.
      rewrite Hq, forallb_app. cbn [forallb fst]. now rewrite Hb, Ha. }
    unfold get. destruct Hpage as [-> | [n ->]]; cbn [is_undefined bind];
      [auto|].
    cbn [ToNumber bind]. destruct (out_of_range n); cbn [bind]; auto.
Qed.

Lemma C4_witness :
  fromQueryString decimal_StringToNumber "limit=5&page=abc&search=x"
  = Throw (Error "Page must be a positive integer")
  \/ "page" = "limit"
     /\ fromQueryString decimal_StringToNumber "limit=5&page=abc&search=x"
        = Throw (Error "Limit must be a positive integer").
Proof.
  apply (proj1 (proj2 (C4_page_and_limit_parsed decimal_StringToNumber
                         "limit=5&page=abc&search=x"
                         [("limit", "5")] [("search", "x")] "page" "abc"
                         (or_introl eq_refl) eq_refl eq_refl eq_refl))).
  reflexivity.
Defined.

(** C4 (as stated) fails: a non-numeric [page] followed by a numeric one
    decodes to a model, a value that only starts with digits is accepted,
    and the failure is an ordinary error, not a type error. *)
Lemma C4_counterexample :
  fromQueryString decimal_StringToNumber "page=abc&page=3"
  = Ok [("page", VNumber (NInt 3))]
  /\ fromQueryString decimal_StringToNumber "page=12abc"
     = Ok [("page", VNumber (NInt 12))]
  /\ fromQueryString decimal_StringToNumber "page=abc" <> Throw TypeError.
Proof. split; [reflexivity | split; [reflexivity | discriminate]]. Qed.



(** C6: for a key [k] and a sequence [v0 .. vn], the [repeat] format emits
    the tokens [k=v0], ..., [k=vn] in element order, and the [comma] format
    emits the single token [k=v0,...,vn], joined by a comma whatever
    [arraySeparator] is; a conversion that throws ends the call.  A
    non-empty top-level sequence is encoded by this rule, and
    [{sort: ["name", "age"]}] under [comma] gives [sort=name,age]. *)
Theorem C6_repeat_and_comma (stn : string -> number) (k : string)
  (vs : list value) (opts : BuilderOptions) :
  let enc v := encodeValue v (encodeValues opts) in
  let text v := encoded_text v (encodeValues opts) in
  (arrayFormat opts = Some repeat ->
   formatArrayValue k vs opts
   = map_outcome (fun v => ek <- enc (VString k) ;; ev <- enc v ;;
                           Ok (ek ++ "=" ++ ev)) vs
   /\ forall ts, formatArrayValue k vs opts = Ok ts ->
                 ts = map (fun v => text (VString k) ++ "=" ++ text v) vs)
  /\ (arrayFormat opts = Some comma ->
      formatArrayValue k vs opts
      = (joined <- map_outcome enc vs ;; ek <- enc (VString k) ;;
         Ok [ek ++ "=" ++ String.concat "," joined])
      /\ forall ts, formatArrayValue k vs opts = Ok ts ->
                    ts = [text (VString k) ++ "=" ++ String.concat "," (map text vs)])
  /\ (vs <> [] ->
      objectToQueryParams [(k, VArray vs)] opts
      = formatArrayValue (camelToSnakeCase k) vs opts)
  /\ toQueryString stn [("sort", VArray [VString "name"; VString "age"])]
       {| encodeValues := None; arrayFormat := Some comma;
          arraySeparator := None; skipNulls := None; skipEmptyString := None |}
     = Ok "sort=name,age".
Proof.
  intros enc text. split; [|split; [|split; [|reflexivity]]].
  - intros Hf. split; [unfold formatArrayValue; now rewrite Hf|].
    intros ts Hts. rewrite (formatArrayValue_text _ _ _ _ Hts).
    unfold array_tokens. now rewrite Hf.
  - intros Hf. split; [unfold formatArrayValue; now rewrite Hf|].
    intros ts Hts. rewrite (formatArrayValue_text _ _ _ _ Hts).
    unfold array_tokens. now rewrite Hf.
  - intros Hvs. unfold objectToQueryParams, entryParams.
    cbn [flat_map_outcome]. rewrite skip_array.
    destruct vs as [|a vs]; [contradiction|].
    destruct (formatArrayValue (camelToSnakeCase k) (a :: vs) opts);
      cbn [bind]; try reflexivity.
    now rewrite app_nil_r.
Qed.

Lemma C6_witness :
  formatArrayValue "sort" [VString "name"; VString "-created_at"] DEFAULT_OPTIONS
  = Ok ["sort=name"; "sort=-created_at"].
Proof.
  rewrite (proj1 (proj1 (C6_repeat_and_comma decimal_StringToNumber "sort"
                           [VString "name"; VString "-created_at"]
                           DEFAULT_OPTIONS) eq_refl)).
  reflexivity.
Defined.

(** C7 (what the code does): [filter] throws "Unsupported filter operator"
    for [likeor], [likeand], [eqor], [eqand] and [between], although they
    are members of [FilterOperator]. *)
Theorem C7_filter_rejects_recognized_operators :
  Forall (fun operator =>
            In operator FilterOperator
            /\ forall field v b,
                filter field operator v b
                = Throw (Error ("Unsupported filter operator: " ++ operator)))
         ["likeor"; "likeand"; "eqor"; "eqand"; "between"].
Proof.
  repeat constructor; simpl; tauto.
Qed.

(** The ten operators the switch of [filter] knows are staged, here on a
    builder without parameters. *)
Example filter_stages_known_operators :
  let fresh := {| params := []; options := DEFAULT_OPTIONS; baseUrl := "" |} in
  let staged p := Ok (with_params fresh p) in
  filter "age" "gte" (VNumber (NInt 18)) fresh
  = staged [("gte", VObject [("age", VNumber (NInt 18))])]
  /\ filter "dept" "in" (VArray [VNumber (NInt 1); VNumber (NInt 2)]) fresh
     = staged [("in", VObject [("dept", VArray [VNumber (NInt 1); VNumber (NInt 2)])])]
  /\ filter "email" "isnotnull" VUndefined fresh
     = staged [("isnotnull", VArray [VString "email"])]
  /\ Forall (fun operator => exists b, filter "f" operator (VString "x") fresh = Ok b)
       ["like"; "eq"; "gte"; "gt"; "lte"; "lt"; "in"; "notin"; "isnull";
        "isnotnull"].
Proof.
  repeat split. repeat constructor; eexists; reflexivity.
Qed.

(** C8 (as amended): when [page] and [limit] are each absent or an integer
    of at least 1, validation passes and what is left to fail is the
    conversion of the values.  [toQueryString] returns the query string, for
    every configuration, when [String] converts every value (no object with
    an own [toString] property where a value is written, integers within
    the safe range) and, where values are percent-encoded, no key, field
    name or string holds a lone surrogate; it never returns anything else;
    and what it throws is a [TypeError] or a [URIError]. *)
Theorem C8_toQueryString_returns (stn : string -> number) (p : object)
  (opts : BuilderOptions) :
  absent_or_positive (get p "page") = true ->
  absent_or_positive (get p "limit") = true ->
  (encodable (merge_options DEFAULT_OPTIONS opts) p = true ->
   toQueryString stn p opts
   = Ok (query_text p (merge_options DEFAULT_OPTIONS opts)))
  /\ (forall queryString,
        toQueryString stn p opts = Ok queryString ->
        queryString = query_text p (merge_options DEFAULT_OPTIONS opts))
  /\ (forall e, toQueryString stn p opts = Throw e ->
                e = TypeError \/ e = URIError).
Proof.
  intros Hp Hl. unfold toQueryString.
  rewrite (validation_accepts stn p Hp Hl). cbn [bind].
  split; [apply buildQueryString_returns|].
  split; [apply buildQueryString_text | apply buildQueryString_throws].
Qed.

Lemma C8_witness :
  toQueryString decimal_StringToNumber
    [("page", VNumber (NInt 1)); ("limit", VNumber (NInt 10))] no_options
  = Ok "page=1&limit=10".
Proof.
  apply (proj1 (C8_toQueryString_returns decimal_StringToNumber
                  [("page", VNumber (NInt 1)); ("limit", VNumber (NInt 10))]
                  no_options eq_refl eq_refl)).
  reflexivity.
Defined.

(** C8 (as stated) fails: with a valid [page], a field holding an object
    with an own [toString] property makes [String] throw a [TypeError], and
    a string holding a lone surrogate (here the bytes [ED A0 80]) makes
    [encodeURIComponent] throw a [URIError]. *)
Lemma C8_counterexample :
  absent_or_positive
    (get [("page", VNumber (NInt 1));
          ("eq", VObject [("f", VObject [("toString", VString "x")])])] "page")
  = true
  /\ absent_or_positive
       (get [("page", VNumber (NInt 1));
             ("eq", VObject [("f", VObject [("toString", VString "x")])])] "limit")
     = true
  /\ toQueryString decimal_StringToNumber
       [("page", VNumber (NInt 1));
        ("eq", VObject [("f", VObject [("toString", VString "x")])])] no_options
     = Throw TypeError
  /\ toQueryString decimal_StringToNumber
       [("page", VNumber (NInt 1));
        ("search",
         VString (String (ascii_of_N 237)
                    (String (ascii_of_N 160)
                       (String (ascii_of_N 128) EmptyString))))] no_options
     = Throw URIError.
Proof. repeat split. Qed.

(** C9: a pair whose key holds both brackets and has none of the four
    recognized shapes leaves the model as it is and raises nothing; the
    decoder returns what it returns for the other pairs alone.  [a[b][c]]
    is such a key. *)
Theorem C9_unmatched_brackets_dropped (stn : string -> number)
  (queryString rest : string) (before after : list (string * string))
  (key v : string) :
  no_pattern key = true ->
  URLSearchParams queryString = (before ++ (key, v) :: after)%list ->
  URLSearchParams rest = (before ++ after)%list ->
  (forall p, decode_pair p (key, v) = Ok p)
  /\ fromQueryString stn queryString = fromQueryString stn rest
  /\ no_pattern "a[b][c]" = true.
Proof.
  intros Hk Hq Hr.
  assert (Hstep : forall p, decode_pair p (key, v) = Ok p).
  { intros p. unfold no_pattern in Hk. unfold decode_pair.
    destruct (includes "[" key && includes "]" key); [|discriminate].
    simpl in Hk.
    destruct (indexMatch key); [discriminate|].
    destruct (nestedArrayMatch key); [discriminate|].
    destruct (nestedObjectMatch key); [discriminate|].
    now destruct (endsWith key "[]"). }
  repeat split; [exact Hstep|].
  unfold fromQueryString, fromPairs, decode_pairs. rewrite Hq, Hr.
  rewrite !fold_outcome_app.
  destruct (fold_outcome decode_pair before []) as [p| |];
    cbn [bind fold_outcome]; [|reflexivity..].
  now rewrite Hstep.
Qed.

Lemma C9_witness :
  fromQueryString decimal_StringToNumber "page=2&a[b][c]=v&sort=name"
  = fromQueryString decimal_StringToNumber "page=2&sort=name".
Proof.
  apply (C9_unmatched_brackets_dropped decimal_StringToNumber
           "page=2&a[b][c]=v&sort=name" "page=2&sort=name"
           [("page", "2")] [("sort", "name")] "a[b][c]" "v");
    reflexivity.
Defined.

(** C10: in every model, a top-level key holding an empty sequence
    contributes no token under any array format; a field of an operator
    map holding an empty sequence contributes no token under [repeat],
    [brackets] and [indices] (and when the format is absent), and under
    [comma] and [separator] it contributes, at its place, the one token
    made of the composite key and an empty value. *)
Theorem C10_empty_sequences (opts : BuilderOptions) (k f : string)
  (before after fields_before fields_after : object) :
  let with_field :=
    (before ++ (k, VObject (fields_before ++ (f, VArray []) :: fields_after))
            :: after)%list in
  let without_field :=
    (before ++ (k, VObject (fields_before ++ fields_after)) :: after)%list in
  objectToQueryParams (before ++ (k, VArray []) :: after)%list opts
  = objectToQueryParams (before ++ after)%list opts
  /\ (arrayFormat opts <> Some comma -> arrayFormat opts <> Some separator ->
      objectToQueryParams with_field opts
      = objectToQueryParams without_field opts)
  /\ (arrayFormat opts = Some comma \/ arrayFormat opts = Some separator ->
      forall ts, objectToQueryParams with_field opts = Ok ts ->
      exists ek l1 l2,
        encodeValue (VString (camelToSnakeCase k ++ "[" ++ f ++ "]"))
          (encodeValues opts) = Ok ek
        /\ ts = (l1 ++ [(ek ++ "=")%string] ++ l2)%list
        /\ objectToQueryParams without_field opts = Ok (l1 ++ l2)%list)
  /\ objectToQueryParams [(k, VObject [(f, VArray [])])] opts
     = match arrayFormat opts with
       | Some comma | Some separator =>
           ek <- encodeValue (VString (camelToSnakeCase k ++ "[" ++ f ++ "]"))
                   (encodeValues opts) ;;
           Ok [ek ++ "="]
       | _ => Ok []
       end
  /\ buildQueryString [("like", VObject [("field", VArray [])])]
       {| encodeValues := Some false; arrayFormat := Some comma;
          arraySeparator := Some ","; skipNulls := Some true;
          skipEmptyString := Some true |}
     = Ok "like[field]=".
Proof.
  intros with_field without_field.
  assert (Hfield : nestedParams (camelToSnakeCase k) opts (f, VArray [])
                   = match arrayFormat opts with
                     | Some comma | Some separator =>
                         ek <- encodeValue
                                 (VString (camelToSnakeCase k ++ "[" ++ f ++ "]"))
                                 (encodeValues opts) ;;
                         Ok [ek ++ "="]
                     | _ => Ok []
                     end).
  { unfold nestedParams. rewrite skip_array. unfold formatArrayValue.
    destruct (arrayFormat opts) as [[| | | |]|]; try reflexivity;
      cbn [map_outcome bind String.concat];
      (destruct (encodeValue _ _); cbn [bind]; try reflexivity;
       now rewrite append_empty_r). }
  assert (Hentry : forall nested,
             entryParams opts (k, VObject nested)
             = flat_map_outcome (nestedParams (camelToSnakeCase k) opts) nested).
  { intros nested. unfold entryParams. now rewrite skip_object. }
  split; [|split; [|split; [|split; [|reflexivity]]]].
  - unfold objectToQueryParams. rewrite !flat_map_outcome_app.
    cbn [flat_map_outcome entryParams]. rewrite skip_array. cbn [bind].
    destruct (flat_map_outcome (entryParams opts) before); cbn [bind];
      try reflexivity.
    now destruct (flat_map_outcome (entryParams opts) after).
  - intros Hc Hs. unfold with_field, without_field, objectToQueryParams.
    rewrite !flat_map_outcome_app. cbn [flat_map_outcome].
    rewrite !Hentry, !flat_map_outcome_app. cbn [flat_map_outcome].
    rewrite Hfield.
    replace (match arrayFormat opts with
             | Some comma | Some separator =>
                 ek <- encodeValue
                         (VString (camelToSnakeCase k ++ "[" ++ f ++ "]"))
                         (encodeValues opts) ;;
                 Ok [ek ++ "="]
             | _ => Ok []
             end) with (@Ok (list string) [])
      by (destruct (arrayFormat opts) as [[| | | |]|]; congruence).
    cbn [bind].
    destruct (flat_map_outcome (entryParams opts) before); cbn [bind];
      try reflexivity.
    destruct (flat_map_outcome (nestedParams (camelToSnakeCase k) opts)
                fields_before); cbn [bind]; try reflexivity.
    now destruct (flat_map_outcome (nestedParams (camelToSnakeCase k) opts)
                    fields_after).
  - intros Hf ts. unfold with_field, without_field, objectToQueryParams.
    rewrite !flat_map_outcome_app. cbn [flat_map_outcome].
    rewrite !Hentry, !flat_map_outcome_app. cbn [flat_map_outcome].
    rewrite Hfield.
    replace (match arrayFormat opts with
             | Some comma | Some separator =>
                 ek <- encodeValue
                         (VString (camelToSnakeCase k ++ "[" ++ f ++ "]"))
                         (encodeValues opts) ;;
                 Ok [ek ++ "="]
             | _ => Ok []
             end)
      with (ek <- encodeValue
                    (VString (camelToSnakeCase k ++ "[" ++ f ++ "]"))
                    (encodeValues opts) ;;
            Ok [ek ++ "="])
      by (destruct Hf as [-> | ->]; reflexivity).
    destruct (flat_map_outcome (entryParams opts) before) as [tb| |];
      cbn [bind]; try discriminate.
    destruct (flat_map_outcome (nestedParams (camelToSnakeCase k) opts)
                fields_before) as [tfb| |]; cbn [bind]; try discriminate.
    destruct (encodeValue _ _) as [ek| |]; cbn [bind]; try discriminate.
    destruct (flat_map_outcome (nestedParams (camelToSnakeCase k) opts)
                fields_after) as [tfa| |]; cbn [bind]; try discriminate.
    destruct (flat_map_outcome (entryParams opts) after) as [ta| |];
      cbn [bind]; try discriminate.
    intros [= <-]. exists ek, (tb ++ tfb)%list, (tfa ++ ta)%list.
    split; [reflexivity|]. split; [|now rewrite <- !app_assoc].
    cbn [app]. now rewrite <- !app_assoc.
  - unfold objectToQueryParams. cbn [flat_map_outcome].
    rewrite Hentry. cbn [flat_map_outcome]. rewrite Hfield.
    destruct (arrayFormat opts) as [[| | | |]|]; try reflexivity;
      (destruct (encodeValue _ _); reflexivity).
Qed.

Lemma C10_witness :
  exists ek l1 l2,
    encodeValue (VString (camelToSnakeCase "like" ++ "[" ++ "field" ++ "]"))
      (Some false) = Ok ek
    /\ ["page=1"; "like[name]=a"; "like[field]="; "like[other]="; "sort=x"]
       = (l1 ++ [(ek ++ "=")%string] ++ l2)%list
    /\ objectToQueryParams
         [("page", VNumber (NInt 1));
          ("like", VObject [("name", VString "a"); ("other", VArray [])]);
          ("sort", VArray [VString "x"])]
         {| encodeValues := Some false; arrayFormat := Some comma;
            arraySeparator := None; skipNulls := None;
            skipEmptyString := None |}
       = Ok (l1 ++ l2)%list.
Proof.
  apply (proj1 (proj2 (proj2
           (C10_empty_sequences
              {| encodeValues := Some false; arrayFormat := Some comma;
                 arraySeparator := None; skipNulls := None;
                 skipEmptyString := None |}
              "like" "field" [("page", VNumber (NInt 1))]
              [("sort", VArray [VString "x"])] [("name", VString "a")]
              [("other", VArray [])])))
           (or_introl eq_refl)
           ["page=1"; "like[name]=a"; "like[field]="; "like[other]=";
            "sort=x"]).
  reflexivity.
Defined.

(** * Further properties of the code *)

(** ** Reading the tokens back *)

Lemma percent_decode_encode_append (s t : string) :
  percent_decode (percent_encode s ++ t) = s ++ percent_decode t.
Proof.
  induction s as [|c s IH]; [reflexivity|].
  cbn [percent_encode]. rewrite append_assoc.
  destruct (is_unreserved c) eqn:Hc.
  - cbn [append percent_decode].
    destruct (Ascii.eqb_spec c "%") as [->|_]; [discriminate|].
    now rewrite IH.
  - now rewrite percent_decode_byte, IH.
Qed.

Lemma percent_decode_plain (lit t : string) :
  includes "%" lit = false ->
  percent_decode (lit ++ t) = lit ++ percent_decode t.
Proof.
  induction lit as [|c lit IH]; [reflexivity|].
  cbn [includes append percent_decode]. intros H.
  apply orb_false_iff in H as [Hc Hl]. now rewrite Hc, (IH Hl).
Qed.

Lemma percent_decode_joined (sep : string) (ws : list string) :
  includes "%" sep = false ->
  percent_decode (String.concat sep (map percent_encode ws))
  = String.concat sep ws.
Proof.
  intros Hsep. induction ws as [|w [|w' ws] IH]; [reflexivity| |].
  - apply percent_decode_encode.
  - change (percent_decode
              (percent_encode w
               ++ sep ++ String.concat sep (map percent_encode (w' :: ws)))
            = w ++ sep ++ String.concat sep (w' :: ws)).
    now rewrite percent_decode_encode_append, (percent_decode_plain _ _ Hsep), IH.
Qed.

Lemma includes_concat (c : ascii) (sep : string) (l : list string) :
  includes c sep = false ->
  Forall (fun x => includes c x = false) l ->
  includes c (String.concat sep l) = false.
Proof.
  intros Hsep H. induction H as [|x [|y l] Hx Hl IH]; [reflexivity | exact Hx |].
  change (includes c (x ++ sep ++ String.concat sep (y :: l)) = false).
  now rewrite !includes_append, Hx, Hsep, IH.
Qed.

Lemma encoded_values_exclude (c : ascii) (ws : list string) :
  encoded_char c = false ->
  Forall (fun x => includes c x = false) (map percent_encode ws).
Proof.
  intros Hc. apply Forall_forall. intros x Hx.
  apply in_map_iff in Hx as (w & <- & _).
  now apply percent_encode_excludes.
Qed.

Lemma clean_excludes (s : string) :
  clean s = true ->
  includes "%" s = false /\ includes "&" s = false /\ includes "=" s = false
  /\ includes "+" s = false /\ includes "?" s = false.
Proof.
  unfold clean. intros H. apply negb_true_iff in H.
  repeat (apply orb_false_iff in H as [H ?]). auto.
Qed.

Section WireTokens.

Variables (sep : string) (w : wire).
Hypothesis Hsep : clean sep = true.
Hypothesis Hsuffix : clean (wire_suffix w) = true.

Let key_text := percent_encode (wire_key w) ++ wire_suffix w.
Let value_text := String.concat sep (map percent_encode (wire_values w)).

Lemma wire_token_split : wire_token sep w = key_text ++ String "=" value_text.
Proof. unfold wire_token, key_text, value_text. now rewrite append_assoc. Qed.

Lemma key_text_excludes (c : ascii) :
  encoded_char c = false -> includes c (wire_suffix w) = false ->
  includes c key_text = false.
Proof.
  intros Hc Hs. unfold key_text.
  now rewrite includes_append, percent_encode_excludes, Hs.
Qed.

Lemma value_text_excludes (c : ascii) :
  encoded_char c = false -> includes c sep = false ->
  includes c value_text = false.
Proof.
  intros Hc Hs. apply includes_concat; [exact Hs|].
  now apply encoded_values_exclude.
Qed.

Lemma wire_token_excludes (c : ascii) :
  encoded_char c = false -> Ascii.eqb "=" c = false ->
  includes c sep = false -> includes c (wire_suffix w) = false ->
  includes c (wire_token sep w) = false.
Proof.
  intros Hc He Hs Hx. rewrite wire_token_split, includes_append.
  cbn [includes]. now rewrite key_text_excludes, He, value_text_excludes.
Qed.

Lemma wire_token_not_empty : is_empty (wire_token sep w) = false.
Proof. rewrite wire_token_split. now destruct key_text. Qed.

Lemma parse_pair_wire_token : parse_pair (wire_token sep w) = wire_pair sep w.
Proof.
  destruct (clean_excludes _ Hsep) as (Hp & Ha & He & Hplus & Hq).
  destruct (clean_excludes _ Hsuffix) as (Hp' & Ha' & He' & Hplus' & Hq').
  rewrite wire_token_split. unfold parse_pair.
  rewrite split_first_append by (now apply key_text_excludes).
  unfold form_decode, wire_pair.
  rewrite !replace_char_absent
    by (now apply key_text_excludes || now apply value_text_excludes).
  unfold key_text, value_text.
  rewrite percent_decode_encode_append, (percent_decode_joined _ _ Hp).
  rewrite <- (append_empty_r (wire_suffix w)) at 1.
  now rewrite (percent_decode_plain _ _ Hp'), append_empty_r.
Qed.

End WireTokens.

Lemma URLSearchParams_parsed {X : Type} (tok : X -> string)
  (pr : X -> string * string) (l : list X) :
  Forall (fun x => includes "&" (tok x) = false /\ includes "?" (tok x) = false
                   /\ is_empty (tok x) = false /\ parse_pair (tok x) = pr x) l ->
  URLSearchParams (join_tokens (map tok l)) = map pr l.
Proof.
  intros H. unfold URLSearchParams.
  destruct l as [|x0 l0]; [reflexivity|].
  replace (join_tokens (map tok (x0 :: l0)))
    with (String.concat "&" (map tok (x0 :: l0))) by reflexivity.
  set (l := x0 :: l0) in *.
  assert (Hq : includes "?" (String.concat "&" (map tok l)) = false).
  { apply includes_concat; [reflexivity|].
    apply Forall_forall. intros t Ht. apply in_map_iff in Ht as (x & <- & Hx).
    rewrite Forall_forall in H. now destruct (H x Hx) as (_ & ? & _). }
  rewrite (leading_question_mark _ Hq).
  rewrite split_all_concat.
  - clear Hq. induction H as [|x r (_ & _ & Hne & Hp) _ IH]; [reflexivity|].
    cbn [map List.filter]. rewrite Hne. cbn [negb map]. now rewrite Hp, IH.
  - discriminate.
  - apply Forall_forall. intros t Ht. apply in_map_iff in Ht as (x & <- & Hx).
    rewrite Forall_forall in H. now destruct (H x Hx) as (? & _).
Qed.

Lemma all_chars_weaken (p q : ascii -> bool) (s : string) :
  (forall c, p c = true -> q c = true) ->
  all_chars p s = true -> all_chars q s = true.
Proof.
  intros Hpq. induction s as [|c s IH]; [reflexivity|].
  cbn [all_chars]. intros H. apply andb_true_iff in H as [Hc Hs].
  now rewrite (Hpq c Hc), (IH Hs).
Qed.

Lemma nat_to_string_digits (n : nat) :
  all_chars is_digit (nat_to_string n) = true.
Proof.
  unfold nat_to_string, NilZero.string_of_uint.
  destruct (Nat.to_uint n) as [|u|u|u|u|u|u|u|u|u|u];
    [reflexivity | apply uint_digits ..].
Qed.

Lemma digit_is_query_char (c : ascii) : is_digit c = true -> query_char c = true.
Proof.
  intros H. unfold query_char, encoded_char, is_unreserved.
  now rewrite H, !orb_true_r.
Qed.

Lemma index_suffix (n : nat) : bracket_suffix ("[" ++ nat_to_string n ++ "]").
Proof.
  pose proof (nat_to_string_digits n) as Hd. split.
  - unfold clean. rewrite !includes_append. cbn [includes Ascii.eqb Bool.eqb orb].
    now rewrite (digits_exclude "%" _ eq_refl Hd), (digits_exclude "&" _ eq_refl Hd),
      (digits_exclude "=" _ eq_refl Hd), (digits_exclude "+" _ eq_refl Hd),
      (digits_exclude "?" _ eq_refl Hd).
  - rewrite !all_chars_append.
    rewrite (all_chars_weaken _ _ _ digit_is_query_char Hd). reflexivity.
Qed.

Lemma array_wires_suffix (key : string) (vs : list value) (opts : BuilderOptions) :
  Forall (fun w => bracket_suffix (wire_suffix w)) (array_wires key vs opts).
Proof.
  unfold array_wires.
  assert (Hidx : forall i, Forall (fun w => bracket_suffix (wire_suffix w))
            (map_indexed
               (fun v index => {| wire_key := key;
                                  wire_suffix := "[" ++ nat_to_string index ++ "]";
                                  wire_values := [text_of v] |}) i vs)).
  { induction vs as [|v vs IH]; intros i; constructor; [apply index_suffix | apply IH]. }
  destruct (arrayFormat opts) as [[| | | |]|]; try apply Hidx;
    try (apply Forall_forall; intros w Hw; apply in_map_iff in Hw as (v & <- & _));
    try (repeat constructor); split; reflexivity.
Qed.

Lemma model_wires_suffix (m : object) (opts : BuilderOptions) :
  Forall (fun w => bracket_suffix (wire_suffix w)) (model_wires m opts).
Proof.
  apply Forall_forall. intros w Hw. unfold model_wires in Hw.
  apply in_flat_map in Hw as ((k, v) & _ & Hw). unfold entry_wires in Hw.
  destruct (shouldSkipValue v opts); [contradiction|].
  assert (Hscalar : forall key x, In w [scalar_wire key x] ->
                                  bracket_suffix (wire_suffix w)).
  { intros key x [<-|[]]. split; reflexivity. }
  assert (Harr : forall key vs, In w (array_wires key vs opts) ->
                                bracket_suffix (wire_suffix w)).
  { intros key vs Hin.
    exact (proj1 (Forall_forall _ _) (array_wires_suffix key vs opts) w Hin). }
  destruct v as [| | | | |[|a vs]|nested]; eauto; [contradiction|].
  apply in_flat_map in Hw as ((nk, nv) & _ & Hw). unfold nested_wires in Hw.
  destruct (shouldSkipValue nv opts); [contradiction|].
  destruct nv; eauto.
Qed.

Lemma encoded_text_encoded (v : value) (e : option bool) :
  e <> Some false -> encoded_text v e = percent_encode (text_of v).
Proof. unfold encoded_text. destruct e as [[|]|]; congruence. Qed.

Lemma scalar_token (key : string) (v : value) (opts : BuilderOptions) :
  encodeValues opts <> Some false ->
  encoded_text (VString key) (encodeValues opts) ++ "="
  ++ encoded_text v (encodeValues opts)
  = wire_token (separator_text opts) (scalar_wire key v).
Proof. intros He. now rewrite !encoded_text_encoded. Qed.

Lemma array_tokens_wires (key : string) (vs : list value)
  (opts : BuilderOptions) :
  encodeValues opts <> Some false ->
  array_tokens key vs opts
  = map (wire_token (separator_text opts)) (array_wires key vs opts).
Proof.
  intros He. unfold array_tokens, array_wires, separator_text.
  assert (Henc : forall v, encoded_text v (encodeValues opts)
                           = percent_encode (text_of v))
    by (intros v; now apply encoded_text_encoded).
  destruct (arrayFormat opts) as [[| | | |]|].
  - rewrite map_map. apply map_ext. intros v. now rewrite !Henc.
  - generalize 0%nat. induction vs as [|v vs IH]; intros i; [reflexivity|].
    cbn [map_indexed map]. rewrite IH, !Henc. f_equal.
    unfold wire_token. cbn [wire_key wire_suffix wire_values map String.concat text_of].
    now rewrite !append_assoc.
  - cbn [map]. unfold wire_token. cbn [wire_key wire_suffix wire_values append].
    now rewrite map_map, Henc,
      (map_ext (fun v => encoded_text v (encodeValues opts)) _ Henc).
  - cbn [map]. unfold wire_token. cbn [wire_key wire_suffix wire_values append].
    rewrite map_map, Henc,
      (map_ext (fun v => encoded_text v (encodeValues opts)) _ Henc).
    now destruct (arraySeparator opts).
  - rewrite map_map. apply map_ext. intros v. now rewrite !Henc.
  - rewrite map_map. apply map_ext. intros v. now rewrite !Henc.
Qed.

Lemma object_tokens_wires (m : object) (opts : BuilderOptions) :
  encodeValues opts <> Some false ->
  object_tokens m opts
  = map (wire_token (separator_text opts)) (model_wires m opts).
Proof.
  intros He. unfold object_tokens, model_wires.
  induction m as [|[k v] m IH]; [reflexivity|].
  cbn [flat_map]. rewrite map_app, IH. f_equal.
  unfold entry_tokens, entry_wires.
  destruct (shouldSkipValue v opts); [reflexivity|].
  destruct v as [| | | | |[|a vs]|nested];
    try (cbn [map]; now rewrite scalar_token);
    [reflexivity | apply (array_tokens_wires _ _ _ He) |].
  induction nested as [|[nk nv] nested IHn]; [reflexivity|].
  cbn [flat_map]. rewrite map_app, IHn. f_equal.
  unfold nested_tokens, nested_wires.
  destruct (shouldSkipValue nv opts); [reflexivity|].
  destruct nv; try (cbn [map]; now rewrite scalar_token).
  apply (array_tokens_wires _ _ _ He).
Qed.

Lemma all_chars_concat (p : ascii -> bool) (sep : string) (l : list string) :
  all_chars p sep = true -> Forall (fun x => all_chars p x = true) l ->
  all_chars p (String.concat sep l) = true.
Proof.
  intros Hsep H. induction H as [|x [|y l] Hx Hl IH]; [reflexivity | exact Hx |].
  change (all_chars p (x ++ sep ++ String.concat sep (y :: l)) = true).
  now rewrite !all_chars_append, Hx, Hsep, IH.
Qed.

Lemma encoded_is_query_char (s : string) :
  all_chars query_char (percent_encode s) = true.
Proof.
  apply all_chars_weaken with encoded_char; [|apply percent_encode_chars].
  intros c Hc. unfold query_char. now rewrite Hc.
Qed.

Lemma separator_text_default (opts : BuilderOptions) :
  arrayFormat opts <> Some separator -> separator_text opts = ",".
Proof.
  unfold separator_text. destruct (arrayFormat opts) as [[| | | |]|];
    try reflexivity. congruence.
Qed.

Lemma query_text_wires (m : object) (opts : BuilderOptions) :
  encodeValues opts <> Some false ->
  query_text m opts
  = join_tokens (map (wire_token (separator_text opts)) (model_wires m opts)).
Proof.
  intros He. unfold query_text, join_tokens.
  now rewrite (object_tokens_wires m opts He).
Qed.

Lemma query_text_chars (m : object) (opts : BuilderOptions) :
  encodeValues opts <> Some false -> arrayFormat opts <> Some separator ->
  all_chars query_char (query_text m opts) = true.
Proof.
  intros He Hf. rewrite (query_text_wires m opts He).
  rewrite (separator_text_default opts Hf). unfold join_tokens.
  destruct (map (wire_token ",") (model_wires m opts)) eqn:E; [reflexivity|].
  rewrite <- E. apply all_chars_concat; [reflexivity|].
  apply Forall_forall. intros t Ht. apply in_map_iff in Ht as (w & <- & Hw).
  destruct (proj1 (Forall_forall _ _) (model_wires_suffix m opts) w Hw) as [_ Hs].
  unfold wire_token. rewrite !all_chars_append, encoded_is_query_char, Hs.
  cbn [all_chars andb].
  replace (query_char "=") with true by reflexivity. cbn [andb].
  apply all_chars_concat; [reflexivity|].
  apply Forall_forall. intros x Hx. apply in_map_iff in Hx as (y & <- & _).
  apply encoded_is_query_char.
Qed.

Lemma merged_encodeValues (opts : BuilderOptions) :
  encodeValues opts <> Some false ->
  encodeValues (merge_options DEFAULT_OPTIONS opts) <> Some false.
Proof. cbn. destruct (encodeValues opts) as [[|]|]; cbn; congruence. Qed.

Lemma merged_arrayFormat (opts : BuilderOptions) :
  arrayFormat opts <> Some separator ->
  arrayFormat (merge_options DEFAULT_OPTIONS opts) <> Some separator.
Proof. cbn. destruct (arrayFormat opts) as [[| | | |]|]; cbn; congruence. Qed.

Lemma count_char_append (c : ascii) (a b : string) :
  count_char c (a ++ b) = (count_char c a + count_char c b)%nat.
Proof.
  induction a as [|d a IH]; [reflexivity|].
  cbn [append count_char]. rewrite IH. lia.
Qed.

Lemma count_char_absent (c : ascii) (s : string) :
  includes c s = false -> count_char c s = 0%nat.
Proof.
  induction s as [|d s IH]; [reflexivity|].
  cbn [includes count_char]. intros H. apply orb_false_iff in H as [Hd Hs].
  now rewrite Hd, (IH Hs).
Qed.

Lemma URLSearchParams_query_text (m : object) (opts : BuilderOptions) :
  readable_options opts = true ->
  URLSearchParams (query_text m opts)
  = map (wire_pair (separator_text opts)) (model_wires m opts).
Proof.
  unfold readable_options. intros H. apply andb_true_iff in H as [He Hsep].
  assert (He' : encodeValues opts <> Some false)
    by (destruct (encodeValues opts) as [[|]|]; congruence).
  rewrite (query_text_wires m opts He').
  apply URLSearchParams_parsed.
  apply Forall_forall. intros w Hw.
  destruct (proj1 (Forall_forall _ _) (model_wires_suffix m opts) w Hw) as [Hs _].
  destruct (clean_excludes _ Hsep) as (_ & Ha & _ & _ & Hq).
  destruct (clean_excludes _ Hs) as (_ & Ha' & _ & _ & Hq').
  repeat split.
  - now apply wire_token_excludes.
  - now apply wire_token_excludes.
  - apply wire_token_not_empty.
  - now apply parse_pair_wire_token.
Qed.

(** X1: with percent-encoding on and a clean separator, the encoder returns
    a query string on every model whose keys and values it can convert, and
    a query string it returns is read by [URLSearchParams] as one pair per
    token, each pair holding the key with its brackets and the values as the
    encoder received them. *)
Theorem query_string_read_back (m : object) (opts : BuilderOptions) :
  readable_options opts = true ->
  (encodable opts m = true ->
   exists queryString, buildQueryString m opts = Ok queryString)
  /\ forall queryString,
       buildQueryString m opts = Ok queryString ->
       URLSearchParams queryString
       = map (wire_pair (separator_text opts)) (model_wires m opts).
Proof.
  intros H. split.
  - intros He. eexists. exact (buildQueryString_returns m opts He).
  - intros queryString E. rewrite (buildQueryString_text m opts _ E).
    exact (URLSearchParams_query_text m opts H).
Qed.

Lemma query_string_read_back_witness :
  (encodable
     {| encodeValues := None; arrayFormat := Some indices;
        arraySeparator := None; skipNulls := None; skipEmptyString := None |}
     [("q", VString "a&b=c d"); ("tags", VArray [VString "x y"; VNull]);
      ("eq", VObject [("n", VNumber (NInt 3))])] = true ->
   exists queryString,
     buildQueryString
       [("q", VString "a&b=c d"); ("tags", VArray [VString "x y"; VNull]);
        ("eq", VObject [("n", VNumber (NInt 3))])]
       {| encodeValues := None; arrayFormat := Some indices;
          arraySeparator := None; skipNulls := None; skipEmptyString := None |}
     = Ok queryString)
  /\ forall queryString,
       buildQueryString
         [("q", VString "a&b=c d"); ("tags", VArray [VString "x y"; VNull]);
          ("eq", VObject [("n", VNumber (NInt 3))])]
         {| encodeValues := None; arrayFormat := Some indices;
            arraySeparator := None; skipNulls := None; skipEmptyString := None |}
       = Ok queryString ->
       URLSearchParams queryString
       = [("q", "a&b=c d"); ("tags[0]", "x y"); ("tags[1]", "null");
          ("eq[n]", "3")].
Proof.
  exact (query_string_read_back
           [("q", VString "a&b=c d"); ("tags", VArray [VString "x y"; VNull]);
            ("eq", VObject [("n", VNumber (NInt 3))])]
           {| encodeValues := None; arrayFormat := Some indices;
              arraySeparator := None; skipNulls := None; skipEmptyString := None |}
           eq_refl).
Defined.

(** X2: with percent-encoding on and no custom separator, the encoder
    returns a query string on every model whose keys and values it can
    convert, and a query string it returns consists of unreserved
    characters, [%], [=], [&], brackets and commas only; it holds no space,
    [?], [#] or [+]. *)
Theorem query_string_characters (m : object) (opts : BuilderOptions) :
  encodeValues opts <> Some false -> arrayFormat opts <> Some separator ->
  (encodable opts m = true ->
   exists queryString, buildQueryString m opts = Ok queryString)
  /\ forall queryString,
       buildQueryString m opts = Ok queryString ->
       all_chars query_char queryString = true
       /\ forall c, In c [" "; "?"; "#"; "+"]%char ->
                    includes c queryString = false.
Proof.
  intros He Hf. split.
  - intros Hm. eexists. exact (buildQueryString_returns m opts Hm).
  - intros queryString E. rewrite (buildQueryString_text m opts _ E).
    pose proof (query_text_chars m opts He Hf) as H.
    split; [exact H|]. intros c Hc.
    apply all_chars_excludes with query_char; [|exact H].
    cbn [In] in Hc. destruct Hc as [<-|[<-|[<-|[<-|[]]]]]; reflexivity.
Qed.

Lemma query_string_characters_witness :
  all_chars query_char "search=a%20b%3F%23%2Bc" = true
  /\ forall c, In c [" "; "?"; "#"; "+"]%char ->
               includes c "search=a%20b%3F%23%2Bc" = false.
Proof.
  apply (query_string_characters [("search", VString "a b?#+c")] DEFAULT_OPTIONS);
    (discriminate || reflexivity).
Defined.

(** X3: [toUrl] keeps the base URL as a prefix and never adds a second
    question mark: the result has the question marks of the base, plus one
    only when the base has none and the query string is not empty. *)
Theorem toUrl_question_marks (stn : string -> number) (base : string)
  (p : object) (opts : BuilderOptions) (url : string) :
  encodeValues opts <> Some false -> arrayFormat opts <> Some separator ->
  toUrl stn base p opts = Ok url ->
  prefix base url = true
  /\ (includes "?" base = true -> count_char "?" url = count_char "?" base)
  /\ (includes "?" base = false -> (count_char "?" url <= 1)%nat).
Proof.
  intros He Hf. unfold toUrl, toQueryString.
  destruct (validatePaginationParams stn p); cbn [bind]; try discriminate.
  destruct (buildQueryString p (merge_options DEFAULT_OPTIONS opts))
    as [q| |] eqn:Eq; cbn [bind]; try discriminate.
  assert (Hq : includes "?" q = false).
  { apply all_chars_excludes with query_char; [reflexivity|].
    rewrite (buildQueryString_text _ _ _ Eq).
    apply query_text_chars;
      [now apply merged_encodeValues | now apply merged_arrayFormat]. }
  destruct (is_empty q) eqn:Hempty; intros [= <-].
  - rewrite <- (append_empty_r base) at 2. split; [apply prefix_append|].
    split; [reflexivity|]. intros Hb. rewrite (count_char_absent _ _ Hb). lia.
  - split; [apply prefix_append|].
    rewrite !count_char_append, (count_char_absent _ _ Hq).
    split; intros Hb; rewrite Hb.
    + cbn. lia.
    + rewrite (count_char_absent _ _ Hb). cbn. lia.
Qed.

Lemma toUrl_question_marks_witness :
  prefix "https://x/y?v=1" "https://x/y?v=1&search=what%3F" = true
  /\ (includes "?" "https://x/y?v=1" = true ->
      count_char "?" "https://x/y?v=1&search=what%3F"
      = count_char "?" "https://x/y?v=1")
  /\ (includes "?" "https://x/y?v=1" = false ->
      (count_char "?" "https://x/y?v=1&search=what%3F" <= 1)%nat).
Proof.
  apply (toUrl_question_marks decimal_StringToNumber "https://x/y?v=1"
           [("search", VString "what?")] no_options);
    (discriminate || reflexivity).
Defined.

(** ** The round trip under the [brackets] format *)

Lemma decode_each_entry (ok : string * value -> bool)
  (pairs : string * value -> list (string * string)) :
  (forall acc e, ok e = true -> lookup acc (fst e) = None ->
                 fold_outcome decode_pair (pairs e) acc = Ok (acc ++ [e])%list) ->
  forall m acc,
    forallb ok m = true -> distinct (map fst m) = true ->
    Forall (fun e => lookup acc (fst e) = None) m ->
    fold_outcome decode_pair (flat_map pairs m) acc = Ok (acc ++ m)%list.
Proof.
  intros Hstep m. induction m as [|e m IH]; intros acc Hok Hd Hacc.
  - cbn. now rewrite app_nil_r.
  - cbn [flat_map forallb map] in *.
    apply andb_true_iff in Hok as [He Hm].
    apply distinct_cons in Hd as [Hne Hd].
    inversion Hacc as [|? ? Hae Ham]; subst.
    rewrite fold_outcome_app, (Hstep acc e He Hae). cbn [bind].
    rewrite (IH (acc ++ [e])%list Hm Hd).
    + now rewrite <- app_assoc.
    + rewrite Forall_forall in Ham, Hne |- *. intros e' Hin.
      rewrite lookup_app, (Ham e' Hin). destruct e as [k v]. cbn [lookup fst] in *.
      rewrite (Hne (fst e')); [reflexivity|]. now apply in_map.
Qed.

Lemma decode_each_field (acc : object) (k : string)
  (ok : string * value -> bool)
  (pairs : string * value -> list (string * string)) :
  (forall o state e, reading acc k o state -> lookup o (fst e) = None ->
                     ok e = true ->
                     fold_outcome decode_pair (pairs e) state
                     = Ok (acc ++ [(k, VObject (o ++ [e]))])%list) ->
  forall n o state,
    reading acc k o state -> forallb ok n = true ->
    distinct (map fst n) = true ->
    Forall (fun e => lookup o (fst e) = None) n ->
    fold_outcome decode_pair (flat_map pairs n) state
    = Ok (match n with
          | [] => state
          | _ => (acc ++ [(k, VObject (o ++ n))])%list
          end).
Proof.
  intros Hstep n.
  induction n as [|e n IH]; intros o state Hr Hok Hd Ho; [reflexivity|].
  cbn [flat_map forallb map] in *.
  apply andb_true_iff in Hok as [He Hn].
  apply distinct_cons in Hd as [Hne Hd].
  inversion Ho as [|? ? Hoe Hon]; subst.
  rewrite fold_outcome_app, (Hstep o state e Hr Hoe He). cbn [bind].
  rewrite (IH (o ++ [e])%list _ (or_intror eq_refl) Hn Hd).
  - destruct n; [reflexivity|]. now rewrite <- app_assoc.
  - rewrite Forall_forall in Hon, Hne |- *. intros e' Hin.
    rewrite lookup_app, (Hon e' Hin). destruct e as [f v]. cbn [lookup fst] in *.
    rewrite (Hne (fst e')); [reflexivity|]. now apply in_map.
Qed.

Lemma list_key_facts (k : string) :
  existsb (String.eqb k) list_keys = true ->
  inherited k = false /\ array_index k = None /\ camelToSnakeCase k = k
  /\ (forall p v, decode_pair p (k ++ "[]", v) = push_at p k v).
Proof.
  unfold list_keys. cbn [existsb]. intros H.
  repeat match type of H with
         | context [String.eqb k ?x] =>
             destruct (String.eqb_spec k x) as [E|_];
             [subst k; repeat split; reflexivity | cbn [orb] in H]
         end.
  discriminate H.
Qed.

Lemma decode_pushes (acc : object) (k : string) (key : string)
  (l : list value) (strs : list string) :
  (forall p v, decode_pair p (key, v) = push_at p k v) ->
  lookup acc k = None ->
  fold_outcome decode_pair (map (fun s => (key, s)) strs)
    (acc ++ [(k, VArray l)])%list
  = Ok (acc ++ [(k, VArray (l ++ map VString strs))])%list.
Proof.
  intros Hkey H. revert l. induction strs as [|s strs IH]; intros l;
    cbn [map fold_outcome].
  - now rewrite app_nil_r.
  - rewrite Hkey, (push_at_last _ _ _ _ H). cbn [bind].
    rewrite IH, <- app_assoc. reflexivity.
Qed.

Lemma decode_list_entry (acc : object) (k : string) (vs : list value) :
  existsb (String.eqb k) list_keys = true ->
  lookup acc k = None -> vs <> [] -> forallb is_string vs = true ->
  fold_outcome decode_pair (map (fun x => (k ++ "[]", text_of x)) vs) acc
  = Ok (acc ++ [(k, VArray vs)])%list.
Proof.
  intros Hk Hacc Hne Hs.
  destruct (list_key_facts k Hk) as (Hinh & Hidx & _ & Hkey).
  destruct vs as [|a r]; [contradiction|].
  cbn [forallb] in Hs. apply andb_true_iff in Hs as [Ha Hr].
  destruct a as [| | | |sa| |]; try discriminate.
  cbn [map fold_outcome text_of]. rewrite Hkey.
  unfold push_at. rewrite Hacc, Hinh, (obj_set_new _ _ _ Hacc Hidx). cbn [bind].
  rewrite <- (map_map text_of (fun s => (k ++ "[]", s))).
  rewrite (decode_pushes acc k _ _ _ Hkey Hacc). cbn [app].
  now rewrite (strings_back r Hr).
Qed.

Lemma decode_pair_nested_array (p : object) (k f v : string) :
  is_empty k = false -> includes "[" k = false ->
  is_empty f = false -> includes "]" f = false ->
  decode_pair p (nested_key k f ++ "[]", v)
  = (o <- nested_object p k ;;
     o' <- push_at o f v ;;
     Ok (obj_set p k (VObject o'))).
Proof.
  intros Hk Hk' Hf Hf'.
  assert (Hkey : nested_key k f ++ "[]" = k ++ String "[" (f ++ String "]" "[]")).
  { unfold nested_key. now rewrite !append_assoc. }
  rewrite Hkey.
  assert (Hshape : nestedShape (k ++ String "[" (f ++ String "]" "[]"))
                   = Some (k, f, "[]")).
  { unfold nestedShape.
    rewrite (split_first_append "[" k _ Hk'), (split_first_append "]" f _ Hf').
    now rewrite Hk, Hf. }
  assert (Hidx : indexMatch (k ++ String "[" (f ++ String "]" "[]")) = None).
  { unfold indexMatch.
    rewrite (split_first_append "[" k _ Hk'), (split_first_append "]" f _ Hf').
    cbn [is_empty]. now rewrite !andb_false_r. }
  unfold decode_pair, nestedArrayMatch.
  rewrite Hidx, Hshape. rewrite !includes_append.
  cbn [includes String.eqb Ascii.eqb Bool.eqb andb].
  rewrite !includes_append. cbn [includes Ascii.eqb Bool.eqb].
  now rewrite !orb_true_r.
Qed.

Lemma decode_brackets_field (acc : object) (k : string)
  (o state : object) (e : string * value) :
  lookup acc k = None ->
  existsb (String.eqb k) multi_valued_operators = true ->
  reading acc k o state -> lookup o (fst e) = None ->
  brackets_field_ok e = true ->
  fold_outcome decode_pair (brackets_field_pairs k e) state
  = Ok (acc ++ [(k, VObject (o ++ [e]))])%list.
Proof.
  intros Hfresh Hk Hr Ho He. destruct e as [f v]. cbn [fst] in *.
  destruct (operator_key_facts k Hk) as (Hne & Hbr & Hinh & Hidx & _).
  unfold brackets_field_ok in He. cbn [fst snd] in He.
  apply andb_true_iff in He as [Hf Hv].
  unfold field_ok in Hf.
  apply andb_true_iff in Hf as [Hf Hfinh]. apply andb_true_iff in Hf as [Hf Hdig].
  apply andb_true_iff in Hf as [Hfne Hfbr].
  apply negb_true_iff in Hfinh, Hdig, Hfne, Hfbr.
  destruct v as [| | | | |[|a r]|]; try discriminate.
  cbn [forallb] in Hv. apply andb_true_iff in Hv as [Ha Hrs].
  destruct a as [| | | |sa| |]; try discriminate.
  assert (Hstep : forall o1 st s, reading acc k o1 st ->
            decode_pair st (nested_key k f ++ "[]", s)
            = (o' <- push_at o1 f s ;; Ok (acc ++ [(k, VObject o')])%list)).
  { intros o1 st s Hr1.
    rewrite (decode_pair_nested_array _ _ _ _ Hne Hbr Hfne Hfbr).
    rewrite (reading_nested_object _ _ _ _ Hfresh Hinh Hr1). cbn [bind].
    destruct (push_at o1 f s); cbn [bind]; try reflexivity.
    now rewrite (reading_obj_set _ _ _ _ _ Hfresh Hidx Hr1). }
  unfold brackets_field_pairs. cbn [fst snd map fold_outcome text_of].
  rewrite (Hstep o state sa Hr).
  unfold push_at at 1. rewrite Ho, Hfinh.
  rewrite (obj_set_new _ _ _ Ho (array_index_digits _ Hdig)). cbn [bind].
  assert (Hrest : forall strs l,
            fold_outcome decode_pair
              (map (fun s => (nested_key k f ++ "[]", s)) strs)
              (acc ++ [(k, VObject (o ++ [(f, VArray l)]))])%list
            = Ok (acc ++ [(k, VObject (o ++ [(f, VArray (l ++ map VString strs))]))])%list).
  { induction strs as [|s strs IH]; intros l; cbn [map fold_outcome].
    - now rewrite app_nil_r.
    - rewrite (Hstep (o ++ [(f, VArray l)])%list _ s (or_intror eq_refl)).
      rewrite (push_at_last _ _ _ _ Ho). cbn [bind].
      rewrite IH, <- app_assoc. reflexivity. }
  rewrite <- (map_map text_of (fun s => (nested_key k f ++ "[]", s))).
  rewrite Hrest. cbn [app]. now rewrite (strings_back r Hrs).
Qed.

Lemma decode_brackets_entry (acc : object) (e : string * value) :
  brackets_entry_ok e = true -> lookup acc (fst e) = None ->
  fold_outcome decode_pair (brackets_entry_pairs e) acc = Ok (acc ++ [e])%list.
Proof.
  destruct e as [k v]. unfold brackets_entry_ok. cbn [fst].
  destruct (String.eqb_spec k "page") as [->|_];
    [|destruct (String.eqb_spec k "limit") as [->|_]]; cbn [orb].
  { destruct v as [| | |[z| | |]| | |]; try discriminate. intros Hz Hacc.
    exact (decode_entry acc ("page", VNumber (NInt z)) Hz Hacc). }
  { destruct v as [| | |[z| | |]| | |]; try discriminate. intros Hz Hacc.
    exact (decode_entry acc ("limit", VNumber (NInt z)) Hz Hacc). }
  destruct (String.eqb_spec k "search") as [->|_].
  { destruct v as [| | | |s| |]; try discriminate. intros Hs Hacc.
    exact (decode_entry acc ("search", VString s) Hs Hacc). }
  destruct (String.eqb_spec k "vacuum") as [->|_].
  { destruct v as [| |b| | | |]; try discriminate. intros Hs Hacc.
    exact (decode_entry acc ("vacuum", VBool b) Hs Hacc). }
  destruct (existsb (String.eqb k) list_keys) eqn:Hl.
  { destruct v as [| | | | |[|a r]|]; try discriminate. intros Hs Hacc.
    unfold brackets_entry_pairs. cbn [fst snd].
    now apply decode_list_entry. }
  destruct (existsb (String.eqb k) multi_valued_operators) eqn:Hk;
    [|discriminate].
  destruct v as [| | | | | |[|e r]]; try discriminate.
  intros H Hacc. apply andb_true_iff in H as [Hok Hd].
  unfold brackets_entry_pairs. cbn [fst snd].
  rewrite (decode_each_field acc k brackets_field_ok (brackets_field_pairs k)
             (fun o state e0 => decode_brackets_field acc k o state e0 Hacc Hk)
             (e :: r) [] acc (or_introl (conj eq_refl eq_refl)) Hok Hd).
  - reflexivity.
  - apply Forall_forall. reflexivity.
Qed.

Lemma wire_pair_scalar (sep key : string) (v : value) :
  wire_pair sep (scalar_wire key v) = (key, text_of v).
Proof. unfold wire_pair, scalar_wire. cbn. now rewrite append_empty_r. Qed.

Lemma brackets_array_pairs (key : string) (vs : list value)
  (opts : BuilderOptions) :
  arrayFormat opts = Some brackets ->
  map (wire_pair (separator_text opts)) (array_wires key vs opts)
  = map (fun x => (key ++ "[]", text_of x)) vs.
Proof.
  intros Hf. unfold array_wires. rewrite Hf, map_map. reflexivity.
Qed.

Lemma brackets_entry_wires (opts : BuilderOptions) (e : string * value) :
  arrayFormat opts = Some brackets -> brackets_entry_ok e = true ->
  map (wire_pair (separator_text opts)) (entry_wires opts e)
  = brackets_entry_pairs e.
Proof.
  intros Hf. destruct e as [k v]. unfold brackets_entry_ok.
  assert (Hskip : forall x, match x with
                            | VUndefined | VNull | VString EmptyString => False
                            | _ => True
                            end -> shouldSkipValue x opts = false).
  { intros x Hx. unfold shouldSkipValue.
    destruct x as [| | | |[|c s]| |]; try contradiction;
      now rewrite ?andb_false_r. }
  destruct (String.eqb_spec k "page") as [->|_];
    [|destruct (String.eqb_spec k "limit") as [->|_]]; cbn [orb].
  1,2: destruct v as [| | |[z| | |]| | |]; try discriminate; intros _;
    unfold entry_wires; rewrite Hskip by exact I;
    cbn [map camelToSnakeCase]; now rewrite wire_pair_scalar.
  destruct (String.eqb_spec k "search") as [->|_].
  { destruct v as [| | | |[|c s]| |]; try discriminate. intros _.
    unfold entry_wires. rewrite Hskip by exact I.
    cbn [map]. now rewrite wire_pair_scalar. }
  destruct (String.eqb_spec k "vacuum") as [->|_].
  { destruct v as [| |b| | | |]; try discriminate. intros _.
    unfold entry_wires. rewrite Hskip by exact I.
    cbn [map]. now rewrite wire_pair_scalar. }
  destruct (existsb (String.eqb k) list_keys) eqn:Hl.
  { destruct (list_key_facts k Hl) as (_ & _ & Hc & _).
    destruct v as [| | | | |[|a r]|]; try discriminate. intros _.
    unfold entry_wires, brackets_entry_pairs. rewrite Hskip by exact I.
    rewrite Hc. cbn [fst snd]. now apply brackets_array_pairs. }
  destruct (existsb (String.eqb k) multi_valued_operators) eqn:Hk;
    [|discriminate].
  destruct (operator_key_facts k Hk) as (_ & _ & _ & _ & Hc & _).
  destruct v as [| | | | | |[|e r]]; try discriminate.
  intros H. apply andb_true_iff in H as [H _].
  unfold entry_wires, brackets_entry_pairs. rewrite Hskip by exact I.
  rewrite Hc. cbn [fst snd]. revert H. generalize (e :: r) as n. clear e r.
  induction n as [|[f x] n IH]; [reflexivity|].
  cbn [forallb flat_map]. intros H. apply andb_true_iff in H as [He Hn].
  rewrite map_app, (IH Hn). f_equal.
  unfold brackets_field_ok in He. apply andb_true_iff in He as [_ Hx].
  cbn [snd] in Hx. destruct x as [| | | | |vs|]; try discriminate.
  unfold nested_wires, brackets_field_pairs. rewrite Hskip by exact I.
  cbn [fst snd]. now apply brackets_array_pairs.
Qed.

Lemma brackets_model_range (m : object) (k : string) :
  k = "page" \/ k = "limit" ->
  forallb brackets_entry_ok m = true -> absent_or_positive (get m k) = true.
Proof.
  intros Hk. unfold get. induction m as [|[a v] m IH]; [reflexivity|].
  cbn [forallb lookup]. intros H. apply andb_true_iff in H as [He Hm].
  destruct (String.eqb_spec a k) as [->|_]; [|exact (IH Hm)].
  unfold brackets_entry_ok in He.
  destruct Hk as [-> | ->]; simpl in He;
    destruct v as [| | |[z| | |]| | |]; try discriminate;
    unfold safe_positive in He; apply andb_true_iff in He as [Hlo _];
    exact Hlo.
Qed.

Lemma brackets_model_regular (m : object) (opts : BuilderOptions) :
  forallb brackets_entry_ok m = true -> regular opts m = true.
Proof.
  unfold regular. induction m as [|[k v] m IH]; [reflexivity|].
  cbn [forallb]. intros H. apply andb_true_iff in H as [He Hm].
  rewrite (IH Hm), andb_true_r. clear IH Hm. unfold brackets_entry_ok in He.
  destruct (String.eqb k "page" || String.eqb k "limit");
    [apply scalar_regular; now destruct v as [| | |[]| | |]|].
  destruct (String.eqb k "search");
    [apply scalar_regular; now destruct v|].
  destruct (String.eqb k "vacuum");
    [apply scalar_regular; now destruct v|].
  unfold regular_entry. cbn [fst snd].
  destruct (existsb (String.eqb k) list_keys).
  - destruct v as [| | | | |[|a r]|]; try discriminate.
    rewrite skip_array. now rewrite sequence_regular.
  - destruct (existsb (String.eqb k) multi_valued_operators); [|discriminate].
    destruct v as [| | | | | |[|e r]]; try discriminate.
    rewrite skip_object. cbn [negb andb].
    apply andb_true_iff in He as [He _].
    apply forallb_forall. intros fe Hin.
    rewrite forallb_forall in He. specialize (He fe Hin).
    unfold brackets_field_ok in He. apply andb_true_iff in He as [_ He].
    unfold regular_field. destruct (snd fe) as [| | | | |[|a l]|];
      try discriminate.
    rewrite skip_array. now rewrite sequence_regular.
Qed.

(** X4: under the [brackets] format with percent-encoding, a model with
    distinct keys made of [page] and [limit] (safe integers of at least 1),
    [search] (a non-empty string), [vacuum] (a boolean), non-empty
    sequences of strings under [sort], [isnull] or [isnotnull] and
    multi-valued operator maps ([likeor], [likeand], [eqor], [eqand], [in],
    [notin], [between]), each a non-empty mapping from distinct field names
    (non-empty, without a closing bracket, not a run of digits, not a
    member of [Object.prototype]) to non-empty sequences of strings, is
    encoded to a query string that decodes to the same model; a nested
    sequence of one element comes back as a sequence.  When a field name or
    a string of the model holds a lone surrogate the encoder throws the
    [URIError] of [encodeURIComponent] instead. *)
Theorem brackets_roundtrip (stn : string -> number) (m : object)
  (opts : BuilderOptions) :
  arrayFormat opts = Some brackets -> encodeValues opts <> Some false ->
  brackets_model m = true ->
  if encodable (merge_options DEFAULT_OPTIONS opts) m then
    exists queryString,
      toQueryString stn m opts = Ok queryString
      /\ fromQueryString stn queryString = Ok m
  else toQueryString stn m opts = Throw URIError.
Proof.
  intros Hf He H. unfold brackets_model in H.
  apply andb_true_iff in H as [Hok Hd].
  set (merged := merge_options DEFAULT_OPTIONS opts).
  assert (Hf' : arrayFormat merged = Some brackets) by (cbn; now rewrite Hf).
  assert (Hr : readable_options merged = true).
  { unfold readable_options, separator_text. rewrite Hf'.
    cbn. now destruct (encodeValues opts) as [[|]|]. }
  assert (Hv : validatePaginationParams stn m = Ok tt)
    by (apply validation_accepts; apply brackets_model_range; auto).
  unfold toQueryString. fold merged. rewrite Hv. cbn [bind].
  rewrite (buildQueryString_regular m merged
             (brackets_model_regular m merged Hok)).
  destruct (encodable merged m); [|reflexivity].
  exists (query_text m merged). split; [reflexivity|].
  unfold fromQueryString, fromPairs, decode_pairs.
  rewrite (URLSearchParams_query_text m merged Hr).
  assert (Hpairs : map (wire_pair (separator_text merged)) (model_wires m merged)
                   = flat_map brackets_entry_pairs m).
  { unfold model_wires. clear Hd Hv.
    induction m as [|e m IH]; [reflexivity|].
    cbn [forallb flat_map] in *. apply andb_true_iff in Hok as [Hoe Hom].
    now rewrite map_app, (IH Hom), (brackets_entry_wires merged e Hf' Hoe). }
  rewrite Hpairs.
  rewrite (decode_each_entry brackets_entry_ok brackets_entry_pairs
             decode_brackets_entry m [] Hok Hd).
  + cbn [bind]. rewrite !app_nil_l, Hv. reflexivity.
  + apply Forall_forall. reflexivity.
Qed.

Lemma brackets_roundtrip_witness :
  exists queryString,
    toQueryString decimal_StringToNumber
      [("page", VNumber (NInt 2)); ("isnull", VArray [VString "deleted at"]);
       ("in", VObject [("dept", VArray [VString "7"])])]
      {| encodeValues := None; arrayFormat := Some brackets;
         arraySeparator := None; skipNulls := None; skipEmptyString := None |}
    = Ok queryString
    /\ fromQueryString decimal_StringToNumber queryString
       = Ok [("page", VNumber (NInt 2)); ("isnull", VArray [VString "deleted at"]);
             ("in", VObject [("dept", VArray [VString "7"])])].
Proof.
  refine (brackets_roundtrip decimal_StringToNumber
            [("page", VNumber (NInt 2)); ("isnull", VArray [VString "deleted at"]);
             ("in", VObject [("dept", VArray [VString "7"])])]
            {| encodeValues := None; arrayFormat := Some brackets;
               arraySeparator := None; skipNulls := None;
               skipEmptyString := None |} eq_refl _ eq_refl).
  discriminate.
Defined.

(** ** The [indices] format and operator maps *)

Lemma decode_pair_no_pattern (p : object) (key v : string) :
  no_pattern key = true -> decode_pair p (key, v) = Ok p.
Proof.
  unfold no_pattern, decode_pair. intros Hk.
  destruct (includes "[" key && includes "]" key); [|discriminate].
  cbn [andb] in Hk.
  destruct (indexMatch key); [discriminate|].
  destruct (nestedArrayMatch key); [discriminate|].
  destruct (nestedObjectMatch key); [discriminate|].
  now destruct (endsWith key "[]").
Qed.

Lemma decode_pairs_no_pattern (l : list (string * string)) (p : object) :
  Forall (fun e => no_pattern (fst e) = true) l ->
  fold_outcome decode_pair l p = Ok p.
Proof.
  intros H. induction H as [|[k v] l Hk _ IH]; [reflexivity|].
  cbn [fold_outcome]. now rewrite (decode_pair_no_pattern p k v Hk).
Qed.

Lemma length_append (a b : string) :
  String.length (a ++ b) = (String.length a + String.length b)%nat.
Proof. induction a as [|c a IH]; [reflexivity|]. cbn. now rewrite IH. Qed.

Lemma substring_append (a b : string) (n : nat) :
  substring (String.length a) n (a ++ b) = substring 0 n b.
Proof. induction a as [|c a IH]; [reflexivity|]. exact IH. Qed.

Lemma endsWith_two (a : string) (c e x y : ascii) :
  endsWith (a ++ String c (String e "")) (String x (String y ""))
  = Ascii.eqb c x && Ascii.eqb e y.
Proof.
  unfold endsWith. rewrite length_append. cbn [String.length].
  replace (String.length a + 2 - 2)%nat with (String.length a) by lia.
  rewrite substring_append. cbn [substring String.eqb].
  replace (2 <=? String.length a + 2)%nat with true
    by (symmetry; apply Nat.leb_le; lia).
  cbn [andb]. now destruct (Ascii.eqb c x), (Ascii.eqb e y).
Qed.

Lemma last_digit (s : string) :
  is_empty s = false -> all_chars is_digit s = true ->
  exists init c, s = init ++ String c "" /\ is_digit c = true.
Proof.
  induction s as [|d [|e s] IH]; [discriminate| |].
  - intros _ H. exists "", d. cbn in H. rewrite andb_true_r in H. now split.
  - intros _ H. cbn [all_chars] in H. apply andb_true_iff in H as [Hd Hs].
    destruct (IH eq_refl Hs) as (init & c & E & Hc).
    exists (String d init), c. split; [|exact Hc]. cbn [append]. now rewrite <- E.
Qed.

Lemma nat_to_string_not_empty (n : nat) : is_empty (nat_to_string n) = false.
Proof.
  unfold nat_to_string, NilZero.string_of_uint.
  pose proof (DecimalString.NilEmpty.usu (Nat.to_uint n)) as H.
  destruct (Nat.to_uint n) eqn:E; try reflexivity.
Qed.

Lemma nested_index_key (k f : string) (i : nat) :
  is_empty k = false -> includes "[" k = false ->
  is_empty f = false -> includes "]" f = false ->
  no_pattern (nested_key k f ++ "[" ++ nat_to_string i ++ "]") = true.
Proof.
  intros Hk Hk' Hf Hf'.
  destruct (last_digit _ (nat_to_string_not_empty i) (nat_to_string_digits i))
    as (init & c & E & Hc).
  set (tail := "[" ++ nat_to_string i ++ "]").
  assert (Hkey : nested_key k f ++ tail = k ++ String "[" (f ++ String "]" tail)).
  { unfold nested_key. now rewrite !append_assoc. }
  assert (Htail : is_empty tail = false /\ String.eqb tail "[]" = false).
  { unfold tail. split; [reflexivity|]. apply String.eqb_neq. intros Heq.
    apply (f_equal String.length) in Heq.
    rewrite E, !length_append in Heq. cbn [String.length] in Heq. lia. }
  destruct Htail as [Hne Hnb].
  assert (Hends : endsWith (nested_key k f ++ tail) "[]" = false).
  { unfold tail. rewrite E.
    replace (nested_key k f ++ "[" ++ (init ++ String c "") ++ "]")
      with ((nested_key k f ++ "[" ++ init) ++ String c (String "]" ""))
      by (now rewrite !append_assoc).
    rewrite endsWith_two.
    destruct (Ascii.eqb_spec c "[") as [->|_]; [discriminate | reflexivity]. }
  unfold no_pattern. rewrite Hends. rewrite Hkey.
  unfold indexMatch, nestedArrayMatch, nestedObjectMatch, nestedShape.
  rewrite (split_first_append "[" k _ Hk'), (split_first_append "]" f _ Hf').
  rewrite Hk, Hf, Hne, !andb_false_r. cbn [negb andb]. rewrite Hnb.
  rewrite !includes_append. cbn [includes Ascii.eqb Bool.eqb negb andb orb].
  rewrite !includes_append. cbn [includes Ascii.eqb Bool.eqb negb andb orb].
  now rewrite !orb_true_r.
Qed.

Lemma indexed_wires_no_pattern (k f : string) (vs : list value) (i : nat) :
  is_empty k = false -> includes "[" k = false ->
  is_empty f = false -> includes "]" f = false ->
  Forall (fun e => no_pattern (fst e) = true)
    (map (wire_pair ",")
       (map_indexed
          (fun v index => {| wire_key := nested_key k f;
                             wire_suffix := "[" ++ nat_to_string index ++ "]";
                             wire_values := [text_of v] |}) i vs)).
Proof.
  intros Hk Hk' Hf Hf'. revert i.
  induction vs as [|v vs IH]; intros i; constructor; [|apply IH].
  now apply nested_index_key.
Qed.

Lemma operator_map_wires_no_pattern (opts : BuilderOptions) (k : string)
  (nested : object) :
  arrayFormat opts = Some indices ->
  is_empty k = false -> includes "[" k = false ->
  forallb sequence_field nested = true ->
  Forall (fun e => no_pattern (fst e) = true)
    (map (wire_pair (separator_text opts)) (entry_wires opts (k, VObject nested))).
Proof.
  intros Hf Hk Hk' Hn.
  assert (Hq : is_empty (camelToSnakeCase k) = false
               /\ includes "[" (camelToSnakeCase k) = false).
  { unfold camelToSnakeCase. destruct (String.eqb k "searchFields"); auto. }
  destruct Hq as [Hq Hq'].
  rewrite separator_text_default by (rewrite Hf; discriminate).
  unfold entry_wires.
  replace (shouldSkipValue (VObject nested) opts) with false
    by (unfold shouldSkipValue; now rewrite !andb_false_r).
  induction nested as [|[f v] nested IH]; [constructor|].
  cbn [forallb flat_map] in *. apply andb_true_iff in Hn as [He Hn].
  rewrite map_app. apply Forall_app. split; [|exact (IH Hn)].
  unfold sequence_field in He. cbn [fst snd] in He.
  apply andb_true_iff in He as [He Hv]. apply andb_true_iff in He as [Hfe Hfb].
  apply negb_true_iff in Hfe, Hfb.
  destruct v as [| | | | |vs|]; try discriminate.
  unfold nested_wires. rewrite skip_array. unfold array_wires. rewrite Hf.
  now apply indexed_wires_no_pattern.
Qed.

Lemma operator_map_not_decoded (stn : string -> number)
  (before after nested : object) (k : string) (opts : BuilderOptions) :
  arrayFormat opts = Some indices -> encodeValues opts <> Some false ->
  is_empty k = false -> includes "[" k = false ->
  forallb sequence_field nested = true ->
  fromQueryString stn
    (query_text (before ++ (k, VObject nested) :: after)%list opts)
  = fromQueryString stn (query_text (before ++ after)%list opts).
Proof.
  intros Hf He Hk Hk' Hn.
  assert (Hr : readable_options opts = true).
  { unfold readable_options.
    rewrite separator_text_default by (rewrite Hf; discriminate).
    now destruct (encodeValues opts) as [[|]|]. }
  unfold fromQueryString, fromPairs, decode_pairs.
  rewrite !(URLSearchParams_query_text _ opts Hr).
  unfold model_wires. rewrite !flat_map_app. cbn [flat_map].
  rewrite !map_app, !fold_outcome_app.
  destruct (fold_outcome decode_pair
              (map (wire_pair (separator_text opts))
                 (flat_map (entry_wires opts) before)) []) as [p| |];
    cbn [bind]; try reflexivity.
  rewrite fold_outcome_app.
  now rewrite (decode_pairs_no_pattern _ p
                 (operator_map_wires_no_pattern opts k nested Hf Hk Hk' Hn)).
Qed.

Lemma buildQueryString_without (before after : object) (entry : string * value)
  (opts : BuilderOptions) (queryString : string) :
  buildQueryString (before ++ entry :: after)%list opts = Ok queryString ->
  exists without, buildQueryString (before ++ after)%list opts = Ok without.
Proof.
  unfold buildQueryString, objectToQueryParams.
  rewrite !flat_map_outcome_app. cbn [flat_map_outcome].
  destruct (flat_map_outcome (entryParams opts) before) as [tb| |];
    cbn [bind]; try discriminate.
  destruct (entryParams opts entry) as [te| |]; cbn [bind]; try discriminate.
  destruct (flat_map_outcome (entryParams opts) after) as [ta| |];
    cbn [bind]; try discriminate.
  intros _. eexists. reflexivity.
Qed.

(** X5: under the [indices] format the decoder loses operator maps: the
    tokens [key[field][i]=value] of an operator map whose fields hold
    sequences match none of its patterns.  The encoder returns a query
    string on every model whose keys and values it can convert, and whenever
    it returns one for a model with such a map, it returns one for the model
    without the map, and the two query strings decode alike. *)
Theorem indices_lose_operator_maps (stn : string -> number)
  (before after nested : object) (k : string) (opts : BuilderOptions) :
  arrayFormat opts = Some indices -> encodeValues opts <> Some false ->
  is_empty k = false -> includes "[" k = false ->
  forallb sequence_field nested = true ->
  (encodable opts (before ++ (k, VObject nested) :: after)%list = true ->
   exists queryString,
     buildQueryString (before ++ (k, VObject nested) :: after)%list opts
     = Ok queryString)
  /\ forall queryString,
       buildQueryString (before ++ (k, VObject nested) :: after)%list opts
       = Ok queryString ->
       exists without,
         buildQueryString (before ++ after)%list opts = Ok without
         /\ fromQueryString stn queryString = fromQueryString stn without.
Proof.
  intros Hf He Hk Hk' Hn. split.
  - intros Hm. eexists. exact (buildQueryString_returns _ opts Hm).
  - intros queryString H.
    destruct (buildQueryString_without before after _ opts queryString H)
      as [without Hw].
    exists without. split; [exact Hw|].
    rewrite (buildQueryString_text _ opts queryString H).
    rewrite (buildQueryString_text _ opts without Hw).
    now apply operator_map_not_decoded.
Qed.

Lemma indices_lose_operator_maps_witness :
  exists without,
    buildQueryString [("page", VNumber (NInt 1))]
      {| encodeValues := Some true; arrayFormat := Some indices;
         arraySeparator := None; skipNulls := None; skipEmptyString := None |}
    = Ok without
    /\ fromQueryString decimal_StringToNumber
         "page=1&likeor%5Bstatus%5D[0]=active&likeor%5Bstatus%5D[1]=pending"
       = fromQueryString decimal_StringToNumber without.
Proof.
  apply (indices_lose_operator_maps decimal_StringToNumber
           [("page", VNumber (NInt 1))] []
           [("status", VArray [VString "active"; VString "pending"])] "likeor"
           {| encodeValues := Some true; arrayFormat := Some indices;
              arraySeparator := None; skipNulls := None;
              skipEmptyString := None |});
    (reflexivity || discriminate).
Defined.

(** ** Sort strings *)

Lemma split_all_not_nil (c : ascii) (s : string) : split_all c s <> [].
Proof.
  induction s as [|d r IH]; simpl; [discriminate|].
  destruct (Ascii.eqb d c); [discriminate|].
  now destruct (split_all c r).
Qed.

Lemma split_all_present (c : ascii) (s : string) :
  includes c s = true ->
  exists a b l, split_all c s = a :: b :: l /\ includes c a = false.
Proof.
  induction s as [|d r IH]; simpl; [discriminate|].
  destruct (Ascii.eqb d c) eqn:Hd; simpl.
  - intros _. destruct (split_all c r) as [|b l] eqn:E.
    + now apply split_all_not_nil in E.
    + now exists EmptyString, b, l.
  - intros H. destruct (IH H) as (a & b & l & -> & Ha).
    exists (String d a), b, l. simpl. now rewrite Hd, Ha.
Qed.

Lemma substring_all (s : string) : substring 0 (String.length s) s = s.
Proof. induction s as [|c s IH]; simpl; [reflexivity | now rewrite IH]. Qed.

Lemma startsWith_char_append (c : ascii) (a b : string) :
  startsWith_char c a = false -> startsWith_char c b = false ->
  startsWith_char c (a ++ b) = false.
Proof. now destruct a. Qed.

(** X6: the three notations of a sort string.  For a field that does not
    begin with [-] and holds no colon, [parseSortString] reads the bare field
    as ascending, the field behind [-] (what [sortDesc] stores) as
    descending, and [field:direction] as descending exactly when the
    direction is [desc] in any letter case. *)
Theorem parseSortString_notations (f d : string) :
  startsWith_char "-" f = false ->
  includes ":" f = false ->
  includes ":" d = false ->
  parseSortString f = Ok {| field := f; direction := asc |}
  /\ parseSortString ("-" ++ f) = Ok {| field := f; direction := desc |}
  /\ parseSortString (f ++ ":" ++ d)
     = Ok {| field := f;
             direction := if String.eqb (toLowerCase d) "desc"
                          then desc else asc |}.
Proof.
  intros Hm Hf Hd. split; [|split].
  - unfold parseSortString. now rewrite Hm, Hf.
  - unfold parseSortString. cbn [append startsWith_char String.length].
    rewrite Ascii.eqb_refl, Nat.sub_1_r. cbn [Nat.pred substring].
    now rewrite substring_all.
  - unfold parseSortString.
    rewrite (startsWith_char_append "-" f (":" ++ d) Hm eq_refl).
    replace (includes ":" (f ++ ":" ++ d)) with true
      by (rewrite includes_append; simpl; now rewrite orb_true_r).
    change (f ++ ":" ++ d) with (f ++ String ":" d).
    now rewrite (split_all_append ":" f d Hf), (split_all_absent ":" d Hd).
Qed.

Lemma parseSortString_notations_witness :
  parseSortString "created_at" = Ok {| field := "created_at"; direction := asc |}
  /\ parseSortString ("-" ++ "created_at")
     = Ok {| field := "created_at"; direction := desc |}
  /\ parseSortString ("created_at" ++ ":" ++ "DESC")
     = Ok {| field := "created_at";
             direction := if String.eqb (toLowerCase "DESC") "desc"
                          then desc else asc |}.
Proof. apply (parseSortString_notations "created_at" "DESC"); reflexivity. Defined.

(** X7: [parseSortString] returns on every string: the [TypeError] of
    [direction.toLowerCase()] cannot be reached.  A leading [-] takes
    precedence over a [:direction] suffix, which then stays in the field:
    the field is everything behind the [-] and the direction is [desc].  In
    every other case, that is for every string that does not begin with
    [-], the field holds no colon. *)
Theorem parseSortString_returns (sortStr : string) :
  exists c, parseSortString sortStr = Ok c
    /\ (forall rest, sortStr = ("-" ++ rest)%string ->
          c = {| field := rest; direction := desc |})
    /\ (startsWith_char "-" sortStr = false -> includes ":" (field c) = false)
    /\ (direction c = desc \/ includes ":" (field c) = false).
Proof.
  unfold parseSortString. destruct (startsWith_char "-" sortStr) eqn:Hm.
  - eexists. split; [reflexivity|]. split; [|split; [discriminate | now left]].
    intros rest ->. cbn [append String.length].
    rewrite Nat.sub_1_r. cbn [Nat.pred substring]. now rewrite substring_all.
  - assert (Hrest : forall rest, sortStr = ("-" ++ rest)%string -> False).
    { intros rest ->. discriminate Hm. }
    destruct (includes ":" sortStr) eqn:Hc.
    + destruct (split_all_present ":" sortStr Hc) as (a & b & l & -> & Ha).
      eexists. split; [reflexivity|].
      split; [|split; [intros _; exact Ha | right; exact Ha]].
      intros rest E. now destruct (Hrest rest E).
    + eexists. split; [reflexivity|].
      split; [|split; [intros _; exact Hc | right; exact Hc]].
      intros rest E. now destruct (Hrest rest E).
Qed.

Lemma parseSortString_returns_witness :
  exists c, parseSortString "name:desc:x" = Ok c
    /\ (forall rest, "name:desc:x" = ("-" ++ rest)%string ->
          c = {| field := rest; direction := desc |})
    /\ (startsWith_char "-" "name:desc:x" = false
        -> includes ":" (field c) = false)
    /\ (direction c = desc \/ includes ":" (field c) = false).
Proof. apply (parseSortString_returns "name:desc:x"). Defined.

(** ** Merging parameter objects *)

Section ValuesOfAnObject.

Variable Q : value -> Prop.

Let holds (o : object) : Prop := Forall (fun e => Q (snd e)) o.

Lemma replace_entry_values (o : object) (k : string) (v : value) :
  holds o -> Q v -> holds (replace_entry o k v).
Proof.
  intros Ho Hv. induction Ho as [|[a x] o Hx Ho IH]; cbn [replace_entry].
  - constructor.
  - destruct (String.eqb a k); constructor; cbn [snd]; auto.
Qed.

Lemma insert_index_values (i : Z) (o : object) (k : string) (v : value) :
  holds o -> Q v -> holds (insert_index i k v o).
Proof.
  intros Ho Hv. induction Ho as [|[a x] o Hx Ho IH]; cbn [insert_index].
  - now repeat constructor.
  - destruct (array_index a) as [j|]; [destruct (i <? j)%Z|];
      repeat (constructor; cbn [snd]; auto).
Qed.

Lemma obj_set_values (o : object) (k : string) (v : value) :
  holds o -> Q v -> holds (obj_set o k v).
Proof.
  intros Ho Hv. unfold obj_set. destruct (lookup o k).
  - now apply replace_entry_values.
  - destruct (array_index k).
    + now apply insert_index_values.
    + apply Forall_app. split; [exact Ho | now repeat constructor].
Qed.

Lemma assign_values (o o' : object) (k : string) (v : value) :
  holds o -> Q v -> assign o k v = Ok o' -> holds o'.
Proof.
  intros Ho Hv. unfold assign. destruct (String.eqb k "__proto__").
  - destruct (_ && _); [|discriminate]. now intros [= <-].
  - intros [= <-]. now apply obj_set_values.
Qed.

End ValuesOfAnObject.

Lemma merge_entry_values (result result' : object) (entry : string * value) :
  Forall (fun e => nullish (snd e) = false) result ->
  merge_entry result entry = Ok result' ->
  Forall (fun e => nullish (snd e) = false) result'.
Proof.
  intros Hr. destruct entry as [k v]. unfold merge_entry.
  destruct (nullish v) eqn:Hv; [now intros [= <-]|].
  pose proof (assign_values (fun x => nullish x = false) result result') as A.
  destruct (lookup result k) as [existing|]; [|now apply A].
  destruct (String.eqb k "__proto__"); [discriminate|].
  destruct v; try discriminate Hv; try (now apply A).
  - destruct existing; now apply A.
  - destruct (typeof_object existing); [|now apply A].
    destruct (spread [] existing) as [copy| |]; cbn [bind]; try discriminate.
    destruct (spread copy (VObject entries)) as [merged| |]; cbn [bind];
      try discriminate.
    now apply A.
Qed.

Lemma merge_object_values (p result result' : object) :
  Forall (fun e => nullish (snd e) = false) result ->
  fold_outcome merge_entry p result = Ok result' ->
  Forall (fun e => nullish (snd e) = false) result'.
Proof.
  revert result. induction p as [|e p IH]; intros result Hr; cbn [fold_outcome].
  - now intros [= <-].
  - destruct (merge_entry result e) as [r1| |] eqn:E; cbn [bind];
      try discriminate.
    apply IH. exact (merge_entry_values result r1 e Hr E).
Qed.

(** X8: whatever objects are merged, no key of the result of [mergeParams]
    holds [null] or [undefined]: such entries of the arguments are passed
    over, and they never erase an earlier value. *)
Theorem mergeParams_no_null (paramObjects : list object) (result : object) :
  mergeParams paramObjects = Ok result ->
  Forall (fun e => nullish (snd e) = false) result.
Proof.
  unfold mergeParams.
  assert (H : forall start, Forall (fun e => nullish (snd e) = false) start ->
            fold_outcome (fun r p => fold_outcome merge_entry p r)
              paramObjects start = Ok result ->
            Forall (fun e => nullish (snd e) = false) result).
  { induction paramObjects as [|p ps IH]; intros start Hs; cbn [fold_outcome].
    - now intros [= <-].
    - destruct (fold_outcome merge_entry p start) as [r1| |] eqn:E;
        cbn [bind]; try discriminate.
      apply IH. exact (merge_object_values p start r1 Hs E). }
  apply H. constructor.
Qed.

Lemma mergeParams_no_null_witness :
  Forall (fun e => nullish (snd e) = false)
    [("page", VNumber (NInt 2)); ("search", VString "x")].
Proof.
  apply (mergeParams_no_null
           [[("page", VNumber (NInt 1)); ("search", VString "x")];
            [("page", VNumber (NInt 2)); ("search", VNull);
             ("limit", VUndefined)]]).
  reflexivity.
Defined.

Lemma distinct_lookup (k : string) (v : value) (o : object) :
  distinct (map fst ((k, v) :: o)) = true ->
  lookup o k = None /\ distinct (map fst o) = true.
Proof.
  intros H. apply distinct_cons in H as [Hne Hd]. split; [|exact Hd].
  clear Hd. induction o as [|[a x] o IH]; [reflexivity|].
  cbn [map fst] in Hne. inversion Hne as [|? ? Ha Ho]; subst.
  cbn [lookup]. rewrite String.eqb_sym, Ha. now apply IH.
Qed.

Lemma lookup_define_all (l into : object) (k : string) :
  distinct (map fst l) = true ->
  lookup (define_all l into) k
  = match lookup l k with Some v => Some v | None => lookup into k end.
Proof.
  revert into. induction l as [|[a x] l IH]; intros into Hd; [reflexivity|].
  apply distinct_lookup in Hd as [Ha Hd].
  change (define_all ((a, x) :: l) into) with (define_all l (obj_set into a x)).
  rewrite (IH _ Hd), lookup_obj_set. cbn [lookup].
  destruct (String.eqb_spec a k) as [->|_]; [now rewrite Ha | reflexivity].
Qed.

Lemma merge_entry_present (result : object) (k : string) (v : value) :
  k <> "__proto__" -> nullish v = false ->
  merge_entry result (k, v)
  = Ok (obj_set result k (merged_with (lookup result k) v)).
Proof.
  intros Hk Hv. apply String.eqb_neq in Hk.
  unfold merge_entry, assign. rewrite Hv, Hk.
  destruct (lookup result k) as [existing|]; [|now destruct v].
  destruct v; try discriminate Hv; try (now destruct existing).
Qed.

Lemma merge_object_lookup (p : object) :
  distinct (map fst p) = true -> lookup p "__proto__" = None ->
  forall result, exists result',
    fold_outcome merge_entry p result = Ok result'
    /\ forall k, lookup result' k
                 = match present (lookup p k) with
                   | Some v => Some (merged_with (lookup result k) v)
                   | None => lookup result k
                   end.
Proof.
  induction p as [|[a x] p IH]; intros Hd Hp result.
  - exists result. now split.
  - apply distinct_lookup in Hd as [Ha Hd]. cbn [lookup] in Hp.
    destruct (String.eqb_spec a "__proto__") as [|Hne]; [discriminate|].
    cbn [fold_outcome].
    destruct (nullish x) eqn:Hx.
    + unfold merge_entry at 1. rewrite Hx. cbn [bind].
      destruct (IH Hd Hp result) as (r' & E & L). exists r'. split; [exact E|].
      intros k. rewrite L. cbn [lookup].
      destruct (String.eqb_spec a k) as [->|_]; [|reflexivity].
      rewrite Ha. cbn [present]. now rewrite Hx.
    + rewrite (merge_entry_present result a x Hne Hx). cbn [bind].
      destruct (IH Hd Hp (obj_set result a (merged_with (lookup result a) x)))
        as (r' & E & L).
      exists r'. split; [exact E|].
      intros k. rewrite L, lookup_obj_set. cbn [lookup].
      destruct (String.eqb_spec a k) as [->|_]; [|reflexivity].
      rewrite Ha. cbn [present]. now rewrite Hx.
Qed.

Lemma mergeParams_two (a b : object) :
  distinct (map fst a) = true -> distinct (map fst b) = true ->
  lookup a "__proto__" = None -> lookup b "__proto__" = None ->
  exists result, mergeParams [a; b] = Ok result
    /\ forall k, lookup result k
                 = match present (lookup b k) with
                   | Some v => Some (merged_with (present (lookup a k)) v)
                   | None => present (lookup a k)
                   end.
Proof.
  intros Da Db Pa Pb. unfold mergeParams. cbn [fold_outcome].
  destruct (merge_object_lookup a Da Pa []) as (ra & Ea & La).
  rewrite Ea. cbn [bind].
  destruct (merge_object_lookup b Db Pb ra) as (r & Eb & Lb).
  rewrite Eb. cbn [bind]. exists r. split; [reflexivity|].
  assert (La' : forall k, lookup ra k = present (lookup a k)).
  { intros k. rewrite La. cbn [lookup].
    destruct (present (lookup a k)) as [v|]; [|reflexivity].
    now destruct v. }
  intros k. now rewrite Lb, La'.
Qed.

(** X9: merging two objects, key by key.  A key that the second object
    lacks, or holds as [null] or [undefined], keeps the value of the first;
    a number, string or boolean of the second replaces what was there; two
    sequences are concatenated; two maps are merged one level deep, a field
    of the second replacing the same field of the first (sequences inside
    the maps are not concatenated). *)
Theorem mergeParams_key_by_key (a b : object) :
  distinct (map fst a) = true -> distinct (map fst b) = true ->
  lookup a "__proto__" = None -> lookup b "__proto__" = None ->
  exists result, mergeParams [a; b] = Ok result
    /\ forall k,
         (present (lookup b k) = None -> lookup result k = present (lookup a k))
         /\ (forall v, lookup b k = Some v -> nullish v = false ->
               typeof_object v = false -> lookup result k = Some v)
         /\ (forall xs ys, lookup a k = Some (VArray xs) ->
               lookup b k = Some (VArray ys) ->
               lookup result k = Some (VArray (xs ++ ys)))
         /\ (forall o o', lookup a k = Some (VObject o) ->
               lookup b k = Some (VObject o') ->
               distinct (map fst o) = true -> distinct (map fst o') = true ->
               exists m, lookup result k = Some (VObject m)
                 /\ forall f, lookup m f
                              = match lookup o' f with
                                | Some x => Some x
                                | None => lookup o f
                                end).
Proof.
  intros Da Db Pa Pb.
  destruct (mergeParams_two a b Da Db Pa Pb) as (result & E & L).
  exists result. split; [exact E|]. intros k. specialize (L k).
  split; [|split; [|split]].
  - intros H. now rewrite H in L.
  - intros v Hb Hv Ht. rewrite Hb in L. cbn [present] in L. rewrite Hv in L.
    rewrite L. f_equal.
    destruct v; try discriminate Hv; try discriminate Ht;
      now destruct (present (lookup a k)) as [[]|].
  - intros xs ys Ha Hb. now rewrite Ha, Hb in L.
  - intros o o' Ha Hb Do Do'. rewrite Ha, Hb in L.
    cbn [present nullish merged_with] in L.
    eexists. split; [exact L|].
    intros f. rewrite (lookup_define_all o' _ f Do').
    rewrite (lookup_define_all o [] f Do).
    destruct (lookup o' f); [reflexivity|]. now destruct (lookup o f).
Qed.

Lemma mergeParams_key_by_key_witness :
  exists result,
    mergeParams
      [[("page", VNumber (NInt 1)); ("sort", VArray [VString "name"]);
        ("likeor", VObject [("status", VArray [VString "active"])])];
       [("page", VNumber (NInt 2)); ("sort", VArray [VString "-id"]);
        ("likeor", VObject [("status", VArray [VString "pending"])]);
        ("search", VNull)]] = Ok result
    /\ forall k,
         (present
            (lookup
               [("page", VNumber (NInt 2)); ("sort", VArray [VString "-id"]);
                ("likeor", VObject [("status", VArray [VString "pending"])]);
                ("search", VNull)] k) = None ->
          lookup result k
          = present
              (lookup
                 [("page", VNumber (NInt 1)); ("sort", VArray [VString "name"]);
                  ("likeor", VObject [("status", VArray [VString "active"])])]
                 k))
         /\ (forall v,
               lookup
                 [("page", VNumber (NInt 2)); ("sort", VArray [VString "-id"]);
                  ("likeor", VObject [("status", VArray [VString "pending"])]);
                  ("search", VNull)] k = Some v ->
               nullish v = false -> typeof_object v = false ->
               lookup result k = Some v)
         /\ (forall xs ys,
               lookup
                 [("page", VNumber (NInt 1)); ("sort", VArray [VString "name"]);
                  ("likeor", VObject [("status", VArray [VString "active"])])]
                 k = Some (VArray xs) ->
               lookup
                 [("page", VNumber (NInt 2)); ("sort", VArray [VString "-id"]);
                  ("likeor", VObject [("status", VArray [VString "pending"])]);
                  ("search", VNull)] k = Some (VArray ys) ->
               lookup result k = Some (VArray (xs ++ ys)))
         /\ (forall o o',
               lookup
                 [("page", VNumber (NInt 1)); ("sort", VArray [VString "name"]);
                  ("likeor", VObject [("status", VArray [VString "active"])])]
                 k = Some (VObject o) ->
               lookup
                 [("page", VNumber (NInt 2)); ("sort", VArray [VString "-id"]);
                  ("likeor", VObject [("status", VArray [VString "pending"])]);
                  ("search", VNull)] k = Some (VObject o') ->
               distinct (map fst o) = true -> distinct (map fst o') = true ->
               exists m, lookup result k = Some (VObject m)
                 /\ forall f, lookup m f
                              = match lookup o' f with
                                | Some x => Some x
                                | None => lookup o f
                                end).
Proof.
  apply (mergeParams_key_by_key
           [("page", VNumber (NInt 1)); ("sort", VArray [VString "name"]);
            ("likeor", VObject [("status", VArray [VString "active"])])]
           [("page", VNumber (NInt 2)); ("sort", VArray [VString "-id"]);
            ("likeor", VObject [("status", VArray [VString "pending"])]);
            ("search", VNull)]);
    reflexivity.
Defined.

(** ** The setters of the builder, called twice *)

Lemma nested_object_obj_set (p : object) (op : string) (o : object) :
  nested_object (obj_set p op (VObject o)) op = Ok o.
Proof.
  unfold nested_object. now rewrite lookup_obj_set, String.eqb_refl.
Qed.

Lemma spread_append_array (existing : option value) (xs : list value)
  (arr : value) :
  spread_append existing xs = Ok arr -> exists l, arr = VArray l.
Proof.
  unfold spread_append. destruct existing as [x|]; [|intros [= <-]; eauto].
  destruct (truthy x); [|intros [= <-]; eauto].
  destruct x; try discriminate. intros [= <-]. eauto.
Qed.

Lemma spread_append_twice (existing : option value) (xs ys : list value) :
  (arr <- spread_append existing xs ;; spread_append (Some arr) ys)
  = spread_append existing (xs ++ ys)%list.
Proof.
  unfold spread_append. destruct existing as [x|]; [|reflexivity].
  destruct (truthy x); [|reflexivity].
  destruct x; try reflexivity. cbn [bind truthy]. now rewrite <- app_assoc.
Qed.

Lemma set_list_twice (key : string) (xs ys : list string)
  (b : PaginateBuilder) :
  (b1 <- set_list key xs b ;; set_list key ys b1)
  = set_list key (xs ++ ys)%list b.
Proof.
  unfold set_list.
  rewrite map_app, <- (spread_append_twice (lookup (params b) key)).
  destruct (spread_append (lookup (params b) key) (map VString xs))
    as [arr| |]; cbn [bind]; try reflexivity.
  cbn [with_params params]. rewrite lookup_obj_set, String.eqb_refl.
  destruct (spread_append (Some arr) (map VString ys)) as [arr'| |];
    cbn [bind]; try reflexivity.
  unfold with_params. cbn [params options baseUrl]. now rewrite obj_set_twice.
Qed.

Lemma set_multi_twice (op f : string) (xs ys : list value)
  (b : PaginateBuilder) :
  (b1 <- set_multi op f xs b ;; set_multi op f ys b1)
  = set_multi op f (xs ++ ys)%list b.
Proof.
  unfold set_multi.
  destruct (nested_object (params b) op) as [o| |]; cbn [bind];
    try reflexivity.
  destruct (inherited f && match lookup o f with None => true | _ => false end);
    cbn [bind]; [reflexivity|].
  rewrite <- (spread_append_twice (lookup o f)).
  destruct (spread_append (lookup o f) xs) as [arr| |] eqn:Es; cbn [bind];
    try reflexivity.
  destruct (spread_append_array _ _ _ Es) as [l ->].
  unfold assign. destruct (String.eqb f "__proto__") eqn:Ef.
  - reflexivity.
  - cbn [bind spread_append truthy with_params params options baseUrl].
    rewrite nested_object_obj_set. cbn [bind].
    rewrite lookup_obj_set, String.eqb_refl, andb_false_r.
    cbn [spread_append truthy bind]. now rewrite !obj_set_twice.
Qed.

Lemma set_single_twice (op f : string) (v v' : value) (b : PaginateBuilder) :
  f <> "__proto__" ->
  (b1 <- set_single op f v b ;; set_single op f v' b1) = set_single op f v' b.
Proof.
  intros Hf. apply String.eqb_neq in Hf. unfold set_single.
  destruct (nested_object (params b) op) as [o| |]; cbn [bind];
    try reflexivity.
  unfold assign. rewrite Hf.
  cbn [bind with_params params options baseUrl].
  rewrite nested_object_obj_set. cbn [bind]. now rewrite !obj_set_twice.
Qed.

(** X10: the list-valued setters accumulate.  Two calls of [sort],
    [searchFields], [isNull] or [isNotNull] leave the builder as one call
    with the arguments of both, in order; when the first call throws, the
    single call throws the same. *)
Theorem list_setters_accumulate
  (method : list string -> PaginateBuilder -> outcome PaginateBuilder)
  (xs ys : list string) (b : PaginateBuilder) :
  In method [sort; searchFields; isNull; isNotNull] ->
  (b1 <- method xs b ;; method ys b1) = method (xs ++ ys)%list b.
Proof.
  intros [<-|[<-|[<-|[<-|[]]]]]; apply set_list_twice.
Qed.

Lemma list_setters_accumulate_witness :
  (b1 <- sort ["name"] (createPaginate no_options) ;; sort ["-created_at"] b1)
  = sort (["name"] ++ ["-created_at"])%list (createPaginate no_options).
Proof.
  apply (list_setters_accumulate sort ["name"] ["-created_at"]
           (createPaginate no_options)).
  simpl. left. reflexivity.
Defined.

(** X11: the multi-valued filters accumulate per field.  Two calls of
    [whereIn], [whereNotIn], [likeOr], [likeAnd], [equalsOr] or [equalsAnd]
    on one field leave the builder as one call with the values of both, in
    order, and fail alike. *)
Theorem multi_valued_filters_accumulate
  (method : string -> list value -> PaginateBuilder -> outcome PaginateBuilder)
  (f : string) (xs ys : list value) (b : PaginateBuilder) :
  In method [whereIn; whereNotIn; likeOr; likeAnd; equalsOr; equalsAnd] ->
  (b1 <- method f xs b ;; method f ys b1) = method f (xs ++ ys)%list b.
Proof.
  intros [<-|[<-|[<-|[<-|[<-|[<-|[]]]]]]]; apply set_multi_twice.
Qed.

Lemma multi_valued_filters_accumulate_witness :
  (b1 <- likeOr "status" [VString "active"] (createPaginate no_options) ;;
   likeOr "status" [VString "pending"] b1)
  = likeOr "status" ([VString "active"] ++ [VString "pending"])%list
      (createPaginate no_options).
Proof.
  apply (multi_valued_filters_accumulate likeOr "status" [VString "active"]
           [VString "pending"] (createPaginate no_options)).
  simpl. right. right. left. reflexivity.
Defined.

(** X12: the single-valued filters overwrite.  A second call of [like],
    [equals], [greaterThanOrEqual], [greaterThan], [lessThanOrEqual],
    [lessThan] or [between] on the same field leaves the builder as if the
    first call had not been made: only the last value is kept. *)
Theorem single_valued_filters_overwrite (f : string) (b : PaginateBuilder) :
  f <> "__proto__" ->
  (forall method v v',
      In method [like; equals; greaterThanOrEqual; greaterThan;
                 lessThanOrEqual; lessThan] ->
      (b1 <- method f v b ;; method f v' b1) = method f v' b)
  /\ (forall lo hi lo' hi',
        (b1 <- between f lo hi b ;; between f lo' hi' b1)
        = between f lo' hi' b).
Proof.
  intros Hf. split.
  - intros method v v' [<-|[<-|[<-|[<-|[<-|[<-|[]]]]]]];
      now apply set_single_twice.
  - intros lo hi lo' hi'. now apply set_single_twice.
Qed.

Lemma single_valued_filters_overwrite_witness :
  (forall method v v',
      In method [like; equals; greaterThanOrEqual; greaterThan;
                 lessThanOrEqual; lessThan] ->
      (b1 <- method "name" v (createPaginate no_options) ;; method "name" v' b1)
      = method "name" v' (createPaginate no_options))
  /\ (forall lo hi lo' hi',
        (b1 <- between "name" lo hi (createPaginate no_options) ;;
         between "name" lo' hi' b1)
        = between "name" lo' hi' (createPaginate no_options)).
Proof.
  apply (single_valued_filters_overwrite "name" (createPaginate no_options)).
  discriminate.
Defined.

(** ** Request configurations *)

Lemma lookup_absent_define_all (l into : object) (k : string) :
  lookup l k = None ->
  lookup (define_all l into) k = lookup into k.
Proof.
  revert into. induction l as [|[a x] l IH]; intros into; [reflexivity|].
  cbn [lookup]. destruct (String.eqb a k) eqn:E; [discriminate|]. intros Hk.
  change (define_all ((a, x) :: l) into) with (define_all l (obj_set into a x)).
  now rewrite (IH _ Hk), lookup_obj_set, E.
Qed.

(** X13: the request configuration of [toAxiosConfig].  Every entry of the
    configuration passed in is kept, except [params]; the new [params] holds
    every pagination parameter, which prevails over a parameter of the same
    name in the configuration, and keeps the other parameters of the
    configuration. *)
Theorem toAxiosConfig_params (stn : string -> number) (p config result : object) :
  distinct (map fst p) = true -> distinct (map fst config) = true ->
  toAxiosConfig stn p config = Ok result ->
  (forall k, k <> "params" -> lookup result k = lookup config k)
  /\ exists inner, lookup result "params" = Some (VObject inner)
       /\ (forall k v, lookup p k = Some v -> lookup inner k = Some v)
       /\ (forall q k, lookup config "params" = Some (VObject q) ->
             distinct (map fst q) = true -> lookup p k = None ->
             lookup inner k = lookup q k).
Proof.
  intros Dp Dc. unfold toAxiosConfig, request_config.
  destruct (validatePaginationParams stn p); cbn [bind]; try discriminate.
  cbn [spread bind].
  destruct (spread [] (get config "params")) as [inner0| |] eqn:Ei;
    cbn [bind]; try discriminate.
  intros [= <-]. split.
  - intros k Hk. apply String.eqb_neq in Hk.
    rewrite lookup_obj_set, String.eqb_sym, Hk.
    rewrite (lookup_define_all config [] k Dc). now destruct (lookup config k).
  - eexists. split; [now rewrite lookup_obj_set, String.eqb_refl|]. split.
    + intros k v Hk. now rewrite (lookup_define_all p inner0 k Dp), Hk.
    + intros q k Hq Dq Hk. rewrite (lookup_define_all p inner0 k Dp), Hk.
      unfold get in Ei. rewrite Hq in Ei. cbn [spread] in Ei.
      injection Ei as <-. rewrite (lookup_define_all q [] k Dq).
      now destruct (lookup q k).
Qed.

Lemma toAxiosConfig_params_witness :
  (forall k, k <> "params" ->
     lookup [("timeout", VNumber (NInt 5000));
             ("params", VObject [("token", VString "t");
                                 ("page", VNumber (NInt 2))])] k
     = lookup [("timeout", VNumber (NInt 5000));
               ("params", VObject [("token", VString "t");
                                   ("page", VNumber (NInt 9))])] k)
  /\ exists inner,
       lookup [("timeout", VNumber (NInt 5000));
               ("params", VObject [("token", VString "t");
                                   ("page", VNumber (NInt 2))])] "params"
       = Some (VObject inner)
       /\ (forall k v, lookup [("page", VNumber (NInt 2))] k = Some v ->
             lookup inner k = Some v)
       /\ (forall q k,
             lookup [("timeout", VNumber (NInt 5000));
                     ("params", VObject [("token", VString "t");
                                         ("page", VNumber (NInt 9))])] "params"
             = Some (VObject q) ->
             distinct (map fst q) = true ->
             lookup [("page", VNumber (NInt 2))] k = None ->
             lookup inner k = lookup q k).
Proof.
  apply (toAxiosConfig_params decimal_StringToNumber
           [("page", VNumber (NInt 2))]
           [("timeout", VNumber (NInt 5000));
            ("params", VObject [("token", VString "t");
                                ("page", VNumber (NInt 9))])]);
    reflexivity.
Defined.



(** ** The builder and the quick functions *)

Lemma set_single_keeps (op f : string) (v : value) (b b' : PaginateBuilder) :
  set_single op f v b = Ok b' ->
  options b' = options b /\ baseUrl b' = baseUrl b.
Proof.
  unfold set_single. destruct (nested_object (params b) op) as [o| |];
    cbn [bind]; try discriminate.
  destruct (assign o f v); cbn [bind]; try discriminate.
  now intros [= <-].
Qed.

Lemma set_multi_keeps (op f : string) (values : list value)
  (b b' : PaginateBuilder) :
  set_multi op f values b = Ok b' ->
  options b' = options b /\ baseUrl b' = baseUrl b.
Proof.
  unfold set_multi. destruct (nested_object (params b) op) as [o| |];
    cbn [bind]; try discriminate.
  destruct (inherited f && match lookup o f with None => true | _ => false end);
    cbn [bind]; try discriminate.
  destruct (spread_append (lookup o f) values) as [arr| |]; cbn [bind];
    try discriminate.
  destruct (assign o f arr); cbn [bind]; try discriminate.
  now intros [= <-].
Qed.

Lemma set_list_keeps (key : string) (fields : list string)
  (b b' : PaginateBuilder) :
  set_list key fields b = Ok b' ->
  options b' = options b /\ baseUrl b' = baseUrl b.
Proof.
  unfold set_list. destruct (spread_append _ _); cbn [bind]; try discriminate.
  now intros [= <-].
Qed.

Lemma filter_keeps (f operator : string) (v : value) (b b' : PaginateBuilder) :
  filter f operator v b = Ok b' ->
  options b' = options b /\ baseUrl b' = baseUrl b.
Proof.
  unfold filter.
  repeat match goal with
         | |- context [if ?c then _ else _] => destruct c
         end;
    try discriminate;
    first [apply set_single_keeps | apply set_multi_keeps | apply set_list_keeps].
Qed.

Lemma perform_keeps (c : call) (b b' : PaginateBuilder) :
  perform b c = Ok b' ->
  options b' = options b /\ baseUrl b' = baseUrl b.
Proof.
  destruct c; cbn [perform];
    try (now intros [= <-]);
    try apply set_single_keeps; try apply set_multi_keeps;
    try apply set_list_keeps; try apply filter_keeps.
  unfold merge. destruct (mergeParams _); cbn [bind]; try discriminate.
  now intros [= <-].
Qed.

Lemma chain_keeps (calls : list call) (b b' : PaginateBuilder) :
  chain calls b = Ok b' ->
  options b' = options b /\ baseUrl b' = baseUrl b.
Proof.
  unfold chain. revert b. induction calls as [|c calls IH]; intros b;
    cbn [fold_outcome].
  - now intros [= <-].
  - destruct (perform b c) as [b1| |] eqn:E; cbn [bind]; try discriminate.
    intros H. destruct (IH b1 H) as [Ho Hu].
    destruct (perform_keeps c b b1 E) as [Ho1 Hu1]. split; congruence.
Qed.

(** X15: no chain of setters changes the options or the base URL of a
    builder, so a builder made by [createPaginateWithUrl] builds what the
    quick functions build from its parameters: the query string of
    [toQueryString], the URL of [toUrl] (on the URL passed to [buildUrl], or
    on that of the builder when none or an empty one is passed) and the
    request configurations of [toAxiosConfig] and [toFetchConfig]. *)
Theorem builder_builds_as_quick_functions (stn : string -> number)
  (url : string) (opts : BuilderOptions) (calls : list call)
  (b : PaginateBuilder) :
  chain calls (createPaginateWithUrl url opts) = Ok b ->
  Builder.buildQueryString stn b = toQueryString stn (params b) opts
  /\ Builder.buildUrl stn None b = toUrl stn url (params b) opts
  /\ (forall u, Builder.buildUrl stn (Some u) b
                = toUrl stn (if is_empty u then url else u) (params b) opts)
  /\ (forall config, Builder.buildAxiosConfig stn config b
                     = toAxiosConfig stn (params b) config)
  /\ (forall u config,
        Builder.buildFetchConfig stn u config b
        = toFetchConfig stn
            (match u with
             | Some u' => if is_empty u' then url else u'
             | None => url
             end) (params b) config opts).
Proof.
  intros H. apply chain_keeps in H as [Ho Hu]. cbn in Ho, Hu.
  unfold Builder.buildFetchConfig, toFetchConfig, Builder.buildUrl, toUrl,
    Builder.buildQueryString, toQueryString, Builder.buildAxiosConfig,
    toAxiosConfig.
  rewrite Ho, Hu. split; [reflexivity|]. split; [reflexivity|].
  split; [reflexivity|]. split; [reflexivity|].
  now intros [u|] config.
Qed.

Lemma builder_builds_as_quick_functions_witness :
  Builder.buildQueryString decimal_StringToNumber
    {| params := [("page", VNumber (NInt 2));
                     ("sort", VArray [VString "-created_at"])];
          options := DEFAULT_OPTIONS; baseUrl := "/api" |}
  = toQueryString decimal_StringToNumber
      [("page", VNumber (NInt 2)); ("sort", VArray [VString "-created_at"])]
      no_options
  /\ Builder.buildUrl decimal_StringToNumber None
       {| params := [("page", VNumber (NInt 2));
                     ("sort", VArray [VString "-created_at"])];
          options := DEFAULT_OPTIONS; baseUrl := "/api" |}
     = toUrl decimal_StringToNumber "/api"
         [("page", VNumber (NInt 2)); ("sort", VArray [VString "-created_at"])]
         no_options
  /\ (forall u,
        Builder.buildUrl decimal_StringToNumber (Some u)
          {| params := [("page", VNumber (NInt 2));
                     ("sort", VArray [VString "-created_at"])];
          options := DEFAULT_OPTIONS; baseUrl := "/api" |}
        = toUrl decimal_StringToNumber (if is_empty u then "/api" else u)
            [("page", VNumber (NInt 2)); ("sort", VArray [VString "-created_at"])]
            no_options)
  /\ (forall config,
        Builder.buildAxiosConfig decimal_StringToNumber config
          {| params := [("page", VNumber (NInt 2));
                     ("sort", VArray [VString "-created_at"])];
          options := DEFAULT_OPTIONS; baseUrl := "/api" |}
        = toAxiosConfig decimal_StringToNumber
            [("page", VNumber (NInt 2)); ("sort", VArray [VString "-created_at"])]
            config)
  /\ (forall u config,
        Builder.buildFetchConfig decimal_StringToNumber u config
          {| params := [("page", VNumber (NInt 2));
                     ("sort", VArray [VString "-created_at"])];
          options := DEFAULT_OPTIONS; baseUrl := "/api" |}
        = toFetchConfig decimal_StringToNumber
            (match u with
             | Some u' => if is_empty u' then "/api" else u'
             | None => "/api"
             end)
            [("page", VNumber (NInt 2)); ("sort", VArray [VString "-created_at"])]
            config no_options).
Proof.
  apply (builder_builds_as_quick_functions decimal_StringToNumber "/api"
           no_options [call_page (NInt 2); call_sortDesc "created_at"]
           {| params := [("page", VNumber (NInt 2));
                     ("sort", VArray [VString "-created_at"])];
          options := DEFAULT_OPTIONS; baseUrl := "/api" |}).
  reflexivity.
Defined.

(** ** Models that come in from outside *)

Lemma check_positive_thrown (stn : string -> number) (v : value)
  (message : string) (e : exn) :
  check_positive stn v message = Throw e -> e = TypeError \/ e = Error message.
Proof.
  rewrite check_positive_spec. destruct (is_undefined v); [discriminate|].
  destruct (ToNumber stn v) as [n|x|] eqn:E; cbn [bind]; try discriminate.
  - destruct (out_of_range n); [|discriminate]. intros [= <-]. now right.
  - intros [= <-]. left. exact (ToNumber_thrown stn v _ E).
Qed.

Lemma validatePaginationParams_thrown (stn : string -> number) (p : object)
  (e : exn) :
  validatePaginationParams stn p = Throw e ->
  e = TypeError
  \/ exists message, e = Error message /\ is_empty message = false.
Proof.
  unfold validatePaginationParams.
  destruct (check_positive stn (get p "page") _) as [[]|x|] eqn:Ep; cbn [bind];
    try discriminate.
  - intros El. destruct (check_positive_thrown _ _ _ _ El) as [->| ->];
      [now left | right; eexists; split; reflexivity].
  - intros [= <-]. destruct (check_positive_thrown _ _ _ _ Ep) as [->| ->];
      [now left | right; eexists; split; reflexivity].
Qed.

(** X16: what [fromJSON] returns and throws, whatever [JSON.parse] does and
    whatever the messages of the host's errors are.  Everything it throws
    is an [Error] whose message begins with
    [Invalid JSON for pagination parameters: ]; this includes the range
    errors of a well-formed document, reported with the text of the inner
    error behind the prefix, and the [TypeError] of the host, reported
    likewise, when the document is [null] or when its [page] or [limit]
    cannot be converted to a number, as for [{"page": {"toString": 1}}].  A
    document that is a number, a string, a boolean or a sequence is
    returned as parsed. *)
Theorem fromJSON_outcomes (stn : string -> number)
  (JSON_parse : string -> value + string) (host_message : value -> string)
  (jsonString : string) :
  (forall e, fromJSON stn JSON_parse host_message jsonString = Throw e ->
     exists detail,
       e = Error ("Invalid JSON for pagination parameters: " ++ detail))
  /\ (forall p message,
        JSON_parse jsonString = inl (VObject p) ->
        validatePaginationParams stn p = Throw (Error message) ->
        fromJSON stn JSON_parse host_message jsonString
        = Throw (Error ("Invalid JSON for pagination parameters: Error: "
                        ++ message)))
  /\ (forall p,
        JSON_parse jsonString = inl (VObject p) ->
        validatePaginationParams stn p = Throw TypeError ->
        fromJSON stn JSON_parse host_message jsonString
        = Throw (Error ("Invalid JSON for pagination parameters: "
                        ++ error_text "TypeError" (host_message (VObject p)))))
  /\ (forall rest,
        JSON_parse jsonString
        = inl (VObject (("page", VObject [("toString", VNumber (NInt 1))])
                        :: rest)) ->
        fromJSON stn JSON_parse host_message jsonString
        = Throw (Error ("Invalid JSON for pagination parameters: "
                        ++ error_text "TypeError"
                             (host_message
                                (VObject (("page", VObject [("toString",
                                                             VNumber (NInt 1))])
                                          :: rest))))))
  /\ (JSON_parse jsonString = inl VNull ->
      fromJSON stn JSON_parse host_message jsonString
      = Throw (Error ("Invalid JSON for pagination parameters: "
                      ++ error_text "TypeError" (host_message VNull))))
  /\ (forall v,
        JSON_parse jsonString = inl v -> nullish v = false ->
        (forall p, v <> VObject p) ->
        fromJSON stn JSON_parse host_message jsonString = Ok v).
Proof.
  unfold fromJSON, invalid_json.
  split; [|split; [|split; [|split; [|split]]]].
  - intros e. destruct (JSON_parse jsonString) as [parsed|message].
    + destruct (validate_value stn parsed) as [[]|[m| |]|]; try discriminate;
        intros [= <-]; eexists; reflexivity.
    + intros [= <-]; eexists; reflexivity.
  - intros p message -> Hv. cbn [validate_value]. rewrite Hv.
    destruct (validatePaginationParams_thrown stn p _ Hv)
      as [H|(m & H & Hm)]; [discriminate|]. injection H as ->.
    unfold error_text. now rewrite Hm.
  - intros p -> Hv. cbn [validate_value]. now rewrite Hv.
  - intros rest ->. reflexivity.
  - intros ->. reflexivity.
  - intros v -> Hn Ho.
    destruct v; try discriminate Hn; try reflexivity.
    now destruct (Ho entries).
Qed.

Lemma fromJSON_outcomes_witness :
  fromJSON decimal_StringToNumber
    (fun _ => inl (VObject [("page", VNumber (NInt 0))]))
    (fun _ => "Cannot convert object to primitive value") "{page:0}"
  = Throw (Error ("Invalid JSON for pagination parameters: Error: "
                  ++ "Page must be a positive integer")).
Proof.
  apply (proj1 (proj2 (fromJSON_outcomes decimal_StringToNumber
                         (fun _ => inl (VObject [("page", VNumber (NInt 0))]))
                         (fun _ => "Cannot convert object to primitive value")
                         "{page:0}"))
           [("page", VNumber (NInt 0))] "Page must be a positive integer");
    reflexivity.
Defined.

(** ** The [comma] format *)

Lemma strings_are_strings (sorts : list string) :
  forallb is_string (map VString sorts) = true.
Proof. induction sorts as [|s sorts IH]; [reflexivity | exact IH]. Qed.

(** X18: under the [comma] format a sequence of two or more strings does
    not come back.  The encoder writes the sort strings into one token,
    joined by commas, and the decoder returns a sequence of one string, the
    joined text; only a sequence of one string comes back as it was.  When
    one of the strings holds a lone surrogate the encoder throws the
    [URIError] of [encodeURIComponent] instead. *)
Theorem comma_joins_sort (stn : string -> number) (sorts : list string)
  (opts : BuilderOptions) :
  arrayFormat opts = Some comma -> encodeValues opts <> Some false ->
  sorts <> [] ->
  if encodable opts [("sort", VArray (map VString sorts))] then
    exists queryString,
      buildQueryString [("sort", VArray (map VString sorts))] opts
      = Ok queryString
      /\ fromQueryString stn queryString
         = Ok [("sort", VArray [VString (String.concat "," sorts)])]
      /\ ((2 <= List.length sorts)%nat ->
          fromQueryString stn queryString
          <> Ok [("sort", VArray (map VString sorts))])
      /\ (List.length sorts = 1%nat ->
          fromQueryString stn queryString
          = Ok [("sort", VArray (map VString sorts))])
  else
    buildQueryString [("sort", VArray (map VString sorts))] opts
    = Throw URIError.
Proof.
  intros Hf He Hs.
  assert (Hsep : separator_text opts = ",")
    by (unfold separator_text; now rewrite Hf).
  assert (Hr : readable_options opts = true).
  { unfold readable_options. rewrite Hsep.
    now destruct (encodeValues opts) as [[|]|]. }
  assert (Hreg : regular opts [("sort", VArray (map VString sorts))] = true).
  { unfold regular, regular_entry. cbn [forallb fst snd].
    rewrite skip_array, andb_true_r.
    destruct sorts as [|s sorts]; [now destruct Hs|]. cbn [map negb andb].
    apply (sequence_regular (map VString (s :: sorts)));
      [discriminate | apply strings_are_strings]. }
  rewrite (buildQueryString_regular _ opts Hreg).
  destruct (encodable opts [("sort", VArray (map VString sorts))]);
    [|reflexivity].
  exists (query_text [("sort", VArray (map VString sorts))] opts).
  split; [reflexivity|].
  assert (Hd : fromQueryString stn
                 (query_text [("sort", VArray (map VString sorts))] opts)
               = Ok [("sort", VArray [VString (String.concat "," sorts)])]).
  { unfold fromQueryString.
    rewrite (URLSearchParams_query_text _ opts Hr), Hsep.
    unfold model_wires. cbn [flat_map entry_wires].
    rewrite skip_array. unfold array_wires. rewrite Hf.
    destruct sorts as [|s sorts]; [now destruct Hs|].
    cbn [map app wire_pair wire_key wire_suffix wire_values camelToSnakeCase].
    rewrite map_map, map_id. reflexivity. }
  rewrite Hd. split; [reflexivity|]. split.
  - intros Hl E. destruct sorts as [|s [|t sorts]]; cbn [List.length] in Hl;
      [lia | lia | discriminate E].
  - intros Hl. destruct sorts as [|s [|t sorts]]; try discriminate Hl.
    reflexivity.
Qed.

Lemma comma_joins_sort_witness :
  exists queryString,
    buildQueryString [("sort", VArray (map VString ["name"; "-created_at"]))]
      {| encodeValues := None; arrayFormat := Some comma;
         arraySeparator := None; skipNulls := None; skipEmptyString := None |}
    = Ok queryString
    /\ fromQueryString decimal_StringToNumber queryString
       = Ok [("sort", VArray [VString (String.concat ","
                                         ["name"; "-created_at"])])]
    /\ ((2 <= List.length ["name"; "-created_at"])%nat ->
        fromQueryString decimal_StringToNumber queryString
        <> Ok [("sort", VArray (map VString ["name"; "-created_at"]))])
    /\ (List.length ["name"; "-created_at"] = 1%nat ->
        fromQueryString decimal_StringToNumber queryString
        = Ok [("sort", VArray (map VString ["name"; "-created_at"]))]).
Proof.
  refine (comma_joins_sort decimal_StringToNumber ["name"; "-created_at"]
            {| encodeValues := None; arrayFormat := Some comma;
               arraySeparator := None; skipNulls := None;
               skipEmptyString := None |} eq_refl _ _);
    discriminate.
Defined.
